(** * labsuite: the Protocol document and its virtualized execution context

    A shallow embedding of [labsuite/protocol/protocol.py] (class [Protocol])
    and of the exception taxonomy of [labsuite/util/exceptions.py].

    Python objects are mutable and exceptions do not roll anything back, so
    every method is a computation [S -> Res A * S]: the state that comes out
    is the object as the method left it, also when it raised.  Dictionaries
    are association lists in insertion order (the order Python iterates
    them in); their order-free content, which is what dictionary equality
    and the structural hash see, is the [gmap] they denote. *)

From Stdlib Require Import ZArith String Ascii List Bool Lia.
From Stdlib Require Import Floats DecimalString DecimalZ.
From stdpp Require Import gmap strings list fin_maps.

Set Warnings "-register-all".

Open Scope string_scope.
Open Scope list_scope.
Open Scope Z_scope.

(** ** Exceptions *)

(** The classes of [labsuite/util/exceptions.py], and the built-in
    exceptions the Protocol raises.  Messages are kept where the source gives
    a literal. *)
Inductive exn : Type :=
| ValueError (msg : string)
| TypeError (msg : string)
| KeyError (key : string)
| IndexError (msg : string)
| NameError (name : string)
| AttributeError (name : string)
| PartialProtocolException (msg : string)
| DataMissing
| CalibrationMissing
| ContainerConflict
| InstrumentConflict
| InstrumentMissing
| ContainerMissing
| TipMissing
| CommandMissing
| SlotMissing
| LiquidOverflow
| LiquidUnavailable
| LiquidMismatch.

(** [issubclass(e, ProtocolException)]: the family a PartialProtocol queues.
    [PartialProtocolException] is outside it on purpose. *)
Definition is_ProtocolException (e : exn) : bool :=
  match e with
  | ValueError _ | TypeError _ | KeyError _ | IndexError _ | NameError _
  | AttributeError _ | PartialProtocolException _ => false
  | _ => true
  end.

(** [issubclass(e, ProtocolConflict)]. *)
Definition is_ProtocolConflict (e : exn) : bool :=
  match e with
  | ContainerConflict | InstrumentConflict => true
  | _ => false
  end.

(** ** Computations that mutate and may raise *)

Inductive Res (A : Type) : Type :=
| Ok (a : A)
| Raise (e : exn).
Arguments Ok {A} a.
Arguments Raise {A} e.

Definition M (S A : Type) : Type := S -> Res A * S.

Definition ret {S A} (a : A) : M S A := fun s => (Ok a, s).
Definition raise {S A} (e : exn) : M S A := fun s => (Raise e, s).
Definition bind {S A B} (m : M S A) (k : A -> M S B) : M S B :=
  fun s => match m s with
           | (Ok a, s') => k a s'
           | (Raise e, s') => (Raise e, s')
           end.
Definition get {S} : M S S := fun s => (Ok s, s).
Definition gets {S A} (f : S -> A) : M S A := fun s => (Ok (f s), s).
Definition modify {S} (f : S -> S) : M S unit := fun s => (Ok tt, f s).
Definition when {S} (b : bool) (m : M S unit) : M S unit :=
  if b then m else ret tt.
Definition lift_res {S A} (r : Res A) : M S A := fun s => (r, s).

Declare Scope py_scope.
Delimit Scope py_scope with py.
Notation "x <- m ;; k" := (bind m (fun x => k))
  (at level 100, m at next level, right associativity) : py_scope.
Notation "m ;;; k" := (bind m (fun _ => k))
  (at level 100, right associativity) : py_scope.
Open Scope py_scope.

(** A [for] loop over a list: the body runs on each item in order and the
    first exception leaves the loop. *)
Fixpoint for_each {S A} (l : list A) (body : A -> M S unit) : M S unit :=
  match l with
  | [] => ret tt
  | a :: l' => body a ;;; for_each l' body
  end.

(** Running a computation on a part of the state (a callee that mutates an
    object the caller holds). *)
Definition zoom {S T A} (rd : S -> T) (wr : T -> S -> S) (m : M T A) : M S A :=
  fun s => let (r, t') := m (rd s) in (r, wr t' s).

(** ** Python values *)

(** A Python number: [int] (unbounded) or [float] (binary64). *)
Inductive PyNum : Type :=
| PyInt (z : Z)
| PyFloat (f : float).

(** Truth value of a number: zero (of either sign, for floats) is false. *)
Definition num_truthy (n : PyNum) : bool :=
  match n with
  | PyInt z => negb (z =? 0)
  | PyFloat f => negb (PrimFloat.eqb f 0%float)
  end.

(** [n is 0]: identity with the integer zero.  No float is that object. *)
Definition num_is_0 (n : PyNum) : bool :=
  match n with
  | PyInt 0 => true
  | _ => false
  end.

(** [n * 1000]: exact on integers, rounded on floats. *)
Definition num_mul1000 (n : PyNum) : PyNum :=
  match n with
  | PyInt z => PyInt (z * 1000)
  | PyFloat f => PyFloat (f * 1000)%float
  end.

(** [z == f] for an int and a float: Python compares the exact values. *)
Definition int_float_eqb (z : Z) (f : float) : bool :=
  match Prim2SF f with
  | S754_zero _ => z =? 0
  | S754_finite s m e =>
      let sgn := if s then -1 else 1 in
      if 0 <=? e then z =? sgn * (Z.pos m * 2 ^ e)
      else (Z.pos m mod 2 ^ (- e) =? 0) && (z =? sgn * (Z.pos m / 2 ^ (- e)))
  | _ => false
  end.

(** [a == b] on numbers. *)
Definition num_eqb (a b : PyNum) : bool :=
  match a, b with
  | PyInt x, PyInt y => x =? y
  | PyFloat x, PyFloat y => PrimFloat.eqb x y
  | PyInt x, PyFloat y => int_float_eqb x y
  | PyFloat x, PyInt y => int_float_eqb y x
  end.

(** A grid coordinate [(column, row)], zero-indexed; an address is
    [(container_slot, well)]. *)
Definition position : Type := Z * Z.
Definition address : Type := position * position.

(** The values that occur in command records and keyword arguments. *)
Inductive PyVal : Type :=
| VNone
| VBool (b : bool)
| VNum (n : PyNum)
| VStr (s : string)
| VPos (p : position)
| VAddr (a : address)
| VList (l : list PyVal)
| VDict (d : list (string * PyVal)).

Definition of_opt {A} (f : A -> PyVal) (o : option A) : PyVal :=
  match o with
  | Some a => f a
  | None => VNone
  end.

(** ** Dictionaries in insertion order *)

Definition dict (K V : Type) : Type := list (K * V).

Section Dict.
Context {K V : Type} `{EqDecision K}.

(** [d.get(k)] *)
Fixpoint dict_get (k : K) (d : dict K V) : option V :=
  match d with
  | [] => None
  | (k', v) :: d' => if decide (k = k') then Some v else dict_get k d'
  end.

(** [k in d] *)
Definition dict_in (k : K) (d : dict K V) : bool :=
  match dict_get k d with
  | Some _ => true
  | None => false
  end.

(** [d[k] = v]: an existing key keeps its place, a new key goes last. *)
Fixpoint dict_set (k : K) (v : V) (d : dict K V) : dict K V :=
  match d with
  | [] => [(k, v)]
  | (k', v') :: d' =>
      if decide (k = k') then (k', v) :: d' else (k', v') :: dict_set k v d'
  end.

(** [del d[k]] (the removal half of [d.pop(k)]). *)
Fixpoint dict_del (k : K) (d : dict K V) : dict K V :=
  match d with
  | [] => []
  | (k', v') :: d' =>
      if decide (k = k') then dict_del k d' else (k', v') :: dict_del k d'
  end.

(** [d.update(e)] *)
Definition dict_update (d e : dict K V) : dict K V :=
  fold_left (fun acc kv => dict_set kv.1 kv.2 acc) e d.

(** The list is a well-formed dictionary: no key twice. *)
Definition dict_wf (d : dict K V) : Prop := NoDup (d.*1).
End Dict.

(** [{v: k for k, v in d.items()}] *)
Definition dict_invert {K V : Type} `{EqDecision V} (d : dict K V) : dict V K :=
  fold_left (fun acc kv => dict_set kv.2 kv.1 acc) d [].

(** The order-free content of a dictionary. *)
Definition content {K V : Type} `{Countable K} (d : dict K V) : gmap K V :=
  list_to_map d.

(** ** Strings *)

(** [c.lower()] on ASCII letters. *)
Definition lower_ascii (c : ascii) : ascii :=
  let n := nat_of_ascii c in
  if ((65 <=? n) && (n <=? 90))%nat then ascii_of_nat (n + 32) else c.

(** [s.lower()] *)
Fixpoint lower (s : string) : string :=
  match s with
  | EmptyString => EmptyString
  | String c s' => String (lower_ascii c) (lower s')
  end.

(** [s.split(sep)] for a one-character separator: never empty. *)
Fixpoint split_on (sep : ascii) (s : string) : list string :=
  match s with
  | EmptyString => [EmptyString]
  | String c s' =>
      if Ascii.eqb c sep then EmptyString :: split_on sep s'
      else match split_on sep s' with
           | w :: ws => String c w :: ws
           | [] => [String c EmptyString]
           end
  end.

(** [sep.join(l)] *)
Fixpoint join_with (sep : string) (l : list string) : string :=
  match l with
  | [] => EmptyString
  | [w] => w
  | w :: ws => w +:+ sep +:+ join_with sep ws
  end.

(** [c in s] for a character. *)
Fixpoint contains_char (c : ascii) (s : string) : bool :=
  match s with
  | EmptyString => false
  | String c' s' => Ascii.eqb c' c || contains_char c s'
  end.

(** [str(z)] for an int. *)
Definition py_str (z : Z) : string := NilZero.string_of_int (Z.to_int z).

(** The characters [int] drops at either end of its argument, among the
    code points below 256: tab to carriage return, the space, and the two
    spaces [\x85] and [\xa0]. *)
Definition is_space (c : ascii) : bool :=
  let n := nat_of_ascii c in
  ((9 <=? n) && (n <=? 13) || (n =? 32) || (n =? 133) || (n =? 160))%nat.

(** A decimal digit below 256: [0] to [9]. *)
Definition is_digit (c : ascii) : bool :=
  let n := nat_of_ascii c in ((48 <=? n) && (n <=? 57))%nat.

(** The string without the whitespace at its start, and at its end. *)
Fixpoint lstrip (s : string) : string :=
  match s with
  | EmptyString => EmptyString
  | String c s' => if is_space c then lstrip s' else s
  end.

Fixpoint rstrip (s : string) : string :=
  match s with
  | EmptyString => EmptyString
  | String c s' =>
      match rstrip s' with
      | EmptyString => if is_space c then EmptyString else String c EmptyString
      | r => String c r
      end
  end.

(** The digits of a decimal literal, in which single underscores may stand
    between digits; [after_digit] says that the character before was a
    digit. *)
Fixpoint literal_digits (after_digit : bool) (s : string) : option string :=
  match s with
  | EmptyString => if after_digit then Some EmptyString else None
  | String c s' =>
      if is_digit c then option_map (String c) (literal_digits true s')
      else if Ascii.eqb c "_" then
             (if after_digit then literal_digits false s' else None)
      else None
  end.

(** [int(s)] on a string of code points below 256: whitespace around the
    literal is dropped, one sign may come first, and the digits may be
    grouped by single underscores; anything else is a [ValueError]. *)
Definition py_int (s : string) : Res Z :=
  let t := rstrip (lstrip s) in
  let '(negative, body) :=
    match t with
    | String "-" r => (true, r)
    | String "+" r => (false, r)
    | _ => (false, t)
    end in
  match literal_digits false body with
  | Some ds =>
      match NilZero.uint_of_string ds with
      | Some d => Ok (if negative : bool then - Z.of_uint d else Z.of_uint d)
      | None => Raise (ValueError "invalid literal for int()")
      end
  | None => Raise (ValueError "invalid literal for int()")
  end.

(** Every character of the string is a decimal digit. *)
Definition all_digits (s : string) : bool :=
  forallb is_digit (list_ascii_of_string s).

(** [[f(x) for x in l]] where [f] may raise. *)
Fixpoint map_res {A B} (f : A -> Res B) (l : list A) : Res (list B) :=
  match l with
  | [] => Ok []
  | a :: l' =>
      match f a with
      | Ok b => match map_res f l' with
                | Ok bs => Ok (b :: bs)
                | Raise e => Raise e
                end
      | Raise e => Raise e
      end
  end.

(** ** Collaborators *)

(** What a caller may pass as a slot: a coordinate string or a pair. *)
Inductive PosArg : Type :=
| PosStr (s : string)
| PosTuple (p : position).

(** Column of a letter: [A]..[Z] and [a]..[z] give 0..25. *)
Definition letter_index (c : ascii) : option Z :=
  let n := nat_of_ascii c in
  if ((65 <=? n) && (n <=? 90))%nat then Some (Z.of_nat n - 65)
  else if ((97 <=? n) && (n <=? 122))%nat then Some (Z.of_nat n - 97)
  else None.

(** Value of a non-empty run of decimal digits. *)
Fixpoint digits_value (s : string) (acc : Z) : option Z :=
  match s with
  | EmptyString => Some acc
  | String c s' =>
      let n := nat_of_ascii c in
      if ((48 <=? n) && (n <=? 57))%nat
      then digits_value s' (10 * acc + (Z.of_nat n - 48))
      else None
  end.

(** Modelled from the spec: [labsuite.labware.grid.normalize_position] is
    not under src/ (only its tests are).  A coordinate pair passes through;
    a token of one letter followed by digits gives (letter index, digits
    minus one); a column outside A-Z, a missing or non-numeric digit part
    and row zero are rejected with the [ValueError] the tests expect. *)
Definition normalize_position (a : PosArg) : Res position :=
  match a with
  | PosTuple p => Ok p
  | PosStr (String c ((String _ _) as ds)) =>
      match letter_index c, digits_value ds 0 with
      | Some col, Some n =>
          if 0 <? n then Ok (col, n - 1)
          else Raise (ValueError "invalid coordinate")
      | _, _ => Raise (ValueError "invalid coordinate")
      end
  | PosStr _ => Raise (ValueError "invalid coordinate")
  end.

(** Keyword arguments, and a command record
    [{'command': name, **kwargs}] of the log. *)
Definition kwargs : Type := dict string PyVal.
Definition Command : Type := dict string PyVal.

(** The virtual deck ([labsuite.protocol.handlers.ContextHandler], not
    under src/), as the Protocol uses it: a state [ctx] and the methods the
    Protocol calls.  A method may raise and may have changed the context
    when it does.  [ch_method name] is [getattr(context, name)], the
    command-shaped methods looked up by name. *)
Class ContextHandler (ctx : Type) : Type := {
  ch_new : ctx;
  ch_add_container : position -> string -> M ctx unit;
  ch_add_instrument : string -> string -> M ctx unit;
  ch_calibrate : PyVal -> kwargs -> M ctx unit;
  ch_calibrate_instrument : string -> kwargs -> M ctx unit;
  ch_get_instrument : kwargs -> ctx -> option string;
  ch_method : string -> option (kwargs -> M ctx unit)
}.

(** The handler classes the Protocol instantiates itself, and any other. *)
Inductive HandlerClass : Type :=
| MotorControlHandler
| RequirementsHandler
| UserHandler (name : string).

(** The handler capability interface.  A handler keeps the context it was
    given by [set_context]; the Protocol always calls an attached handler
    after handing it its current context, so a handler method acts on the
    pair (own state, current context).  [h_method h name] is
    [getattr(h, name)]. *)
Class ProtocolHandler (H ctx : Type) : Type := {
  h_new : HandlerClass -> H;
  h_setup : M (H * ctx) unit;
  h_before_each : M (H * ctx) unit;
  h_after_each : M (H * ctx) unit;
  h_method : H -> string -> option (kwargs -> M (H * ctx) unit);
  h_connect : PyVal -> M (H * ctx) unit;
  h_simulate : M (H * ctx) unit;
  h_disconnect : M (H * ctx) unit;
  h_requirements : H -> PyVal
}.

(** What the structural hash is computed from: the order-free content of
    the six structural fields (a command record by its content too). *)
Record Structure : Type := {
  s_ingredients : gmap string string;
  s_head : gmap string string;
  s_container_labels : gmap string position;
  s_label_case : gmap string string;
  s_containers : gmap position string;
  s_commands : list (gmap string PyVal)
}.

(** State of the [ExceptionProxy] wrapping a partial protocol. *)
Record PartialProxy : Type := {
  is_valid : bool;
  problems : list string
}.

(** ** The Protocol *)

Record Protocol {ctx H hash_t : Type} : Type := {
  _ingredients : dict string string;
  _head : dict string string;
  _calibration : dict string PyVal;
  _container_labels : dict string position;
  _label_case : dict string string;
  _containers : dict position string;
  _commands : list Command;
  _name : option string;
  _description : option string;
  _created : option string;
  _updated : option string;
  _author : option string;
  _version : list Z;
  _version_hash : option hash_t;
  (** attached handlers, by reference into [handler_objs] *)
  _handlers : list nat;
  _context_handler : ctx;
  _motor_handler : option nat;
  _partial_proxy : option PartialProxy;
  (** the handler objects this protocol has created, by allocation order *)
  handler_objs : list H
}.
Arguments Protocol : clear implicits.

Section Setters.
Context {ctx H hash_t : Type}.
#[local] Abbreviation Protocol := (Protocol ctx H hash_t).
Implicit Type p : Protocol.

Definition set_head v p : Protocol :=
  {| _ingredients := _ingredients p; _head := v; _calibration := _calibration p;
     _container_labels := _container_labels p; _label_case := _label_case p;
     _containers := _containers p; _commands := _commands p; _name := _name p;
     _description := _description p; _created := _created p; _updated := _updated p;
     _author := _author p; _version := _version p; _version_hash := _version_hash p;
     _handlers := _handlers p; _context_handler := _context_handler p;
     _motor_handler := _motor_handler p; _partial_proxy := _partial_proxy p;
     handler_objs := handler_objs p |}.
Definition set_container_labels v p : Protocol :=
  {| _ingredients := _ingredients p; _head := _head p; _calibration := _calibration p;
     _container_labels := v; _label_case := _label_case p;
     _containers := _containers p; _commands := _commands p; _name := _name p;
     _description := _description p; _created := _created p; _updated := _updated p;
     _author := _author p; _version := _version p; _version_hash := _version_hash p;
     _handlers := _handlers p; _context_handler := _context_handler p;
     _motor_handler := _motor_handler p; _partial_proxy := _partial_proxy p;
     handler_objs := handler_objs p |}.
Definition set_label_case v p : Protocol :=
  {| _ingredients := _ingredients p; _head := _head p; _calibration := _calibration p;
     _container_labels := _container_labels p; _label_case := v;
     _containers := _containers p; _commands := _commands p; _name := _name p;
     _description := _description p; _created := _created p; _updated := _updated p;
     _author := _author p; _version := _version p; _version_hash := _version_hash p;
     _handlers := _handlers p; _context_handler := _context_handler p;
     _motor_handler := _motor_handler p; _partial_proxy := _partial_proxy p;
     handler_objs := handler_objs p |}.
Definition set_containers v p : Protocol :=
  {| _ingredients := _ingredients p; _head := _head p; _calibration := _calibration p;
     _container_labels := _container_labels p; _label_case := _label_case p;
     _containers := v; _commands := _commands p; _name := _name p;
     _description := _description p; _created := _created p; _updated := _updated p;
     _author := _author p; _version := _version p; _version_hash := _version_hash p;
     _handlers := _handlers p; _context_handler := _context_handler p;
     _motor_handler := _motor_handler p; _partial_proxy := _partial_proxy p;
     handler_objs := handler_objs p |}.
Definition set_commands v p : Protocol :=
  {| _ingredients := _ingredients p; _head := _head p; _calibration := _calibration p;
     _container_labels := _container_labels p; _label_case := _label_case p;
     _containers := _containers p; _commands := v; _name := _name p;
     _description := _description p; _created := _created p; _updated := _updated p;
     _author := _author p; _version := _version p; _version_hash := _version_hash p;
     _handlers := _handlers p; _context_handler := _context_handler p;
     _motor_handler := _motor_handler p; _partial_proxy := _partial_proxy p;
     handler_objs := handler_objs p |}.
Definition set_name v p : Protocol :=
  {| _ingredients := _ingredients p; _head := _head p; _calibration := _calibration p;
     _container_labels := _container_labels p; _label_case := _label_case p;
     _containers := _containers p; _commands := _commands p; _name := v;
     _description := _description p; _created := _created p; _updated := _updated p;
     _author := _author p; _version := _version p; _version_hash := _version_hash p;
     _handlers := _handlers p; _context_handler := _context_handler p;
     _motor_handler := _motor_handler p; _partial_proxy := _partial_proxy p;
     handler_objs := handler_objs p |}.
Definition set_description v p : Protocol :=
  {| _ingredients := _ingredients p; _head := _head p; _calibration := _calibration p;
     _container_labels := _container_labels p; _label_case := _label_case p;
     _containers := _containers p; _commands := _commands p; _name := _name p;
     _description := v; _created := _created p; _updated := _updated p;
     _author := _author p; _version := _version p; _version_hash := _version_hash p;
     _handlers := _handlers p; _context_handler := _context_handler p;
     _motor_handler := _motor_handler p; _partial_proxy := _partial_proxy p;
     handler_objs := handler_objs p |}.
Definition set_created v p : Protocol :=
  {| _ingredients := _ingredients p; _head := _head p; _calibration := _calibration p;
     _container_labels := _container_labels p; _label_case := _label_case p;
     _containers := _containers p; _commands := _commands p; _name := _name p;
     _description := _description p; _created := v; _updated := _updated p;
     _author := _author p; _version := _version p; _version_hash := _version_hash p;
     _handlers := _handlers p; _context_handler := _context_handler p;
     _motor_handler := _motor_handler p; _partial_proxy := _partial_proxy p;
     handler_objs := handler_objs p |}.
Definition set_updated v p : Protocol :=
  {| _ingredients := _ingredients p; _head := _head p; _calibration := _calibration p;
     _container_labels := _container_labels p; _label_case := _label_case p;
     _containers := _containers p; _commands := _commands p; _name := _name p;
     _description := _description p; _created := _created p; _updated := v;
     _author := _author p; _version := _version p; _version_hash := _version_hash p;
     _handlers := _handlers p; _context_handler := _context_handler p;
     _motor_handler := _motor_handler p; _partial_proxy := _partial_proxy p;
     handler_objs := handler_objs p |}.
Definition set_author v p : Protocol :=
  {| _ingredients := _ingredients p; _head := _head p; _calibration := _calibration p;
     _container_labels := _container_labels p; _label_case := _label_case p;
     _containers := _containers p; _commands := _commands p; _name := _name p;
     _description := _description p; _created := _created p; _updated := _updated p;
     _author := v; _version := _version p; _version_hash := _version_hash p;
     _handlers := _handlers p; _context_handler := _context_handler p;
     _motor_handler := _motor_handler p; _partial_proxy := _partial_proxy p;
     handler_objs := handler_objs p |}.
Definition set_version v p : Protocol :=
  {| _ingredients := _ingredients p; _head := _head p; _calibration := _calibration p;
     _container_labels := _container_labels p; _label_case := _label_case p;
     _containers := _containers p; _commands := _commands p; _name := _name p;
     _description := _description p; _created := _created p; _updated := _updated p;
     _author := _author p; _version := v; _version_hash := _version_hash p;
     _handlers := _handlers p; _context_handler := _context_handler p;
     _motor_handler := _motor_handler p; _partial_proxy := _partial_proxy p;
     handler_objs := handler_objs p |}.
Definition set_version_hash v p : Protocol :=
  {| _ingredients := _ingredients p; _head := _head p; _calibration := _calibration p;
     _container_labels := _container_labels p; _label_case := _label_case p;
     _containers := _containers p; _commands := _commands p; _name := _name p;
     _description := _description p; _created := _created p; _updated := _updated p;
     _author := _author p; _version := _version p; _version_hash := v;
     _handlers := _handlers p; _context_handler := _context_handler p;
     _motor_handler := _motor_handler p; _partial_proxy := _partial_proxy p;
     handler_objs := handler_objs p |}.
Definition set_handlers v p : Protocol :=
  {| _ingredients := _ingredients p; _head := _head p; _calibration := _calibration p;
     _container_labels := _container_labels p; _label_case := _label_case p;
     _containers := _containers p; _commands := _commands p; _name := _name p;
     _description := _description p; _created := _created p; _updated := _updated p;
     _author := _author p; _version := _version p; _version_hash := _version_hash p;
     _handlers := v; _context_handler := _context_handler p;
     _motor_handler := _motor_handler p; _partial_proxy := _partial_proxy p;
     handler_objs := handler_objs p |}.
Definition set_context_handler v p : Protocol :=
  {| _ingredients := _ingredients p; _head := _head p; _calibration := _calibration p;
     _container_labels := _container_labels p; _label_case := _label_case p;
     _containers := _containers p; _commands := _commands p; _name := _name p;
     _description := _description p; _created := _created p; _updated := _updated p;
     _author := _author p; _version := _version p; _version_hash := _version_hash p;
     _handlers := _handlers p; _context_handler := v;
     _motor_handler := _motor_handler p; _partial_proxy := _partial_proxy p;
     handler_objs := handler_objs p |}.
Definition set_motor_handler v p : Protocol :=
  {| _ingredients := _ingredients p; _head := _head p; _calibration := _calibration p;
     _container_labels := _container_labels p; _label_case := _label_case p;
     _containers := _containers p; _commands := _commands p; _name := _name p;
     _description := _description p; _created := _created p; _updated := _updated p;
     _author := _author p; _version := _version p; _version_hash := _version_hash p;
     _handlers := _handlers p; _context_handler := _context_handler p;
     _motor_handler := v; _partial_proxy := _partial_proxy p;
     handler_objs := handler_objs p |}.
Definition set_handler_objs v p : Protocol :=
  {| _ingredients := _ingredients p; _head := _head p; _calibration := _calibration p;
     _container_labels := _container_labels p; _label_case := _label_case p;
     _containers := _containers p; _commands := _commands p; _name := _name p;
     _description := _description p; _created := _created p; _updated := _updated p;
     _author := _author p; _version := _version p; _version_hash := _version_hash p;
     _handlers := _handlers p; _context_handler := _context_handler p;
     _motor_handler := _motor_handler p; _partial_proxy := _partial_proxy p;
     handler_objs := v |}.
End Setters.

(** How a handler is handed to [attach_handler]: a class to instantiate, or
    an existing handler object. *)
Inductive HandlerArg : Type :=
| AClass (c : HandlerClass)
| AInstance (h : nat).

(** A generator made by [run()]: not started, suspended at a [yield] with the
    loop counter [i], or finished. *)
Inductive GenState : Type :=
| GenCreated
| GenSuspended (i : nat)
| GenDone.

(** The dictionary the [info] property builds. *)
Record Info {hash_t : Type} : Type := {
  i_name : option string;
  i_author : option string;
  i_description : option string;
  i_created : string;
  i_updated : string;
  i_version : string;
  i_version_hash : hash_t
}.
Arguments Info : clear implicits.

(** [o or d] for an optional string: [None] and the empty string are false. *)
Definition str_or (o : option string) (d : string) : string :=
  match o with
  | Some (String _ _ as s) => s
  | _ => d
  end.

(** The name [getattr] is given must be a string. *)
Definition command_name (v : PyVal) : Res string :=
  match v with
  | VStr s => Ok s
  | _ => Raise (TypeError "getattr(): attribute name must be string")
  end.

(** [_normalize_volume(ul, ml, default=None, skip_raise=False)]; the result
    is [None] only under [skip_raise]. *)
Definition _normalize_volume (ul ml default : option PyNum) (skip_raise : bool)
  : Res (option PyNum) :=
  let is_0 o := match o with Some n => num_is_0 n | None => false end in
  let truthy o := match o with Some n => num_truthy n | None => false end in
  if is_0 ul || is_0 ml || is_0 default then
    Raise (ValueError "Volume must exceed 0.")
  else if truthy ul && truthy ml
          && negb (match ul, ml with
                   | Some u, Some m => num_eqb (num_mul1000 m) u
                   | _, _ => true
                   end) then
    Raise (ValueError "Conflicting volumes for ml and ul.")
  else if truthy ul then Ok ul
  else if truthy ml then Ok (option_map num_mul1000 ml)
  else if truthy default then Ok default
  else if negb skip_raise then Raise (ValueError "No volume provided.")
  else Ok None.

Section ProtocolModel.
Context {ctx H hash_t : Type} `{EqDecision hash_t}.
Context `{!ContextHandler ctx} `{!ProtocolHandler H ctx}.

(** Modelled from the spec: [labsuite.util.hashing.hash_data] is not under
    src/.  It hashes the structural value of what it is given, so it is a
    function of the order-free content of the six fields. *)
Variable hash_data : Structure -> hash_t.

(** The reading of the clock, [str(time.strftime("%c"))]. *)
Variable strftime_now : string.

#[local] Abbreviation Protocol := (Protocol ctx H hash_t).
#[local] Abbreviation Info := (Info hash_t).

(** [Protocol()] *)
Definition new_protocol : Protocol :=
  {| _ingredients := []; _head := []; _calibration := [];
     _container_labels := []; _label_case := []; _containers := [];
     _commands := []; _name := None; _description := None; _created := None;
     _updated := None; _author := None; _version := [0; 0; 0];
     _version_hash := None; _handlers := []; _context_handler := ch_new;
     _motor_handler := None; _partial_proxy := None; handler_objs := [] |}.

(** The list handed to [hash_data], up to dictionary order. *)
Definition structure (p : Protocol) : Structure :=
  {| s_ingredients := content (_ingredients p);
     s_head := content (_head p);
     s_container_labels := content (_container_labels p);
     s_label_case := content (_label_case p);
     s_containers := content (_containers p);
     s_commands := content <$> _commands p |}.

(** The [hash] property. *)
Definition hash (p : Protocol) : hash_t := hash_data (structure p).

(** [__eq__] *)
Definition eq_protocol (p q : Protocol) : bool :=
  bool_decide (hash p = hash q).

(** The [version] property. *)
Definition version (p : Protocol) : string :=
  join_with "." (py_str <$> _version p).

(** [tuple(map(int, version.split('.')))] *)
Definition parse_version (s : string) : Res (list Z) :=
  map_res py_int (split_on "." s).

Definition assign_some {A} (o : option A)
    (set : option A -> Protocol -> Protocol) : M Protocol unit :=
  match o with
  | Some a => modify (set (Some a))
  | None => ret tt
  end.

(** [set_info]; further keyword arguments are ignored. *)
Definition set_info (name description created updated author version :
    option string) : M Protocol unit :=
  assign_some name set_name ;;;
  assign_some description set_description ;;;
  assign_some author set_author ;;;
  assign_some created set_created ;;;
  assign_some updated set_updated ;;;
  match version with
  | Some v =>
      t <- lift_res (parse_version v) ;;
      modify (set_version t) ;;;
      modify (fun p => set_version_hash (Some (hash p)) p)
  | None => ret tt
  end.

(** The [info] property. *)
Definition info (p : Protocol) : Info :=
  {| i_name := _name p;
     i_author := _author p;
     i_description := _description p;
     i_created := str_or (_created p) strftime_now;
     i_updated := str_or (_updated p) strftime_now;
     i_version := version p;
     i_version_hash := hash p |}.

(** [set_info] called with the keys of a dictionary [i] built by [info]
    (its [version_hash] key falls among the ignored keywords). *)
Definition set_info_from (i : Info) : M Protocol unit :=
  set_info (i_name i) (i_description i) (Some (i_created i))
    (Some (i_updated i)) (i_author i) (Some (i_version i)).

(** [bump_version(impact)] *)
Definition bump_version (impact : string) : M Protocol string :=
  fun p =>
    let vhash := hash p in
    if decide (Some vhash = _version_hash p) then (Ok (version p), p)
    else
      match _version p with
      | [major; feature; minor] =>
          let bumped :=
            if decide (impact = "minor") then Ok [major; feature; minor + 1]
            else if decide (impact = "feature") then Ok [major; feature + 1; 0]
            else if decide (impact = "major") then Ok [major + 1; 0; 0]
            else Raise (ValueError "Impact must be one of: minor, feature, major.")
          in
          match bumped with
          | Ok v =>
              let p' := set_version_hash (Some vhash) (set_version v p) in
              (Ok (version p'), p')
          | Raise e => (Raise e, p)
          end
      | _ => (Raise (ValueError "wrong number of values to unpack"), p)
      end.

(** A call into the context handler the protocol holds. *)
Definition in_context {A} (m : M ctx A) : M Protocol A :=
  zoom _context_handler set_context_handler m.

(** [add_container(slot, name, label=None)] *)
Definition add_container (slot : PosArg) (name : string)
    (label : option string) : M Protocol unit :=
  slot <- lift_res (normalize_position slot) ;;
  match label with
  | Some (String _ _ as label) =>
      let lowlabel := lower label in
      labels <- gets _container_labels ;;
      if dict_in lowlabel labels then raise ContainerConflict
      else
        modify (fun p =>
                  if dict_in lowlabel (_label_case p) then p
                  else set_label_case (dict_set lowlabel label (_label_case p)) p) ;;;
        modify (fun p =>
                  set_container_labels
                    (dict_set lowlabel slot (_container_labels p)) p)
  | _ => ret tt
  end ;;;
  in_context (ch_add_container slot name) ;;;
  modify (fun p => set_containers (dict_set slot name (_containers p)) p).

(** [add_instrument(axis, name)] *)
Definition add_instrument (axis name : string) : M Protocol unit :=
  modify (fun p => set_head (dict_set axis name (_head p)) p) ;;;
  in_context (ch_add_instrument axis name).

(** [_normalize_address(address)] *)
Definition _normalize_address (addr : string) : M Protocol address :=
  if negb (contains_char ":" addr) then
    raise (ValueError "Address must be in the form of 'container:well'.")
  else
    match split_on ":" addr with
    | [container; well] =>
        well <- lift_res (normalize_position (PosStr well)) ;;
        match normalize_position (PosStr container) with
        | Ok slot => ret (slot, well)
        | Raise (ValueError _) =>
            let container := lower container in
            labels <- gets _container_labels ;;
            match dict_get container labels with
            | Some slot => ret (slot, well)
            | None => raise ContainerMissing
            end
        | Raise e => raise e
        end
    | _ => raise (ValueError "too many values to unpack")
    end.

(** [calibrate(position, **kwargs)] *)
Definition calibrate (position : string) (kw : kwargs) : M Protocol unit :=
  pos <- (if contains_char ":" position
          then a <- _normalize_address position ;; ret (VAddr a)
          else q <- lift_res (normalize_position (PosStr position)) ;; ret (VPos q)) ;;
  in_context (ch_calibrate pos kw).

(** [calibrate_instrument(axis, top, blowout, droptip, bottom)] *)
Definition calibrate_instrument (axis : string)
    (top blowout droptip bottom : PyVal) : M Protocol unit :=
  in_context
    (ch_calibrate_instrument axis
       [("top", top); ("blowout", blowout); ("droptip", droptip)]).

(** [_run_in_context_handler(command, **kwargs)]: [getattr] raises when the
    context has no such method (a method object is always true, so the
    [if not method] branch is never taken). *)
Definition _run_in_context_handler (command : string) (kw : kwargs)
  : M Protocol unit :=
  match ch_method command with
  | Some method => in_context (method kw)
  | None => raise (AttributeError command)
  end.

(** [add_command(command, **kwargs)] *)
Definition add_command (command : string) (kw : kwargs) : M Protocol unit :=
  _run_in_context_handler command kw ;;;
  let d := dict_update [("command", VStr command)] kw in
  modify (fun p => set_commands (_commands p ++ [d]) p).

(** [get_tool] with keyword arguments [kw]. *)
Definition get_tool (kw : kwargs) : M Protocol string :=
  c <- gets _context_handler ;;
  match ch_get_instrument kw c with
  | Some tool => ret tool
  | None => raise InstrumentMissing
  end.

(** [transfer(start, end, ul, ml, blowout, touchtip, tool)] *)
Definition transfer (start end_ : string) (ul ml : option PyNum)
    (blowout touchtip : bool) (tool : option string) : M Protocol unit :=
  volume <- lift_res (_normalize_volume ul ml None false) ;;
  tool <- get_tool [("has_volume", of_opt VNum volume); ("name", of_opt VStr tool)] ;;
  s <- _normalize_address start ;;
  e <- _normalize_address end_ ;;
  add_command "transfer"
    [("volume", of_opt VNum volume); ("tool", VStr tool); ("start", VAddr s);
     ("end", VAddr e); ("blowout", VBool blowout); ("touchtip", VBool touchtip)].

(** [mix(start, ml, ul, repetitions, tool, blowout, touchtip)] *)
Definition mix (start : string) (ml ul : option PyNum) (repetitions : PyVal)
    (tool : option string) (blowout touchtip : bool) : M Protocol unit :=
  volume <- lift_res (_normalize_volume ul ml None false) ;;
  tool <- get_tool [("name", of_opt VStr tool); ("has_volume", of_opt VNum volume)] ;;
  s <- _normalize_address start ;;
  add_command "mix"
    [("tool", VStr tool); ("start", VAddr s); ("blowout", VBool blowout);
     ("touchtip", VBool touchtip); ("volume", of_opt VNum volume);
     ("reps", repetitions)].

(** The loops of [apply_protocol(b)], one by one.  Containers of the
    operand: a slot taken by another type is a conflict, a free slot gets
    the container. *)
Definition apply_containers (items : dict position string) : M Protocol unit :=
  for_each items (fun '(slot, name) =>
    cs <- gets _containers ;;
    match dict_get slot cs with
    | Some n => if decide (n = name) then ret tt else raise ContainerConflict
    | None => add_container (PosTuple slot) name None
    end).

(** Labels of the operand, checked against [labels], the receiver's labels
    by slot as they were before the loop. *)
Definition apply_labels (labels : dict position string)
    (items : dict string position) : M Protocol unit :=
  for_each items (fun '(label, slot) =>
    match dict_get slot labels with
    | Some l => if decide (l = label) then ret tt else raise ContainerConflict
    | None => ret tt
    end ;;;
    modify (fun p =>
              set_container_labels (dict_set label slot (_container_labels p)) p)).

(** Label capitalizations of the operand. *)
Definition apply_label_case (items : dict string string) : M Protocol unit :=
  for_each items (fun '(label, case) =>
    modify (fun p => set_label_case (dict_set label case (_label_case p)) p)).

(** Instruments of the operand: an axis taken by another type is a
    conflict. *)
Definition apply_instruments (items : dict string string) : M Protocol unit :=
  for_each items (fun '(axis, name) =>
    hd <- gets _head ;;
    match dict_get axis hd with
    | Some n => if decide (n = name) then ret tt else raise InstrumentConflict
    | None => ret tt
    end ;;;
    add_instrument axis name).

(** Commands of the operand, each run again through [add_command].
    ([self.commands.append(command)] appends to the copy the [commands]
    property returns and changes nothing.) *)
Definition apply_commands (items : list Command) : M Protocol unit :=
  for_each items (fun command =>
    match dict_get "command" command with
    | Some cv =>
        name <- lift_res (command_name cv) ;;
        add_command name (dict_del "command" command)
    | None => raise (KeyError "command")
    end).

(** [apply_protocol(b)]: the operand is read, the receiver is changed in
    place, step by step. *)
Definition apply_protocol (b : Protocol) : M Protocol unit :=
  set_info_from (info b) ;;;
  apply_containers (_containers b) ;;;
  labels <- gets (fun p => dict_invert (_container_labels p)) ;;
  apply_labels labels (_container_labels b) ;;;
  apply_label_case (_label_case b) ;;;
  apply_instruments (_head b) ;;;
  apply_commands (_commands b).

(** The right operand of [+]: a Protocol, or a value of another type.  (A
    PartialProtocol operand goes through [ExceptionProxy.reapply], which is
    not under src/ and is not modelled.) *)
Inductive Operand : Type :=
| OProtocol (b : Protocol)
| OOther.

(** [__add__]: the combined protocol is built in a new object. *)
Definition add (a : Protocol) (b : Operand) : Res Protocol :=
  match b with
  | OProtocol b =>
      match (apply_protocol a ;;; apply_protocol b) new_protocol with
      | (Ok _, c) => Ok c
      | (Raise e, _) => Raise e
      end
  | OOther => Raise (TypeError "Invalid operand types for Protocol.")
  end.



(** [validate(error_message)] *)
Definition validate (error_message : string) : M Protocol unit :=
  px <- gets _partial_proxy ;;
  match px with
  | Some px =>
      if negb (is_valid px) then
        raise (PartialProtocolException
                 (error_message +:+ " Problems: " +:+ join_with "; " (problems px)))
      else ret tt
  | None => ret tt
  end.

(** [initialize_context()]: a new context, given the containers and then the
    instruments in dictionary order. *)
Definition initialize_context : M Protocol ctx :=
  fun p =>
    match (for_each (_containers p) (fun '(slot, name) => ch_add_container slot name) ;;;
           for_each (_head p) (fun '(axis, name) => ch_add_instrument axis name))
            ch_new with
    | (Ok _, ch) => (Ok ch, p)
    | (Raise e, _) => (Raise e, p)
    end.

(** A call of a method of handler object [h], which sees the context. *)
Definition on_handler {A} (h : nat) (m : M (H * ctx) A) : M Protocol A :=
  fun p =>
    match handler_objs p !! h with
    | Some o =>
        let '(r, (o', c')) := m (o, _context_handler p) in
        (r, set_handler_objs (<[h := o']> (handler_objs p)) (set_context_handler c' p))
    | None => (Raise (NameError "unbound reference"), p)
    end.

(** [getattr(h, command)] called with the keywords [kw], on handler
    object [h]. *)
Definition call_handler (h : nat) (command : string) (kw : kwargs)
  : M Protocol unit :=
  o <- gets (fun p => handler_objs p !! h) ;;
  match o with
  | Some o =>
      match h_method o command with
      | Some method => on_handler h (method kw)
      | None => raise (AttributeError command)
      end
  | None => raise (NameError "unbound reference")
  end.

(** [_run(index)] *)
Definition _run (index : nat) : M Protocol unit :=
  cmds <- gets _commands ;;
  match cmds !! index with
  | Some kw =>
      match dict_get "command" kw with
      | Some cv =>
          let kw := dict_del "command" kw in
          command <- lift_res (command_name cv) ;;
          _run_in_context_handler command kw ;;;
          hs <- gets _handlers ;;
          for_each hs (fun h =>
            on_handler h h_before_each ;;;
            call_handler h command kw ;;;
            on_handler h h_after_each)
      | None => raise (KeyError "command")
      end
  | None => raise (IndexError "list index out of range")
  end.

(** [run()], up to its first [yield]: the context is rebuilt and every
    attached handler is pointed at it. *)
Definition run_start : M Protocol (nat * nat) :=
  validate "Can't run an incomplete PartialProtocol." ;;;
  ch <- initialize_context ;;
  modify (set_context_handler ch) ;;;
  n <- gets (fun p => length (_commands p)) ;;
  ret (0%nat, n).

(** [run()], from the [yield] it was suspended at with counter [i] to the
    next one; [None] when the loop is over. *)
Definition run_resume (i : nat) : M Protocol (option (nat * nat)) :=
  n <- gets (fun p => length (_commands p)) ;;
  if (i <? n)%nat then
    _run i ;;;
    n' <- gets (fun p => length (_commands p)) ;;
    ret (Some ((i + 1)%nat, n'))
  else ret None.

(** [next(g)] on the generator [g] of [run()]: the yielded pair, [None] for
    [StopIteration], or the exception that ended the generator. *)
Definition run_next (g : GenState) (p : Protocol)
  : Res (option (nat * nat)) * GenState * Protocol :=
  match g with
  | GenCreated =>
      match run_start p with
      | (Ok y, p') => (Ok (Some y), GenSuspended 0, p')
      | (Raise e, p') => (Raise e, GenDone, p')
      end
  | GenSuspended i =>
      match run_resume i p with
      | (Ok (Some y), p') => (Ok (Some y), GenSuspended (i + 1), p')
      | (Ok None, p') => (Ok None, GenDone, p')
      | (Raise e, p') => (Raise e, GenDone, p')
      end
  | GenDone => (Ok None, GenDone, p)
  end.

(** [for _ in g: pass], at most [fuel] resumptions: the pairs yielded, how
    the loop ended, and the protocol afterwards. *)
Fixpoint drain (fuel : nat) (g : GenState) (p : Protocol)
  : option (list (nat * nat) * Res unit * Protocol) :=
  match fuel with
  | O => None
  | S fuel' =>
      match run_next g p with
      | (Ok (Some y), g', p') =>
          match drain fuel' g' p' with
          | Some (ys, r, p'') => Some (y :: ys, r, p'')
          | None => None
          end
      | (Ok None, _, p') => Some ([], Ok tt, p')
      | (Raise e, _, p') => Some ([], Raise e, p')
      end
  end.

(** [run_all()].  One resumption per command and two more end the loop
    ([drain_terminates] below), so the last branch is never taken. *)
Definition run_all : M Protocol unit :=
  fun p =>
    match drain (length (_commands p) + 2) GenCreated p with
    | Some (_, r, p') => (r, p')
    | None => (Ok tt, p)
    end.

(** [attach_handler(handler)] *)
Definition attach_handler (handler : HandlerArg) : M Protocol nat :=
  h <- match handler with
       | AClass c =>
           fun p => (Ok (length (handler_objs p)),
                     set_handler_objs (handler_objs p ++ [h_new c]) p)
       | AInstance h => ret h
       end ;;
  on_handler h h_setup ;;;
  modify (fun p => set_handlers (_handlers p ++ [h]) p) ;;;
  ret h.

(** [attach_motor(port=None)] *)
Definition attach_motor (port : option PyVal) : M Protocol nat :=
  h <- attach_handler (AClass MotorControlHandler) ;;
  modify (set_motor_handler (Some h)) ;;;
  match port with
  | Some port => on_handler h (h_connect port)
  | None => on_handler h h_simulate
  end ;;;
  ret h.

(** [disconnect()] *)
Definition disconnect : M Protocol unit :=
  m <- gets _motor_handler ;;
  match m with
  | Some h => on_handler h h_disconnect
  | None => ret tt
  end.

(** A protocol together with the flag of the process-wide root logger
    ([logging.getLogger().disabled]). *)
Record World : Type := {
  w_protocol : Protocol;
  logger_disabled : bool
}.

Definition set_w_protocol (p : Protocol) (w : World) : World :=
  {| w_protocol := p; logger_disabled := logger_disabled w |}.
Definition set_logger_disabled (b : bool) (w : World) : World :=
  {| w_protocol := w_protocol w; logger_disabled := b |}.

Definition in_protocol {A} (m : M Protocol A) : M World A :=
  zoom w_protocol set_w_protocol m.

(** [try: body finally: fin] *)
Definition try_finally {S A} (body : M S A) (fin : M S unit) : M S A :=
  fun s =>
    let (r, s') := body s in
    match fin s' with
    | (Ok _, s'') => (r, s'')
    | (Raise e, s'') => (Raise e, s'')
    end.

(** [l.remove(x)]: the first occurrence goes; [ValueError] if there is none. *)
Fixpoint list_remove (x : nat) (l : list nat) : Res (list nat) :=
  match l with
  | [] => Raise (ValueError "list.remove(x): x not in list")
  | y :: l' =>
      if decide (x = y) then Ok l'
      else match list_remove x l' with
           | Ok r => Ok (y :: r)
           | Raise e => Raise e
           end
  end.

(** [_handler_runthrough(handler)] *)
Definition _handler_runthrough (handler : HandlerArg) : M World nat :=
  modify (set_logger_disabled true) ;;;
  old_handlers <- gets (fun w => _handlers (w_protocol w)) ;;
  in_protocol (modify (set_handlers [])) ;;;
  try_finally
    (h <- in_protocol (attach_handler handler) ;;
     in_protocol run_all ;;;
     ret h)
    (modify (set_logger_disabled false) ;;;
     in_protocol (modify (set_handlers old_handlers))).

(** [_virtual_run()].  Its last statement assigns to [logger.disabled], and
    no [logger] is bound in that method or in the module: a run that gets
    there ends in [NameError]. *)
Definition _virtual_run : M World unit :=
  old_motor <- gets (fun w => _motor_handler (w_protocol w)) ;;
  match old_motor with
  | Some m =>
      hs <- gets (fun w => _handlers (w_protocol w)) ;;
      hs' <- lift_res (list_remove m hs) ;;
      in_protocol (modify (set_handlers hs'))
  | None => ret tt
  end ;;;
  new_motor <- in_protocol (attach_motor None) ;;
  _handler_runthrough (AInstance new_motor) ;;;
  match old_motor with
  | Some m => in_protocol (modify (set_motor_handler (Some m)))
  | None => ret tt
  end ;;;
  raise (NameError "logger").

(** [export(Formatter, validate_run=False)]; the formatter is the
    collaborator [Formatter(self).export()]. *)
Definition export (formatter : Protocol -> Res string) (validate_run : bool)
  : M World string :=
  in_protocol (validate "Can't export invalid PartialProtocol.") ;;;
  in_protocol (bump_version "minor") ;;;
  when validate_run _virtual_run ;;;
  p <- gets w_protocol ;;
  lift_res (formatter p).

(** The [run_requirements] property. *)
Definition run_requirements : M World PyVal :=
  h <- _handler_runthrough (AClass RequirementsHandler) ;;
  o <- gets (fun w => handler_objs (w_protocol w) !! h) ;;
  match o with
  | Some o => ret (h_requirements o)
  | None => raise (NameError "unbound reference")
  end.

End ProtocolModel.

Arguments World : clear implicits.
Arguments Operand : clear implicits.

(** ** Equality of values is decidable *)

#[global] Instance float_eq_dec : EqDecision float.
Proof.
  intros x y. destruct (Leibniz.eqb x y) eqn:E.
  - left. by apply Leibniz.eqb_spec.
  - right. intros Hxy. apply Leibniz.eqb_spec in Hxy. congruence.
Defined.

#[global] Instance PyNum_eq_dec : EqDecision PyNum.
Proof. solve_decision. Defined.

Fixpoint PyVal_eq_dec (a b : PyVal) {struct a} : {a = b} + {a <> b}.
Proof.
  refine (match a, b with
          | VNone, VNone => left eq_refl
          | VBool x, VBool y => cast_if (decide (x = y))
          | VNum x, VNum y => cast_if (decide (x = y))
          | VStr x, VStr y => cast_if (decide (x = y))
          | VPos x, VPos y => cast_if (decide (x = y))
          | VAddr x, VAddr y => cast_if (decide (x = y))
          | VList x, VList y => cast_if (@list_eq_dec _ PyVal_eq_dec x y)
          | VDict x, VDict y =>
              cast_if (@list_eq_dec _ (fun p q : string * PyVal =>
                match p, q with
                | (k1, v1), (k2, v2) =>
                    match decide (k1 = k2), PyVal_eq_dec v1 v2 with
                    | left e1, left e2 => left _
                    | right n, _ => right _
                    | _, right n => right _
                    end
                end) x y)
          | _, _ => right _
          end); try congruence.
Defined.

#[global] Instance PyVal_eqdec : EqDecision PyVal := PyVal_eq_dec.

#[global] Instance Structure_eq_dec : EqDecision Structure.
Proof. solve_decision. Defined.

(** ** The exception classes as the module declares them *)

(** [labsuite/util/exceptions.py], class by class, each with the base its
    [class] statement names. *)
Module exceptions.

Inductive cls : Type :=
| ProtocolException
| PartialProtocolException
| DataMissing
| CalibrationMissing
| ProtocolConflict
| ContainerConflict
| InstrumentConflict
| ProtocolItemMissing
| InstrumentMissing
| ContainerMissing
| TipMissing
| CommandMissing
| SlotMissing
| LiquidException
| LiquidOverflow
| LiquidUnavailable
| LiquidMismatch.

#[global] Instance cls_eq_dec : EqDecision cls.
Proof. solve_decision. Defined.

(** The base in the parentheses of the [class] statement; [None] stands for
    the built-in [Exception]. *)
Definition base (c : cls) : option cls :=
  match c with
  | ProtocolException => None
  | PartialProtocolException => None
  | DataMissing => Some ProtocolException
  | CalibrationMissing => Some ProtocolException
  | ProtocolConflict => Some ProtocolException
  | ContainerConflict => Some ProtocolConflict
  | InstrumentConflict => Some ProtocolConflict
  | ProtocolItemMissing => Some ProtocolException
  | InstrumentMissing => Some ProtocolItemMissing
  | ContainerMissing => Some ProtocolItemMissing
  | TipMissing => Some ProtocolItemMissing
  | CommandMissing => Some ProtocolItemMissing
  | SlotMissing => Some ProtocolItemMissing
  | LiquidException => Some ProtocolException
  | LiquidOverflow => Some LiquidException
  | LiquidUnavailable => Some LiquidException
  | LiquidMismatch => Some LiquidException
  end.

(** The classes in the order the module defines them, and their names. *)
Definition classes : list cls :=
  [ProtocolException; PartialProtocolException; DataMissing;
   CalibrationMissing; ProtocolConflict; ContainerConflict;
   InstrumentConflict; ProtocolItemMissing; InstrumentMissing;
   ContainerMissing; TipMissing; CommandMissing; SlotMissing;
   LiquidException; LiquidOverflow; LiquidUnavailable; LiquidMismatch].

Definition name (c : cls) : string :=
  match c with
  | ProtocolException => "ProtocolException"
  | PartialProtocolException => "PartialProtocolException"
  | DataMissing => "DataMissing"
  | CalibrationMissing => "CalibrationMissing"
  | ProtocolConflict => "ProtocolConflict"
  | ContainerConflict => "ContainerConflict"
  | InstrumentConflict => "InstrumentConflict"
  | ProtocolItemMissing => "ProtocolItemMissing"
  | InstrumentMissing => "InstrumentMissing"
  | ContainerMissing => "ContainerMissing"
  | TipMissing => "TipMissing"
  | CommandMissing => "CommandMissing"
  | SlotMissing => "SlotMissing"
  | LiquidException => "LiquidException"
  | LiquidOverflow => "LiquidOverflow"
  | LiquidUnavailable => "LiquidUnavailable"
  | LiquidMismatch => "LiquidMismatch"
  end.

(** [getattr(x, n)] on the module: the class of that name, if it has one. *)
Definition lookup (n : string) : option cls :=
  List.find (fun c => bool_decide (name c = n)) classes.

(** [issubclass(c, d)]: [d] is [c] or is reached from it along the bases
    (no chain is longer than the number of classes). *)
Fixpoint issubclass_from (fuel : nat) (c d : cls) : bool :=
  bool_decide (c = d)
  || match fuel, base c with
     | S fuel', Some b => issubclass_from fuel' b d
     | _, _ => false
     end.

Definition issubclass (c d : cls) : bool :=
  issubclass_from (length classes) c d.

End exceptions.

(** The class of an exception of the model; [None] for the built-in ones. *)
Definition class_of (e : exn) : option exceptions.cls :=
  match e with
  | ValueError _ | TypeError _ | KeyError _ | IndexError _ | NameError _
  | AttributeError _ => None
  | PartialProtocolException _ => Some exceptions.PartialProtocolException
  | DataMissing => Some exceptions.DataMissing
  | CalibrationMissing => Some exceptions.CalibrationMissing
  | ContainerConflict => Some exceptions.ContainerConflict
  | InstrumentConflict => Some exceptions.InstrumentConflict
  | InstrumentMissing => Some exceptions.InstrumentMissing
  | ContainerMissing => Some exceptions.ContainerMissing
  | TipMissing => Some exceptions.TipMissing
  | CommandMissing => Some exceptions.CommandMissing
  | SlotMissing => Some exceptions.SlotMissing
  | LiquidOverflow => Some exceptions.LiquidOverflow
  | LiquidUnavailable => Some exceptions.LiquidUnavailable
  | LiquidMismatch => Some exceptions.LiquidMismatch
  end.

(** ** Partial protocols *)

Definition set_partial_proxy {ctx H hash_t} (v : option PartialProxy)
    (p : Protocol ctx H hash_t) : Protocol ctx H hash_t :=
  {| _ingredients := _ingredients p; _head := _head p; _calibration := _calibration p;
     _container_labels := _container_labels p; _label_case := _label_case p;
     _containers := _containers p; _commands := _commands p; _name := _name p;
     _description := _description p; _created := _created p; _updated := _updated p;
     _author := _author p; _version := _version p; _version_hash := _version_hash p;
     _handlers := _handlers p; _context_handler := _context_handler p;
     _motor_handler := _motor_handler p; _partial_proxy := v;
     handler_objs := handler_objs p |}.

(** ** Order of numbers, [min] and [max] *)

(** [z < f] and [f < z] for an int and a float: Python compares the exact
    values; every comparison with a NaN is false. *)
Definition int_float_ltb (z : Z) (f : float) : bool :=
  match Prim2SF f with
  | S754_zero _ => z <? 0
  | S754_infinity s => negb s
  | S754_nan => false
  | S754_finite s m e =>
      let sgn := if s then -1 else 1 in
      if 0 <=? e then z <? sgn * (Z.pos m * 2 ^ e)
      else z * 2 ^ (- e) <? sgn * Z.pos m
  end.

Definition float_int_ltb (f : float) (z : Z) : bool :=
  match Prim2SF f with
  | S754_zero _ => 0 <? z
  | S754_infinity s => s
  | S754_nan => false
  | S754_finite s m e =>
      let sgn := if s then -1 else 1 in
      if 0 <=? e then sgn * (Z.pos m * 2 ^ e) <? z
      else sgn * Z.pos m <? z * 2 ^ (- e)
  end.

(** [a < b] on numbers. *)
Definition num_ltb (a b : PyNum) : bool :=
  match a, b with
  | PyInt x, PyInt y => x <? y
  | PyFloat x, PyFloat y => PrimFloat.ltb x y
  | PyInt x, PyFloat y => int_float_ltb x y
  | PyFloat x, PyInt y => float_int_ltb x y
  end.

(** [a < b] on volumes as [_normalize_volume] returns them: [None] is not
    ordered with anything. *)
Definition py_lt (a b : option PyNum) : Res bool :=
  match a, b with
  | Some x, Some y => Ok (num_ltb x y)
  | _, _ => Raise (TypeError "'<' not supported between instances")
  end.

(** The scan of [min] and [max]: the item kept so far is replaced by a
    later one that is strictly better. *)
Fixpoint py_scan (better : option PyNum -> option PyNum -> Res bool)
    (cur : option PyNum) (l : list (option PyNum)) : Res (option PyNum) :=
  match l with
  | [] => Ok cur
  | item :: l' =>
      match better item cur with
      | Ok b => py_scan better (if b then item else cur) l'
      | Raise e => Raise e
      end
  end.

(** [min(l)] *)
Definition py_min (l : list (option PyNum)) : Res (option PyNum) :=
  match l with
  | [] => Raise (ValueError "min() arg is an empty sequence")
  | x :: l' => py_scan py_lt x l'
  end.

(** [max(l)] *)
Definition py_max (l : list (option PyNum)) : Res (option PyNum) :=
  match l with
  | [] => Raise (ValueError "max() arg is an empty sequence")
  | x :: l' => py_scan (fun item cur => py_lt cur item) x l'
  end.

(** ** Group commands *)

(** The keyword dictionary of a group command, or the options dictionary of
    one of its wells.  Its two volume entries are kept apart from the other
    keys: they hold a number or nothing (a [None] entry and a missing key are
    popped alike); [o_more] holds the other keys in the order given. *)
Record Options : Type := {
  o_ul : option PyNum;
  o_ml : option PyNum;
  o_more : kwargs
}.

(** One element of a well handed to a group command: an address string or
    an options dictionary.  A well is the list of its elements; a well that
    is not a tuple is the list of that one element. *)
Inductive WellArg : Type :=
| WStr (s : string)
| WOpts (o : Options).

(** An options dictionary as a value (volume entries first). *)
Definition options_val (o : Options) : PyVal :=
  VDict (match o_ul o with Some u => [("ul", VNum u)] | None => [] end
         ++ match o_ml o with Some m => [("ml", VNum m)] | None => [] end
         ++ o_more o).

Definition well_val (v : WellArg) : PyVal :=
  match v with
  | WStr s => VStr s
  | WOpts o => options_val o
  end.

(** [d.pop(k, default)]: the value read. *)
Definition dict_pop_value {V : Type} (k : string) (default : V)
    (d : dict string V) : V :=
  match dict_get k d with
  | Some v => v
  | None => default
  end.

(** [options.update(x)] followed by the two volume pops, for the element [x]
    left in a well after its addresses: a dictionary is merged in; a string
    is iterated character by character, and a character is no key-value
    pair. *)
Definition update_options (options : kwargs) (x : WellArg)
  : Res (kwargs * option PyNum * option PyNum) :=
  match x with
  | WOpts o => Ok (dict_update options (o_more o), o_ul o, o_ml o)
  | WStr EmptyString => Ok (options, None, None)
  | WStr (String _ _) =>
      Raise (ValueError
               "dictionary update sequence element #0 has length 1; 2 is required")
  end.

Section GroupCommands.
Context {ctx H hash_t : Type}.
Context `{!ContextHandler ctx} `{!ProtocolHandler H ctx}.

#[local] Abbreviation Protocol := (Protocol ctx H hash_t).

(** [_normalize_address(v)] on an element of a well.  On a dictionary
    [':' not in v] asks for a key, and [v.split] does not exist. *)
Definition _normalize_address_arg (v : WellArg) : M Protocol address :=
  match v with
  | WStr s => _normalize_address s
  | WOpts o =>
      if negb (dict_in ":" (o_more o)) then
        raise (ValueError "Address must be in the form of 'container:well'.")
      else raise (AttributeError "split")
  end.

(** The inner loop of [_make_transfer_group]: one element of the well for
    each argument name, into the transfer record [t]; what is left of the
    well comes back with it. *)
Fixpoint group_args (arg_names : list string) (item : list WellArg)
    (t : Command) : M Protocol (list WellArg * Command) :=
  match arg_names with
  | [] => ret (item, t)
  | arg_name :: arg_names' =>
      match item with
      | [] => raise (ValueError ("Missing argument: " +:+ arg_name))
      | v :: item' =>
          v' <- (if bool_decide (arg_name ∈ ["start"; "end"])
                 then a <- _normalize_address_arg v ;; ret (VAddr a)
                 else ret (well_val v)) ;;
          group_args arg_names' item' (dict_set arg_name v' t)
      end
  end.

(** The outer loop of [_make_transfer_group] over the wells.  [defaults] is
    the keyword dictionary of the call, which the loop itself pops
    [blowout] and [touchtip] from; [transfers] and [vols] are the two lists
    being built. *)
Fixpoint group_wells (wells : list (list WellArg)) (arg_names : list string)
    (volume : option PyNum) (defaults : kwargs)
    (transfers : list Command) (vols : list (option PyNum))
  : M Protocol (list Command * list (option PyNum)) :=
  match wells with
  | [] => ret (transfers, vols)
  | item :: wells' =>
      let blowout := dict_pop_value "blowout" (VBool true) defaults in
      let defaults := dict_del "blowout" defaults in
      let touchtip := dict_pop_value "touchtip" (VBool true) defaults in
      let defaults := dict_del "touchtip" defaults in
      let options :=
        dict_update [("blowout", blowout); ("touchtip", touchtip)] defaults in
      it <- group_args arg_names item [] ;;
      let '(item, t) := it in
      ou <- lift_res (match item with
                      | [x] => update_options options x
                      | _ => Ok (options, None, None)
                      end) ;;
      let '(options, ul, ml) := ou in
      vol <- lift_res (_normalize_volume ul ml volume false) ;;
      let t := dict_update (dict_set "volume" (of_opt VNum vol) t) options in
      group_wells wells' arg_names volume defaults
        (transfers ++ [t]) (vols ++ [vol])
  end.

(** [_make_transfer_group(wells, arg_names, defaults)] *)
Definition _make_transfer_group (wells : list (list WellArg))
    (arg_names : list string) (defaults : Options)
  : M Protocol (list Command * option PyNum * option PyNum) :=
  volume <- lift_res (_normalize_volume (o_ul defaults) (o_ml defaults) None true) ;;
  tv <- group_wells wells arg_names volume (o_more defaults) [] [] ;;
  let '(transfers, vols) := tv in
  min_vol <- lift_res (py_min vols) ;;
  max_vol <- lift_res (py_max vols) ;;
  ret (transfers, min_vol, max_vol).

(** The keywords [get_tool] gets from a group command; the pair of volumes
    is passed as the sequence of its two items. *)
Definition group_tool_kwargs (tool : option string)
    (min_vol max_vol : option PyNum) : kwargs :=
  [("name", of_opt VStr tool);
   ("has_volumes", VList [of_opt VNum min_vol; of_opt VNum max_vol])].

(** [transfer_group]: the wells, the tool name and the other keywords. *)
Definition transfer_group (wells : list (list WellArg)) (tool : option string)
    (defaults : Options) : M Protocol unit :=
  g <- _make_transfer_group wells ["start"; "end"] defaults ;;
  let '(transfers, min_vol, max_vol) := g in
  tool <- get_tool (group_tool_kwargs tool min_vol max_vol) ;;
  add_command "transfer_group"
    [("tool", VStr tool); ("transfers", VList (VDict <$> transfers))].

(** [distribute]: the start address, the wells, the tool name and the other
    keywords. *)
Definition distribute (start : string) (wells : list (list WellArg))
    (tool : option string) (defaults : Options) : M Protocol unit :=
  g <- _make_transfer_group wells ["end"] defaults ;;
  let '(transfers, min_vol, max_vol) := g in
  tool <- get_tool (group_tool_kwargs tool min_vol max_vol) ;;
  s <- _normalize_address start ;;
  add_command "distribute"
    [("tool", VStr tool); ("start", VAddr s);
     ("transfers", VList (VDict <$> transfers))].

(** [consolidate]: the end address, the wells, the tool name and the other
    keywords. *)
Definition consolidate (end_ : string) (wells : list (list WellArg))
    (tool : option string) (defaults : Options) : M Protocol unit :=
  g <- _make_transfer_group wells ["start"] defaults ;;
  let '(transfers, min_vol, max_vol) := g in
  tool <- get_tool (group_tool_kwargs tool min_vol max_vol) ;;
  e <- _normalize_address end_ ;;
  add_command "consolidate"
    [("tool", VStr tool); ("end", VAddr e);
     ("transfers", VList (VDict <$> transfers))].

(** ** Labels and readable addresses *)

(** The loop of [get_container_label]: the first label, in the order the
    labels were given, that stands for the position; its capitalization is
    read with [_label_case[label]], which raises [KeyError] if it has
    none. *)
Fixpoint first_label (label_case : dict string string)
    (items : dict string position) (pos : position) : Res (option string) :=
  match items with
  | [] => Ok None
  | (label, p) :: items' =>
      if decide (p = pos) then
        match dict_get label label_case with
        | Some case => Ok (Some case)
        | None => Raise (KeyError label)
        end
      else first_label label_case items' pos
  end.

(** [get_container_label(position)] *)
Definition get_container_label (pos : position) : M Protocol (option string) :=
  fun p => (first_label (_label_case p) (_container_labels p) pos, p).

(** [str(p)] of a pair of integers. *)
Definition str_position (p : position) : string :=
  "(" +:+ py_str p.1 +:+ ", " +:+ py_str p.2 +:+ ")".

(** [labsuite.labware.grid.humanize_position] is not under src/: it is
    taken as it comes. *)
Variable humanize_position : position -> Res string.

(** [humanize_address((start, end))].  A start that is a coordinate and has
    no label stays the pair it was normalized to, and is formatted as
    one. *)
Definition humanize_address (addr : PosArg * position) : M Protocol string :=
  let (start, end_) := addr in
  start <- match normalize_position start with
           | Ok pos =>
               label <- get_container_label pos ;;
               ret (match label with
                    | Some l => l
                    | None => str_position pos
                    end)
           | Raise (ValueError _) =>
               match start with
               | PosStr s =>
                   labels <- gets _container_labels ;;
                   if negb (dict_in (lower s) labels) then raise ContainerMissing
                   else
                     cases <- gets _label_case ;;
                     ret (match dict_get (lower s) cases with
                          | Some c => c
                          | None => s
                          end)
               | PosTuple _ => raise (AttributeError "lower")
               end
           | Raise e => raise e
           end ;;
  end_ <- lift_res (humanize_position end_) ;;
  ret (start +:+ ":" +:+ end_).


End GroupCommands.

(** ** A deck and a handler to run the model on *)

Module Example.

(** Modelled from the spec: [labsuite.protocol.handlers.ContextHandler] is
    not under src/.  A virtual deck that keeps what it is given:
    [add_container] fails with [ContainerConflict] if the slot is occupied by
    a different type and is idempotent if identical; an instrument is
    recorded on its axis (the repository's test [test_equal_hashing] puts
    another type on a used axis and goes on); calibrations are recorded;
    [get_instrument] finds an installed instrument by its name; the
    command-shaped methods check that the containers and the instrument
    they name exist. *)
Record Deck : Type := {
  d_containers : dict position string;
  d_instruments : dict string string;
  d_instrument_calibration : dict string kwargs;
  d_calibration : list (PyVal * kwargs)
}.

Definition deck_new : Deck :=
  {| d_containers := []; d_instruments := [];
     d_instrument_calibration := []; d_calibration := [] |}.

Definition deck_add_container (slot : position) (name : string) : M Deck unit :=
  fun d =>
    match dict_get slot (d_containers d) with
    | Some n =>
        if decide (n = name) then (Ok tt, d) else (Raise ContainerConflict, d)
    | None =>
        (Ok tt, {| d_containers := dict_set slot name (d_containers d);
                   d_instruments := d_instruments d;
                   d_instrument_calibration := d_instrument_calibration d;
                   d_calibration := d_calibration d |})
    end.

Definition deck_add_instrument (axis name : string) : M Deck unit :=
  modify (fun d =>
            {| d_containers := d_containers d;
               d_instruments := dict_set axis name (d_instruments d);
               d_instrument_calibration := d_instrument_calibration d;
               d_calibration := d_calibration d |}).

Definition deck_calibrate (pos : PyVal) (kw : kwargs) : M Deck unit :=
  modify (fun d =>
            {| d_containers := d_containers d;
               d_instruments := d_instruments d;
               d_instrument_calibration := d_instrument_calibration d;
               d_calibration := d_calibration d ++ [(pos, kw)] |}).

Definition deck_calibrate_instrument (axis : string) (kw : kwargs) : M Deck unit :=
  modify (fun d =>
            {| d_containers := d_containers d;
               d_instruments := d_instruments d;
               d_instrument_calibration :=
                 dict_set axis kw (d_instrument_calibration d);
               d_calibration := d_calibration d |}).

Definition installed (name : string) (d : Deck) : bool :=
  existsb (fun kv => bool_decide (kv.2 = name)) (d_instruments d).

Definition deck_get_instrument (kw : kwargs) (d : Deck) : option string :=
  match dict_get "name" kw with
  | Some (VStr name) => if installed name d then Some name else None
  | _ => None
  end.

(** The container of an address argument must be on the deck. *)
Definition check_address (key : string) (kw : kwargs) : M Deck unit :=
  fun d =>
    match dict_get key kw with
    | Some (VAddr (slot, _)) =>
        if dict_in slot (d_containers d) then (Ok tt, d)
        else (Raise ContainerMissing, d)
    | _ => (Raise ContainerMissing, d)
    end.

Definition check_tool (kw : kwargs) : M Deck unit :=
  fun d =>
    match dict_get "tool" kw with
    | Some (VStr name) =>
        if installed name d then (Ok tt, d) else (Raise InstrumentMissing, d)
    | _ => (Raise InstrumentMissing, d)
    end.

Definition deck_method (name : string) : option (kwargs -> M Deck unit) :=
  if decide (name = "transfer") then
    Some (fun kw => check_tool kw ;;; check_address "start" kw ;;; check_address "end" kw)
  else if decide (name = "mix") then
    Some (fun kw => check_tool kw ;;; check_address "start" kw)
  else if decide (name = "distribute") then
    Some (fun kw => check_tool kw ;;; check_address "start" kw)
  else if decide (name = "consolidate") then
    Some (fun kw => check_tool kw ;;; check_address "end" kw)
  else if decide (name = "transfer_group") then
    Some (fun kw => check_tool kw)
  else None.

#[export] Instance deck_handler : ContextHandler Deck := {
  ch_new := deck_new;
  ch_add_container := deck_add_container;
  ch_add_instrument := deck_add_instrument;
  ch_calibrate := deck_calibrate;
  ch_calibrate_instrument := deck_calibrate_instrument;
  ch_get_instrument := deck_get_instrument;
  ch_method := deck_method
}.

(** A handler that records the calls it receives.  A motor handler needs a
    trash container on the deck to carry out a command, and raises
    [ContainerMissing] without one. *)
Record Recorder : Type := {
  r_class : HandlerClass;
  r_calls : list string
}.

Definition record (call : string) : M (Recorder * Deck) unit :=
  modify (fun hd => ({| r_class := r_class hd.1;
                        r_calls := r_calls hd.1 ++ [call] |}, hd.2)).

Definition has_trash (d : Deck) : bool :=
  existsb (fun kv => bool_decide (kv.2 = "point.trash")) (d_containers d).

Definition recorder_method (h : Recorder) (name : string)
  : option (kwargs -> M (Recorder * Deck) unit) :=
  if bool_decide (name ∈ ["transfer"; "transfer_group"; "distribute";
                          "consolidate"; "mix"]) then
    Some (fun _ =>
            match r_class h with
            | MotorControlHandler =>
                fun hd => if has_trash hd.2 then record name hd
                          else (Raise ContainerMissing, hd)
            | _ => record name
            end)
  else None.

#[export] Instance recorder_handler : ProtocolHandler Recorder Deck := {
  h_new := fun c => {| r_class := c; r_calls := [] |};
  h_setup := record "setup";
  h_before_each := record "before_each";
  h_after_each := record "after_each";
  h_method := recorder_method;
  h_connect := fun _ => record "connect";
  h_simulate := record "simulate";
  h_disconnect := record "disconnect";
  h_requirements := fun h => VList (VStr <$> r_calls h)
}.

(** Modelled from the spec: structural hash equality is structural equality,
    so the structure itself stands for its hash. *)
Definition structural_hash (s : Structure) : Structure := s.

Definition clock : string := "Thu Aug 11 20:19:55 2016".

#[local] Abbreviation Protocol := (Protocol Deck Recorder Structure).

(** Running a sequence of calls on a protocol, for the state it leaves. *)
Definition exec {A} (m : M Protocol A) (p : Protocol) : Protocol := (m p).2.

(** The document of the repository's formatter test, before its commands. *)
Definition declared : Protocol :=
  exec (add_instrument "A" "p10" ;;;
        add_instrument "B" "p200" ;;;
        add_container (PosStr "A1") "microplate.96" (Some "Ingredients") ;;;
        add_container (PosStr "B1") "microplate.96" (Some "Output"))
       new_protocol.

(** The declared document with its first transfer. *)
Definition transferred : Protocol :=
  exec (transfer "A1:A1" "B1:B1" (Some (PyInt 10)) None true true (Some "p10"))
       declared.

(** A protocol that puts a tip rack where [declared] has a microplate, after
    a tip rack in a slot that is free there. *)
Definition other_type : Protocol :=
  exec (add_container (PosStr "C1") "tiprack.p200" None ;;;
        add_container (PosStr "A1") "tiprack.p200" None)
       new_protocol.

(** A protocol that declares the microplate of slot A1 again, and a trash. *)
Definition same_type : Protocol :=
  exec (add_container (PosStr "A1") "microplate.96" None ;;;
        add_container (PosStr "C1") "point.trash" None)
       new_protocol.

(** Two protocols with nothing in common, each with one transfer, and a
    third with declarations only. *)
Definition left_hand : Protocol :=
  exec (add_instrument "A" "p10" ;;;
        add_container (PosStr "A1") "microplate.96" (Some "Ingredients") ;;;
        transfer "A1:A1" "Ingredients:A2" (Some (PyInt 10)) None true true
          (Some "p10"))
       new_protocol.

Definition right_hand : Protocol :=
  exec (add_instrument "B" "p200" ;;;
        add_container (PosStr "B1") "microplate.96" (Some "Output") ;;;
        transfer "B1:A1" "Output:A2" (Some (PyInt 50)) None true true
          (Some "p200"))
       new_protocol.

Definition right_hand_declarations : Protocol :=
  exec (add_instrument "B" "p200" ;;;
        add_container (PosStr "B1") "microplate.96" (Some "Output"))
       new_protocol.

(** The merge of two protocols, or an empty protocol if it raised. *)
Definition merged (a b : Protocol) : Protocol :=
  match add structural_hash clock a (OProtocol b) with
  | Ok c => c
  | Raise _ => new_protocol
  end.

(** The transferred document with a motor attached, and with a trash
    container besides. *)
Definition with_motor : Protocol := exec (attach_motor None) transferred.

Definition with_motor_and_trash : Protocol :=
  exec (add_container (PosStr "C1") "point.trash" None ;;; attach_motor None)
       transferred.

(** A protocol that declares the microplate of slot A1 and nothing else. *)
Definition plate_again : Protocol :=
  exec (add_container (PosStr "A1") "microplate.96" None) new_protocol.

End Example.

(** ** The document of the formatter test *)

Module Fixture.
Import Example.
#[local] Abbreviation Protocol := (Protocol Deck Recorder Structure).

Definition no_options : Options := {| o_ul := None; o_ml := None; o_more := [] |}.
Definition ul_ (n : Z) : Options := {| o_ul := Some (PyInt n); o_ml := None; o_more := [] |}.

Definition grouped : Protocol :=
  exec (transfer_group
          [[WStr "A1:A3"; WStr "B1:B3"; WOpts (ul_ 3)];
           [WStr "INGREDIENTS:A4"; WStr "B1:B4"];
           [WStr "A1:A5"; WStr "B1:C1"]]
          (Some "p10") (ul_ 10) ;;;
        consolidate "Output:B3"
          [[WStr "A1:A3"; WOpts (ul_ 3)]; [WStr "INGREDIENTS:A4"]; [WStr "A1:A5"]]
          (Some "p10") (ul_ 10) ;;;
        distribute "Ingredients:A1"
          [[WStr "Output:A1"; WOpts (ul_ 3)]; [WStr "Output:A2"]; [WStr "Output:A3"]]
          (Some "p10") (ul_ 10))
       transferred.

(** A partial protocol with one queued problem. *)
Definition unfinished : Protocol :=
  set_partial_proxy
    (Some {| is_valid := false; problems := ["Container not found: C1:A1"] |})
    transferred.

(** A formatter that writes the name of the version. *)
Definition version_line (p : Protocol) : Res string :=
  Ok ("version " +:+ version p).

(** The keyword arguments of the first transfer of the fixture. *)
Definition transfer_kwargs : kwargs :=
  [("volume", VNum (PyInt 10)); ("tool", VStr "p10");
   ("start", VAddr ((0, 0), (0, 0))); ("end", VAddr ((1, 0), (1, 0)));
   ("blowout", VBool true); ("touchtip", VBool true)].

(** The declared document with a labelled tip rack in a further slot. *)
Definition with_tips : Protocol :=
  exec (add_container (PosStr "C1") "tiprack.p200" (Some "Tips")) declared.

(** A group call that asks for no blowout, on two wells. *)
Definition no_blowout : Options :=
  {| o_ul := Some (PyInt 10); o_ml := None;
     o_more := [("blowout", VBool false)] |}.

Definition two_wells : list (list WellArg) :=
  [[WStr "A1:A1"; WStr "B1:B1"]; [WStr "A1:A1"; WStr "B1:B2"]].

(** The wells of the group transfer of the formatter test: the first has a
    volume of its own. *)
Definition three_wells : list (list WellArg) :=
  [[WStr "A1:A3"; WStr "B1:B3"; WOpts (ul_ 3)];
   [WStr "INGREDIENTS:A4"; WStr "B1:B4"];
   [WStr "A1:A5"; WStr "B1:C1"]].

(** What [_make_transfer_group] returns for wells and keywords on the
    declared document (nothing, if it raises). *)
Definition group_of (wells : list (list WellArg)) (defaults : Options)
  : list Command * option PyNum * option PyNum :=
  match _make_transfer_group wells ["start"; "end"] defaults declared with
  | (Ok g, _) => g
  | (Raise _, _) => ([], None, None)
  end.

(** Two protocols with different pipettes on the same axis. *)
Definition p10_on_a : Protocol := exec (add_instrument "A" "p10") new_protocol.
Definition p200_on_a : Protocol := exec (add_instrument "A" "p200") new_protocol.

(** Two protocols that use the same label for different slots. *)
Definition plate_in_a1 : Protocol :=
  exec (add_container (PosStr "A1") "microplate.96" (Some "Plate")) new_protocol.
Definition plate_in_b1 : Protocol :=
  exec (add_container (PosStr "B1") "microplate.96" (Some "plate")) new_protocol.

(** Modelled from the spec: [labsuite.labware.grid.humanize_position] is not
    under src/.  Humanization is the inverse of normalization for
    coordinates: the column letter followed by the row number plus one (the
    repository's grid tests expect [A2] for the pair (0, 1)). *)
Definition humanize_position (pos : position) : Res string :=
  if (0 <=? pos.1) && (pos.1 <? 26) then
    Ok (String (ascii_of_nat (65 + Z.to_nat pos.1)) (py_str (pos.2 + 1)))
  else Raise (ValueError "invalid coordinate").

End Fixture.

(** ** Notions the statements below use *)




(** A volume argument the code takes as given: present and not zero. *)
Definition given (o : option PyNum) : bool :=
  match o with
  | Some n => num_truthy n
  | None => false
  end.


(** No key is in both dictionaries. *)
Definition dict_disjoint {K V : Type} `{EqDecision K} (d e : dict K V) : Prop :=
  forall k, dict_get k d = None \/ dict_get k e = None.

(** The record [add_command] stores for a command of the log that is run
    again. *)
Definition rebuilt (c : Command) : Command :=
  match dict_get "command" c with
  | Some (VStr name) => dict_update [("command", VStr name)] (dict_del "command" c)
  | _ => c
  end.

(** The operational data of a protocol other than the field one loop of
    [apply_protocol] works on, and all of it. *)
Definition but_containers {ctx H hash_t} (p : Protocol ctx H hash_t) :=
  (_ingredients p, _head p, _container_labels p, _label_case p, _commands p).
Definition but_labels {ctx H hash_t} (p : Protocol ctx H hash_t) :=
  (_ingredients p, _head p, _label_case p, _containers p, _commands p).
Definition but_label_case {ctx H hash_t} (p : Protocol ctx H hash_t) :=
  (_ingredients p, _head p, _container_labels p, _containers p, _commands p).
Definition but_head {ctx H hash_t} (p : Protocol ctx H hash_t) :=
  (_ingredients p, _container_labels p, _label_case p, _containers p, _commands p).
Definition but_commands {ctx H hash_t} (p : Protocol ctx H hash_t) :=
  (_ingredients p, _head p, _container_labels p, _label_case p, _containers p).
Definition operational {ctx H hash_t} (p : Protocol ctx H hash_t) :=
  (_ingredients p, _head p, _container_labels p, _label_case p, _containers p,
   _commands p, _context_handler p).

(** The context's [add_container] raises nothing but [ContainerConflict]. *)
Definition only_container_conflict (ctx : Type) `{!ContextHandler ctx} : Prop :=
  forall slot name (c : ctx) e c',
    ch_add_container slot name c = (Raise e, c') -> e = ContainerConflict.

(** A protocol without its declaration of one slot. *)
Definition without_container {ctx H hash_t} (slot : position)
    (b : Protocol ctx H hash_t) : Protocol ctx H hash_t :=
  set_containers (dict_del slot (_containers b)) b.

(** Everything in a protocol but its context handler and the states of its
    handler objects. *)
Definition static {ctx H hash_t} (p : Protocol ctx H hash_t) :=
  (_ingredients p, _head p, _calibration p, _container_labels p, _label_case p,
   _containers p, _commands p, _name p, _description p, _created p, _updated p,
   _author p, _version p, _version_hash p, _handlers p, _motor_handler p,
   _partial_proxy p, length (handler_objs p)).

(** The commands [i], [i+1], ..., one after the other, up to the first that
    raises. *)
Definition run_in_order {ctx H hash_t} `{!ContextHandler ctx}
    `{!ProtocolHandler H ctx} (i k : nat) : M (Protocol ctx H hash_t) unit :=
  for_each (seq i k) _run.

(** A boolean test of [dict_disjoint]. *)
Definition dict_disjointb {K V : Type} `{EqDecision K} (d e : dict K V) : bool :=
  forallb (fun kv => negb (dict_in kv.1 e)) d.

(** A boolean test of [dict_wf]. *)
Definition dict_wfb {K V : Type} `{EqDecision K} (d : dict K V) : bool :=
  bool_decide (NoDup (d.*1)).

(** The document: every field of a protocol but its context handler and
    the handler objects it has created. *)
Definition document {ctx H hash_t} (p : Protocol ctx H hash_t) :=
  (_ingredients p, _head p, _calibration p, _container_labels p, _label_case p,
   _containers p, _commands p, _name p, _description p, _created p, _updated p,
   _author p, _version p, _version_hash p, _handlers p, _motor_handler p,
   _partial_proxy p).

(** The outcome of a command method on [p]: one record for the command
    [name] is appended to the log, or the call raises; either way nothing
    else of the protocol changes but its context. *)
Definition appends_or_raises {ctx H hash_t} (name : string)
    (r : Res unit * Protocol ctx H hash_t) (p : Protocol ctx H hash_t) : Prop :=
  (exists c record,
      r = (Ok tt, set_commands (_commands p ++ [record]) (set_context_handler c p))
      /\ dict_get "command" record = Some (VStr name))
  \/ (exists e c, r = (Raise e, set_context_handler c p)).

(** What [_run] does with a command after the context has run it: every
    attached handler, in order, between its two hooks. *)
Definition run_on_handlers {ctx H hash_t} `{!ContextHandler ctx}
    `{!ProtocolHandler H ctx} (command : string) (kw : kwargs)
  : M (Protocol ctx H hash_t) unit :=
  hs <- gets _handlers ;;
  for_each hs (fun h =>
    on_handler h h_before_each ;;;
    call_handler h command kw ;;;
    on_handler h h_after_each).

(** How often a character occurs in a string. *)
Fixpoint count_char (c : ascii) (s : string) : nat :=
  match s with
  | EmptyString => 0
  | String c' s' => (if Ascii.eqb c' c then 1 else 0) + count_char c s'
  end.

(** Every label has a capitalization on record, and the other way round. *)
Definition labels_consistent {ctx H hash_t} (p : Protocol ctx H hash_t) : Prop :=
  forall l, dict_in l (_container_labels p) = dict_in l (_label_case p).

(** The metadata of a protocol. *)
Definition metadata {ctx H hash_t} (p : Protocol ctx H hash_t) :=
  (_name p, _description p, _created p, _updated p, _author p, _version p,
   _version_hash p).

(** What a protocol has besides its document: calibration, attached
    handlers, handler objects, motor handler and partial proxy. *)
Definition attachments {ctx H hash_t} (p : Protocol ctx H hash_t) :=
  (_calibration p, _handlers p, _motor_handler p, _partial_proxy p,
   handler_objs p).





(** * Properties *)

(** ** Dictionaries *)

Section DictFacts.
Context {K V : Type} `{Countable K}.
Implicit Types (d : dict K V) (k : K) (v : V).

Lemma content_lookup d k : content d !! k = dict_get k d.
Proof.
  unfold content. induction d as [|[k' v'] d IH]; simpl.
  - apply lookup_empty.
  - destruct (decide (k = k')) as [->|Hne].
    + apply lookup_insert_eq.
    + rewrite lookup_insert_ne by congruence. exact IH.
Qed.

Lemma dict_get_set_eq d k v : dict_get k (dict_set k v d) = Some v.
Proof.
  induction d as [|[k' v'] d IH]; simpl.
  - by rewrite decide_True.
  - destruct (decide (k = k')) as [->|Hne]; simpl.
    + by rewrite decide_True.
    + by rewrite decide_False.
Qed.

Lemma dict_get_set_ne d k k' v :
  k <> k' -> dict_get k' (dict_set k v d) = dict_get k' d.
Proof.
  intros Hne. induction d as [|[k0 v0] d IH]; simpl.
  - by rewrite decide_False by congruence.
  - destruct (decide (k = k0)) as [->|Hne0]; simpl.
    + by rewrite !decide_False by congruence.
    + destruct (decide (k' = k0)); [done | exact IH].
Qed.

Lemma content_set d k v : content (dict_set k v d) = <[k := v]> (content d).
Proof.
  apply map_eq. intros k'. rewrite content_lookup.
  destruct (decide (k = k')) as [->|Hne].
  - by rewrite dict_get_set_eq, lookup_insert_eq.
  - by rewrite dict_get_set_ne, lookup_insert_ne, content_lookup.
Qed.

Lemma dict_get_del_eq d k : dict_get k (dict_del k d) = None.
Proof.
  induction d as [|[k' v'] d IH]; simpl; [done|].
  destruct (decide (k = k')) as [->|Hne]; simpl; [done|].
  by rewrite decide_False.
Qed.

Lemma dict_get_del_ne d k k' :
  k <> k' -> dict_get k' (dict_del k d) = dict_get k' d.
Proof.
  intros Hne. induction d as [|[k0 v0] d IH]; simpl; [done|].
  destruct (decide (k = k0)) as [->|Hne0]; simpl.
  - by rewrite decide_False by congruence.
  - destruct (decide (k' = k0)); [done | exact IH].
Qed.

Lemma dict_in_true d k : dict_in k d = true <-> is_Some (dict_get k d).
Proof.
  unfold dict_in. destruct (dict_get k d); split; intros Hx;
    try done; try (by eexists); by destruct Hx.
Qed.

Lemma dict_in_false d k : dict_in k d = false <-> dict_get k d = None.
Proof. unfold dict_in. by destruct (dict_get k d). Qed.

Lemma dict_get_app d (e : dict K V) k :
  dict_get k (d ++ e)%list =
    match dict_get k d with Some v => Some v | None => dict_get k e end.
Proof.
  induction d as [|[k' v'] d IH]; simpl; [done|].
  by destruct (decide (k = k')).
Qed.

Lemma dict_update_lookup d e k :
  dict_get k (dict_update d e) =
    match dict_get k (reverse e) with
    | Some v => Some v
    | None => dict_get k d
    end.
Proof.
  unfold dict_update. revert d.
  induction e as [|[k' v'] e IH]; intros d; simpl; [done|].
  rewrite IH, reverse_cons, dict_get_app. simpl.
  destruct (dict_get k (reverse e)); [done|].
  destruct (decide (k = k')) as [->|Hne].
  - apply dict_get_set_eq.
  - by apply dict_get_set_ne.
Qed.
End DictFacts.

Lemma dict_get_reverse {K V : Type} `{Countable K} (d : dict K V) (k : K) :
  dict_wf d -> dict_get k (reverse d) = dict_get k d.
Proof.
  intros Hwf. rewrite <- !content_lookup. unfold content.
  f_equal. symmetry. apply list_to_map_proper; [exact Hwf|].
  symmetry. apply reverse_Permutation.
Qed.

Lemma dict_del_keys {K V : Type} `{EqDecision K} (d : dict K V) (k k' : K) :
  k' ∈ (dict_del k d).*1 -> k' ∈ d.*1 /\ k' <> k.
Proof.
  induction d as [|[k0 v0] d IH]; simpl; [by intros Hin%elem_of_nil|].
  destruct (decide (k = k0)) as [->|Hne]; simpl.
  - intros Hin. destruct (IH Hin). split; [by apply elem_of_cons; right | done].
  - intros [->|Hin]%elem_of_cons.
    + split; [by apply elem_of_cons; left | congruence].
    + destruct (IH Hin). split; [by apply elem_of_cons; right | done].
Qed.

Lemma dict_del_wf {K V : Type} `{EqDecision K} (d : dict K V) (k : K) :
  dict_wf d -> dict_wf (dict_del k d).
Proof.
  unfold dict_wf. induction d as [|[k0 v0] d IH]; simpl; [done|].
  intros [Hnin Hnd]%NoDup_cons. destruct (decide (k = k0)); [by apply IH|].
  simpl. apply NoDup_cons. split; [|by apply IH].
  intros Hin%dict_del_keys. by destruct Hin.
Qed.

(** A command record rebuilt from its name and its other keys has the
    content it had. *)
Lemma content_rebuilt_command (c : Command) (name : string) :
  dict_wf c ->
  dict_get "command" c = Some (VStr name) ->
  content (dict_update [("command", VStr name)] (dict_del "command" c)) =
  content c.
Proof.
  intros Hwf Hc. apply map_eq. intros k.
  rewrite !content_lookup, dict_update_lookup.
  rewrite dict_get_reverse by by apply dict_del_wf.
  destruct (decide ("command" = k)) as [<-|Hne].
  - rewrite dict_get_del_eq. simpl. by rewrite Hc.
  - rewrite dict_get_del_ne by done.
    destruct (dict_get k c); [done|]. simpl. by rewrite decide_False.
Qed.

(** ** Versioning and the structural hash *)

Section Versioning.
Context {ctx H hash_t : Type} `{EqDecision hash_t}.
Context `{!ContextHandler ctx} `{!ProtocolHandler H ctx}.
Variable hash_data : Structure -> hash_t.
#[local] Abbreviation Protocol := (Protocol ctx H hash_t).
Implicit Types (p q : Protocol).

Lemma assign_some_structure {A} (o : option A) set p :
  (forall v q, structure (set v q) = structure q) ->
  (forall v q, _version (set v q) = _version q) ->
  (forall v q, _version_hash (set v q) = _version_hash q) ->
  exists p', assign_some o set p = (Ok tt, p') /\ structure p' = structure p
             /\ _version p' = _version p /\ _version_hash p' = _version_hash p.
Proof.
  intros Hs Hv Hh. destruct o as [a|]; simpl.
  - exists (set (Some a) p). by rewrite Hs, Hv, Hh.
  - by exists p.
Qed.

(** Setting metadata without a version leaves the structure, the version and
    the version hash as they were. *)
Lemma set_info_metadata p name description created updated author :
  exists p',
    set_info hash_data name description created updated author None p = (Ok tt, p')
    /\ structure p' = structure p
    /\ _version p' = _version p /\ _version_hash p' = _version_hash p.
Proof.
  unfold set_info, bind.
  destruct (assign_some_structure name set_name p) as (p1 & -> & S1 & V1 & H1);
    [done..|].
  destruct (assign_some_structure description set_description p1)
    as (p2 & -> & S2 & V2 & H2); [done..|].
  destruct (assign_some_structure author set_author p2)
    as (p3 & -> & S3 & V3 & H3); [done..|].
  destruct (assign_some_structure created set_created p3)
    as (p4 & -> & S4 & V4 & H4); [done..|].
  destruct (assign_some_structure updated set_updated p4)
    as (p5 & -> & S5 & V5 & H5); [done..|].
  exists p5. repeat split; congruence.
Qed.

(** When the hash is the one saved at the last bump, [bump_version] does
    nothing, whatever the impact asked for. *)
Lemma bump_version_unchanged p impact :
  _version_hash p = Some (hash hash_data p) ->
  bump_version hash_data impact p = (Ok (version p), p).
Proof. intros Hh. unfold bump_version. by rewrite decide_True. Qed.

(** C4: [bump_version] twice in a row gives the same version both times.  A
    first call with one of the three impacts on a three-part version
    returns; whenever the first call returns a version, it has saved the
    current hash, and a second call (with any impact) returns that same
    version and changes nothing.  What the first call does: when the hash
    is the one saved at the last bump it changes nothing and returns the
    version as it is; when the hash has changed it adds one to the last
    number for a minor bump, adds one to the middle number and resets the
    last for a feature bump, adds one to the first and resets the others
    for a major bump, saves the hash, and returns the new version, which
    the second call then returns again. *)
Theorem bump_version_idempotent p impact impact' :
  (length (_version p) = 3%nat ->
   impact ∈ ["minor"; "feature"; "major"] ->
   exists v, (bump_version hash_data impact p).1 = Ok v)
  /\ (forall v p',
        bump_version hash_data impact p = (Ok v, p') ->
        _version_hash p' = Some (hash hash_data p')
        /\ v = version p'
        /\ bump_version hash_data impact' p' = (Ok v, p'))
  /\ (_version_hash p = Some (hash hash_data p) ->
      bump_version hash_data impact p = (Ok (version p), p))
  /\ (forall major feature minor v,
        _version_hash p <> Some (hash hash_data p) ->
        _version p = [major; feature; minor] ->
        (impact = "minor" /\ v = [major; feature; minor + 1]
         \/ impact = "feature" /\ v = [major; feature + 1; 0]
         \/ impact = "major" /\ v = [major + 1; 0; 0]) ->
        let p' := set_version_hash (Some (hash hash_data p)) (set_version v p) in
        bump_version hash_data impact p = (Ok (version p'), p')
        /\ _version p' = v
        /\ v <> _version p
        /\ version p' = join_with "." (py_str <$> v)
        /\ hash hash_data p' = hash hash_data p
        /\ bump_version hash_data impact' p' = (Ok (version p'), p')).
Proof.
  split; [|split; [|split]].
  - intros Hlen Himp. unfold bump_version.
    destruct (decide _); [by eexists|].
    destruct (_version p) as [|a [|b [|c [|]]]]; try done.
    repeat (apply elem_of_cons in Himp as [->|Himp]); simpl; try by eexists.
    by apply elem_of_nil in Himp.
  - intros v p'. unfold bump_version.
    destruct (decide (Some (hash hash_data p) = _version_hash p)) as [Heq|Hne].
    + intros [= <- <-]. rewrite decide_True by done. done.
    + destruct (_version p) as [|a [|b [|c [|]]]]; try done.
      destruct (decide (impact = "minor")); [|destruct (decide (impact = "feature"));
        [|destruct (decide (impact = "major")); [|done]]];
        intros [= <- <-]; simpl; (split; [done|split; [done|]]);
        by rewrite decide_True.
  - intros Hsame. by apply bump_version_unchanged.
  - intros major feature minor v Hstale Hv Himpact. cbv zeta.
    assert (bump_version hash_data impact p
            = (Ok (version (set_version_hash (Some (hash hash_data p))
                              (set_version v p))),
               set_version_hash (Some (hash hash_data p)) (set_version v p)))
      as Hbump.
    { unfold bump_version.
      destruct (decide (Some (hash hash_data p) = _version_hash p)) as [Heq|_];
        [congruence|].
      rewrite Hv.
      destruct Himpact as [[-> ->]|[[-> ->]|[-> ->]]]; reflexivity. }
    split; [exact Hbump|]. split; [reflexivity|].
    split.
    { rewrite Hv.
      destruct Himpact as [[_ ->]|[[_ ->]|[_ ->]]]; intros [= ]; lia. }
    split; [reflexivity|]. split; [reflexivity|].
    apply bump_version_unchanged. reflexivity.
Qed.

(** C10: [set_info] without a version returns, and leaves the structural
    hash, the version and the saved version hash unchanged; documents with
    the same structural content are equal under [==] whatever their
    metadata; and a [bump_version] that would have been a no-op before the
    metadata change is one after it. *)
Theorem set_info_preserves_hash p name description created updated author :
  let r := set_info hash_data name description created updated author None p in
  r.1 = Ok tt
  /\ hash hash_data r.2 = hash hash_data p
  /\ eq_protocol hash_data r.2 p = true
  /\ (forall q, structure q = structure p -> eq_protocol hash_data p q = true)
  /\ _version r.2 = _version p
  /\ _version_hash r.2 = _version_hash p
  /\ (forall impact,
        _version_hash p = Some (hash hash_data p) ->
        bump_version hash_data impact r.2 = (Ok (version p), r.2)).
Proof.
  destruct (set_info_metadata p name description created updated author)
    as (p' & Hr & Hs & Hv & Hh).
  simpl. rewrite Hr. simpl.
  assert (hash hash_data p' = hash hash_data p) as Hhash
    by (unfold hash; by rewrite Hs).
  repeat split; try done.
  - unfold eq_protocol. by rewrite Hhash, bool_decide_true.
  - intros q Hq. unfold eq_protocol, hash. by rewrite Hq, bool_decide_true.
  - intros impact Hp. rewrite bump_version_unchanged by congruence.
    unfold version. by rewrite Hv.
Qed.

End Versioning.

(** ** Volumes *)

Section Volumes.
Context {ctx H hash_t : Type}.
Context `{!ContextHandler ctx} `{!ProtocolHandler H ctx}.
#[local] Abbreviation Protocol := (Protocol ctx H hash_t).
Implicit Types (p : Protocol).








(** [_normalize_address] reads the protocol and leaves it as it is. *)
Lemma _normalize_address_state addr p :
  (_normalize_address addr p).2 = p.
Proof.
  unfold _normalize_address.
  destruct (negb _); [done|].
  destruct (split_on ":" addr) as [|c [|w [|]]]; try done.
  unfold bind, lift_res.
  destruct (normalize_position (PosStr w)); [|done].
  destruct (normalize_position (PosStr c)) as [|[]]; try done.
  unfold gets. simpl. by destruct (dict_get _ _).
Qed.

Lemma get_tool_state kw p : (get_tool kw p).2 = p.
Proof.
  unfold get_tool, bind, gets. by destruct (ch_get_instrument _ _).
Qed.





End Volumes.

(** ** Declarations *)

Section Declarations.
Context {ctx H hash_t : Type} `{EqDecision hash_t}.
Context `{!ContextHandler ctx} `{!ProtocolHandler H ctx}.
Variable hash_data : Structure -> hash_t.
#[local] Abbreviation Protocol := (Protocol ctx H hash_t).
Implicit Types (p : Protocol).

(** [add_instrument] writes the head before it asks the context: when the
    context raises, the head keeps the new entry. *)
Lemma add_instrument_raise p axis name e c' :
  ch_add_instrument axis name (_context_handler p) = (Raise e, c') ->
  add_instrument axis name p
  = (Raise e, set_context_handler c' (set_head (dict_set axis name (_head p)) p)).
Proof.
  intros Hc. unfold add_instrument, bind, modify, in_context, zoom. simpl.
  by rewrite Hc.
Qed.

(** [add_instrument] when the context accepts. *)
Lemma add_instrument_ok p axis name c' :
  ch_add_instrument axis name (_context_handler p) = (Ok tt, c') ->
  add_instrument axis name p
  = (Ok tt, set_context_handler c' (set_head (dict_set axis name (_head p)) p)).
Proof.
  intros Hc. unfold add_instrument, bind, modify, in_context, zoom. simpl.
  by rewrite Hc.
Qed.

(** [add_container] without a label: the slot is written only when the
    context has accepted it. *)
Lemma add_container_unlabelled p s name :
  add_container (PosTuple s) name None p =
  match ch_add_container s name (_context_handler p) with
  | (Ok _, c') =>
      (Ok tt, set_containers (dict_set s name (_containers p))
                (set_context_handler c' p))
  | (Raise e, c') => (Raise e, set_context_handler c' p)
  end.
Proof.
  unfold add_container, bind, lift_res, ret, in_context, zoom, modify. simpl.
  by destruct (ch_add_container s name (_context_handler p)) as [[[]|e] c'].
Qed.

(** C1: a declaration that raises a validation error does not always leave
    the document as it was.  [add_container] with a new label records the
    label (and its capitalization) before it asks the context: when the
    context then rejects the container, the call raises with the label
    still recorded, although no container was added. *)
Theorem add_container_keeps_label_on_failure p slot s name label e c' :
  normalize_position slot = Ok s ->
  label <> "" ->
  dict_in (lower label) (_container_labels p) = false ->
  ch_add_container s name (_context_handler p) = (Raise e, c') ->
  exists p',
    add_container slot name (Some label) p = (Raise e, p')
    /\ dict_get (lower label) (_container_labels p') = Some s
    /\ _containers p' = _containers p
    /\ p' <> p.
Proof.
  intros Hs Hl Hin Hc.
  unfold add_container, bind, lift_res. rewrite Hs.
  destruct label as [|a label]; [done|].
  unfold gets. rewrite Hin. unfold modify, in_context, zoom.
  apply dict_in_false in Hin.
  destruct (dict_in (lower (String a label)) (_label_case p));
    cbn -[lower]; rewrite Hc; (eexists; split; [reflexivity|]); cbn -[lower];
    (split; [apply dict_get_set_eq|]); (split; [done|]);
    intros Heq; apply (f_equal _container_labels) in Heq; cbn -[lower] in Heq;
    apply (f_equal (dict_get (lower (String a label)))) in Heq;
    rewrite dict_get_set_eq in Heq; congruence.
Qed.

(** [set_info] assigns the other fields before it parses the version: a
    version that does not parse raises with those fields already set. *)
Lemma set_info_bad_version p name version e :
  parse_version version = Raise e ->
  set_info hash_data (Some name) None None None None (Some version) p
  = (Raise e, set_name (Some name) p).
Proof.
  intros Hv. unfold set_info, bind, assign_some, modify, ret, lift_res. simpl.
  by rewrite Hv.
Qed.

(** C9: [calibrate_instrument] does not hand [bottom] to the context:
    whatever is passed for it, the call does the same. *)
Theorem calibrate_instrument_ignores_bottom p axis top blowout droptip
    bottom bottom' :
  calibrate_instrument axis top blowout droptip bottom p
  = calibrate_instrument axis top blowout droptip bottom' p
  /\ calibrate_instrument axis top blowout droptip bottom p
     = in_context
         (ch_calibrate_instrument axis
            [("top", top); ("blowout", blowout); ("droptip", droptip)]) p.
Proof. done. Qed.

End Declarations.

(** ** The version string *)

Lemma split_on_no_sep sep s :
  contains_char sep s = false -> split_on sep s = [s].
Proof.
  induction s as [|c s IH]; simpl; [done|].
  intros [Hc Hs]%orb_false_iff. rewrite Hc, (IH Hs). done.
Qed.

Lemma split_on_app sep s t :
  contains_char sep s = false ->
  split_on sep (s +:+ String sep t) = s :: split_on sep t.
Proof.
  induction s as [|c s IH]; simpl.
  - intros _. by rewrite Ascii.eqb_refl.
  - intros [Hc Hs]%orb_false_iff. rewrite Hc, (IH Hs). done.
Qed.

Lemma split_join sep l :
  l <> [] ->
  Forall (fun s => contains_char sep s = false) l ->
  split_on sep (join_with (String sep EmptyString) l) = l.
Proof.
  intros Hne Hall. induction Hall as [|s l Hs Hall IH]; [done|].
  destruct l as [|s' l]; simpl.
  - by apply split_on_no_sep.
  - change (split_on sep (s +:+ String sep (join_with (String sep "") (s' :: l)))
            = s :: s' :: l).
    rewrite split_on_app by done. f_equal. by apply IH.
Qed.

Lemma string_of_uint_no_dot d :
  contains_char "." (NilEmpty.string_of_uint d) = false.
Proof. induction d; simpl; done. Qed.

Lemma py_str_no_dot z : contains_char "." (py_str z) = false.
Proof.
  unfold py_str, NilZero.string_of_int, NilZero.string_of_uint.
  destruct (Z.to_int z) as [d|d]; destruct d; simpl;
    try done; apply string_of_uint_no_dot.
Qed.

Lemma string_of_uint_digits d :
  all_digits (NilEmpty.string_of_uint d) = true.
Proof. induction d; simpl; done. Qed.

Lemma lstrip_digit c s : is_digit c = true -> lstrip (String c s) = String c s.
Proof.
  intros Hc. simpl.
  assert (is_space c = false) as ->; [|done].
  unfold is_digit, is_space in *. cbv zeta in *.
  destruct (nat_of_ascii c <=? 13)%nat eqn:E1;
    destruct (nat_of_ascii c =? 32)%nat eqn:E3;
    destruct (nat_of_ascii c =? 133)%nat eqn:E4;
    destruct (nat_of_ascii c =? 160)%nat eqn:E5;
    rewrite ?andb_true_r, ?andb_false_r, ?orb_false_r; try reflexivity;
    exfalso; apply andb_true_iff in Hc as [H1 H2];
    apply Nat.leb_le in H1, H2;
    rewrite ?Nat.leb_le, ?Nat.eqb_eq in *; lia.
Qed.

Lemma digit_not_space c : is_digit c = true -> is_space c = false.
Proof.
  intros Hc. pose proof (lstrip_digit c "" Hc) as Hl. simpl in Hl.
  by destruct (is_space c).
Qed.

Lemma rstrip_digits s : all_digits s = true -> rstrip s = s.
Proof.
  unfold all_digits. induction s as [|c s IH]; [done|].
  simpl. intros [Hc Hs]%andb_true_iff. rewrite (IH Hs).
  destruct s; [|done]. by rewrite (digit_not_space c Hc).
Qed.

Lemma literal_digits_digits s :
  all_digits s = true -> literal_digits true s = Some s.
Proof.
  unfold all_digits. induction s as [|c s IH]; [done|].
  simpl. intros [Hc Hs]%andb_true_iff. by rewrite Hc, (IH Hs).
Qed.

Lemma literal_digits_start s :
  all_digits s = true -> s <> "" -> literal_digits false s = Some s.
Proof.
  destruct s as [|c s]; [done|]. unfold all_digits. simpl.
  intros [Hc Hs]%andb_true_iff _.
  by rewrite Hc, (literal_digits_digits s Hs).
Qed.

(** The digits of a number that is not written with the empty numeral. *)
Lemma py_int_digits d :
  d <> Decimal.Nil ->
  py_int (NilEmpty.string_of_uint d) = Ok (Z.of_uint d)
  /\ py_int (String "-" (NilEmpty.string_of_uint d)) = Ok (- Z.of_uint d).
Proof.
  intros Hd.
  pose proof (string_of_uint_digits d) as Hall.
  assert (NilEmpty.string_of_uint d <> "") as Hne by (by destruct d).
  assert (NilZero.uint_of_string (NilEmpty.string_of_uint d) = Some d) as Hu.
  { pose proof (NilZero.usu d Hd) as Hu. by destruct d. }
  destruct (NilEmpty.string_of_uint d) as [|c s] eqn:Hs; [done|].
  assert (is_digit c = true) as Hc.
  { unfold all_digits in Hall. simpl in Hall.
    by apply andb_true_iff in Hall as [Hc _]. }
  split.
  - unfold py_int. rewrite (lstrip_digit c s Hc), (rstrip_digits _ Hall).
    assert (match String c s with
            | String "-" r => (true, r)
            | String "+" r => (false, r)
            | _ => (false, String c s)
            end = (false, String c s)) as ->.
    { destruct c as [[] [] [] [] [] [] [] []]; try done; simpl in Hc; done. }
    by rewrite (literal_digits_start _ Hall), Hu.
  - unfold py_int.
    assert (rstrip (lstrip (String "-" (String c s))) = String "-" (String c s))
      as ->.
    { change (lstrip (String "-" (String c s))) with (String "-" (String c s)).
      change (rstrip (String "-" (String c s)))
        with (match rstrip (String c s) with
              | "" => String "-" ""
              | r => String "-" r
              end).
      by rewrite (rstrip_digits _ Hall). }
    by rewrite (literal_digits_start _ Hall), Hu.
Qed.

Lemma py_int_str z : py_int (py_str z) = Ok z.
Proof.
  destruct z as [|p|p]; [reflexivity| |].
  - unfold py_str. simpl.
    assert (Pos.to_uint p <> Decimal.Nil) as Hd
        by (intros Hp; by apply DecimalPos.Unsigned.to_uint_nonnil in Hp).
    destruct (py_int_digits _ Hd) as [Hpos _].
    unfold NilZero.string_of_uint.
    destruct (Pos.to_uint p) eqn:Hp; try done; rewrite Hpos; f_equal;
      rewrite <- Hp; exact (DecimalZ.of_to (Z.pos p)).
  - unfold py_str. simpl.
    assert (Pos.to_uint p <> Decimal.Nil) as Hd
        by (intros Hp; by apply DecimalPos.Unsigned.to_uint_nonnil in Hp).
    destruct (py_int_digits _ Hd) as [_ Hneg].
    unfold NilZero.string_of_uint.
    destruct (Pos.to_uint p) eqn:Hp; try done; rewrite Hneg; f_equal;
      rewrite <- Hp; exact (DecimalZ.of_to (Z.neg p)).
Qed.

Lemma map_res_py_int_str l : map_res py_int (py_str <$> l) = Ok l.
Proof.
  induction l as [|z l IH]; [done|].
  rewrite fmap_cons. cbn [map_res]. by rewrite py_int_str, IH.
Qed.

(** The version string of a protocol parses back to its version. *)
Lemma parse_version_version {ctx H hash_t} (p : Protocol ctx H hash_t) :
  _version p <> [] -> parse_version (version p) = Ok (_version p).
Proof.
  intros Hne. unfold parse_version, version.
  rewrite split_join.
  - apply map_res_py_int_str.
  - by destruct (_version p).
  - apply Forall_fmap, Forall_forall. intros z _. apply py_str_no_dot.
Qed.

(** ** Merging *)

Lemma bind_ok {S A B} (m : M S A) (k : A -> M S B) s b s' :
  bind m k s = (Ok b, s') ->
  exists a s1, m s = (Ok a, s1) /\ k a s1 = (Ok b, s').
Proof.
  unfold bind. destruct (m s) as [[a|e] s1]; [eauto | done].
Qed.

Lemma bind_raise_l {S A B} (m : M S A) (k : A -> M S B) s e s' :
  m s = (Raise e, s') -> bind m k s = (Raise e, s').
Proof. intros Hm. unfold bind. by rewrite Hm. Qed.

Lemma bind_ok_l {S A B} (m : M S A) (k : A -> M S B) s a s' :
  m s = (Ok a, s') -> bind m k s = k a s'.
Proof. intros Hm. unfold bind. by rewrite Hm. Qed.

Lemma dict_get_reverse_None {K V : Type} `{Countable K} (d : dict K V) (k : K) :
  dict_get k (reverse d) = None <-> dict_get k d = None.
Proof.
  rewrite <- !content_lookup. unfold content.
  rewrite <- !not_elem_of_list_to_map, fmap_reverse, elem_of_reverse. done.
Qed.

Lemma content_rebuilt (c : Command) : dict_wf c -> content (rebuilt c) = content c.
Proof.
  intros Hwf. unfold rebuilt.
  destruct (dict_get "command" c) as [[]|] eqn:Hc; try done.
  by apply content_rebuilt_command.
Qed.

Section Merge.
Context {ctx H hash_t : Type} `{EqDecision hash_t}.
Context `{!ContextHandler ctx} `{!ProtocolHandler H ctx}.
Variable hash_data : Structure -> hash_t.
Variable strftime_now : string.
#[local] Abbreviation Protocol := (Protocol ctx H hash_t).
Implicit Types (p b : Protocol).

(** [set_info] with the [info] of a protocol returns and changes metadata
    only. *)
Lemma set_info_from_info b p :
  _version b <> [] ->
  exists p', set_info_from hash_data (info hash_data strftime_now b) p = (Ok tt, p')
             /\ operational p' = operational p.
Proof.
  intros Hv. unfold set_info_from, set_info, info. simpl.
  unfold bind, assign_some, modify, ret, lift_res.
  rewrite (parse_version_version b Hv).
  destruct (_name b), (_description b), (_author b); simpl; by eexists.
Qed.

(** *** Containers *)

Lemma apply_containers_cons slot name items p :
  apply_containers ((slot, name) :: items) p =
  match dict_get slot (_containers p) with
  | Some n =>
      if decide (n = name) then apply_containers items p
      else (Raise ContainerConflict, p)
  | None =>
      match ch_add_container slot name (_context_handler p) with
      | (Ok _, c') =>
          apply_containers items
            (set_containers (dict_set slot name (_containers p))
               (set_context_handler c' p))
      | (Raise e, c') => (Raise e, set_context_handler c' p)
      end
  end.
Proof.
  unfold apply_containers at 1. cbn [for_each]. unfold bind at 1 2, gets.
  destruct (dict_get slot (_containers p)) as [n|] eqn:Hg.
  - by destruct (decide (n = name)).
  - rewrite add_container_unlabelled.
    by destruct (ch_add_container slot name (_context_handler p)) as [[[]|e] c'].
Qed.

Lemma apply_containers_conflict items p slot n1 n2 :
  only_container_conflict ctx ->
  dict_get slot (_containers p) = Some n1 ->
  dict_get slot items = Some n2 ->
  n1 <> n2 ->
  exists p', apply_containers items p = (Raise ContainerConflict, p').
Proof.
  intros Hch Hp Hi Hne. revert p Hp.
  induction items as [|[k v] items IH]; intros p Hp; [done|].
  rewrite apply_containers_cons. simpl in Hi.
  destruct (decide (slot = k)) as [<-|Hk].
  - injection Hi as ->. rewrite Hp. rewrite decide_False by done. by eexists.
  - destruct (dict_get k (_containers p)) as [n|] eqn:Hg.
    + destruct (decide (n = v)); [by apply IH | by eexists].
    + destruct (ch_add_container k v (_context_handler p)) as [[[]|e] c'] eqn:Hc.
      * apply IH; [done|]. simpl. by rewrite dict_get_set_ne.
      * apply Hch in Hc as ->. by eexists.
Qed.

Lemma apply_containers_ok items p p' :
  apply_containers items p = (Ok tt, p') ->
  (forall k, dict_get k (_containers p') =
             match dict_get k (_containers p) with
             | Some v => Some v
             | None => dict_get k items
             end)
  /\ but_containers p' = but_containers p.
Proof.
  revert p. induction items as [|[k v] items IH]; intros p.
  - intros [= <-]. split; [|done]. intros k. by destruct (dict_get k _).
  - rewrite apply_containers_cons.
    destruct (dict_get k (_containers p)) as [n|] eqn:Hg.
    + destruct (decide (n = v)) as [->|]; [|done].
      intros [Hl Hf]%IH. split; [|done]. intros k'. rewrite Hl. simpl.
      destruct (decide (k' = k)) as [->|]; [by rewrite Hg|done].
    + destruct (ch_add_container k v (_context_handler p)) as [[[]|e] c']; [|done].
      intros [Hl Hf]%IH. split; [|done]. intros k'. rewrite Hl. simpl.
      destruct (decide (k' = k)) as [->|Hne].
      * by rewrite dict_get_set_eq, Hg.
      * by rewrite dict_get_set_ne.
Qed.

(** A container the receiver already holds with the same type is skipped:
    merging goes as it would without that declaration in the operand. *)
Lemma apply_containers_duplicate items p slot name :
  dict_get slot (_containers p) = Some name ->
  (forall v, (slot, v) ∈ items -> v = name) ->
  apply_containers items p = apply_containers (dict_del slot items) p.
Proof.
  revert p. induction items as [|[k v] items IH]; intros p Hp Hall; [done|].
  rewrite apply_containers_cons. simpl.
  assert (forall v, (slot, v) ∈ items -> v = name) as Hall'.
  { intros v' Hin. apply Hall. by apply elem_of_cons; right. }
  destruct (decide (slot = k)) as [<-|Hk].
  - rewrite Hp. rewrite (Hall v) by (by apply elem_of_cons; left).
    rewrite decide_True by done. by apply IH.
  - rewrite apply_containers_cons.
    destruct (dict_get k (_containers p)) as [n|] eqn:Hg.
    + destruct (decide (n = v)); [by apply IH | done].
    + destruct (ch_add_container k v (_context_handler p)) as [[[]|e] c']; [|done].
      apply IH; [|done]. simpl. by rewrite dict_get_set_ne.
Qed.

(** *** Labels and capitalizations *)

Lemma apply_labels_ok labels items p p' :
  apply_labels labels items p = (Ok tt, p') ->
  (forall k, dict_get k (_container_labels p') =
             match dict_get k (reverse items) with
             | Some v => Some v
             | None => dict_get k (_container_labels p)
             end)
  /\ but_labels p' = but_labels p
  /\ _context_handler p' = _context_handler p.
Proof.
  revert p. induction items as [|[k v] items IH]; intros p.
  - intros [= <-]. done.
  - unfold apply_labels. cbn [for_each]. fold (apply_labels (ctx:=ctx) (H:=H) (hash_t:=hash_t) labels items).
    unfold bind at 1 2, modify.
    destruct (match dict_get v labels with
              | Some l => if decide (l = k) then ret tt else raise ContainerConflict
              | None => ret tt
              end p) as [[[]|e] p1] eqn:Hchk; [|done].
    assert (p1 = p) as ->.
    { destruct (dict_get v labels) as [l|]; [destruct (decide (l = k))|];
        by injection Hchk. }
    intros (Hl & Hf & Hc)%IH. split; [|done].
    intros k'. rewrite Hl, reverse_cons, dict_get_app. simpl.
    destruct (dict_get k' (reverse items)); [done|].
    destruct (decide (k' = k)) as [->|Hne].
    + by rewrite dict_get_set_eq.
    + by rewrite dict_get_set_ne.
Qed.

Lemma apply_label_case_ok items p :
  exists p',
    apply_label_case items p = (Ok tt, p')
    /\ (forall k, dict_get k (_label_case p') =
                  match dict_get k (reverse items) with
                  | Some v => Some v
                  | None => dict_get k (_label_case p)
                  end)
    /\ but_label_case p' = but_label_case p
    /\ _context_handler p' = _context_handler p.
Proof.
  revert p. induction items as [|[k v] items IH]; intros p.
  - exists p. done.
  - unfold apply_label_case. cbn [for_each]. fold (apply_label_case (ctx:=ctx) (H:=H) (hash_t:=hash_t) items).
    unfold bind, modify.
    destruct (IH (set_label_case (dict_set k v (_label_case p)) p))
      as (p' & -> & Hl & Hf & Hc).
    exists p'. split; [done|]. split; [|done].
    intros k'. rewrite Hl, reverse_cons, dict_get_app. simpl.
    destruct (dict_get k' (reverse items)); [done|].
    destruct (decide (k' = k)) as [->|Hne].
    + by rewrite dict_get_set_eq.
    + by rewrite dict_get_set_ne.
Qed.

(** *** Instruments *)

Lemma apply_instruments_cons axis name items p :
  apply_instruments ((axis, name) :: items) p =
  let go :=
    match ch_add_instrument axis name (_context_handler p) with
    | (Ok _, c') =>
        apply_instruments items
          (set_context_handler c' (set_head (dict_set axis name (_head p)) p))
    | (Raise e, c') =>
        (Raise e, set_context_handler c' (set_head (dict_set axis name (_head p)) p))
    end in
  match dict_get axis (_head p) with
  | Some n => if decide (n = name) then go else (Raise InstrumentConflict, p)
  | None => go
  end.
Proof.
  unfold apply_instruments at 1. cbn [for_each]. fold (apply_instruments (ctx:=ctx) (H:=H) (hash_t:=hash_t) items).
  unfold bind at 1 2 3, gets. cbv zeta.
  destruct (ch_add_instrument axis name (_context_handler p)) as [[[]|e] c'] eqn:Hc.
  - destruct (dict_get axis (_head p)) as [n|];
      [destruct (decide (n = name)); [|done]|];
      unfold ret; by rewrite (add_instrument_ok _ _ _ _ Hc).
  - destruct (dict_get axis (_head p)) as [n|];
      [destruct (decide (n = name)); [|done]|];
      unfold ret; by rewrite (add_instrument_raise _ _ _ _ _ Hc).
Qed.

Lemma apply_instruments_ok items p p' :
  apply_instruments items p = (Ok tt, p') ->
  (forall k, dict_get k (_head p') =
             match dict_get k (_head p) with
             | Some v => Some v
             | None => dict_get k items
             end)
  /\ but_head p' = but_head p.
Proof.
  revert p. induction items as [|[k v] items IH]; intros p.
  - intros [= <-]. split; [|done]. intros k. by destruct (dict_get k _).
  - rewrite apply_instruments_cons. cbv zeta.
    destruct (ch_add_instrument k v (_context_handler p)) as [[[]|e] c'].
    2: { destruct (dict_get k (_head p)) as [n|]; [|done].
         by destruct (decide (n = v)). }
    assert (apply_instruments items
              (set_context_handler c' (set_head (dict_set k v (_head p)) p))
            = (Ok tt, p') ->
            (dict_get k (_head p) = None \/ dict_get k (_head p) = Some v) ->
            (forall k0, dict_get k0 (_head p') =
                        match dict_get k0 (_head p) with
                        | Some v0 => Some v0
                        | None => dict_get k0 ((k, v) :: items)
                        end)
            /\ but_head p' = but_head p) as Hgo.
    { intros [Hl Hf]%IH Hk. split; [|done]. intros k'. rewrite Hl. simpl.
      destruct (decide (k' = k)) as [->|Hne].
      - rewrite dict_get_set_eq. by destruct Hk as [-> | ->].
      - by rewrite dict_get_set_ne. }
    destruct (dict_get k (_head p)) as [n|] eqn:Hg.
    + destruct (decide (n = v)) as [->|]; [|done]. intros Hr. apply Hgo; auto.
    + intros Hr. apply Hgo; auto.
Qed.

(** *** Commands *)

Lemma apply_commands_ok items p p' :
  apply_commands items p = (Ok tt, p') ->
  _commands p' = _commands p ++ (rebuilt <$> items)
  /\ but_commands p' = but_commands p.
Proof.
  revert p. induction items as [|c items IH]; intros p.
  - intros [= <-]. by rewrite app_nil_r.
  - unfold apply_commands. cbn [for_each]. fold (apply_commands (ctx:=ctx) (H:=H) (hash_t:=hash_t) items).
    intros (a & p1 & Hstep & Hrest)%bind_ok.
    apply IH in Hrest as [Hc Hf].
    destruct (dict_get "command" c) as [cv|] eqn:Hcv; [|done].
    apply bind_ok in Hstep as (name & p0 & Hname & Hadd).
    unfold lift_res in Hname. destruct cv; try done.
    injection Hname as <- <-.
    unfold add_command in Hadd.
    apply bind_ok in Hadd as ([] & p2 & Hrun & Hmod).
    unfold modify in Hmod. injection Hmod as Hp1. subst p1.
    assert (_commands p2 = _commands p /\ but_commands p2 = but_commands p)
      as [Hc2 Hf2].
    { unfold _run_in_context_handler in Hrun.
      destruct (ch_method s) as [method|]; [|done].
      unfold in_context, zoom in Hrun.
      destruct (method _ _) as [r c']. by injection Hrun as _ <-. }
    split.
    + rewrite Hc. simpl. rewrite Hc2, <- app_assoc. simpl.
      unfold rebuilt at 2. by rewrite Hcv.
    + rewrite Hf. unfold but_commands in *. simpl. congruence.
Qed.

(** *** The whole merge *)

Lemma apply_protocol_ok b p p' :
  apply_protocol hash_data strftime_now b p = (Ok tt, p') ->
  (forall k, dict_get k (_containers p') =
             match dict_get k (_containers p) with
             | Some v => Some v
             | None => dict_get k (_containers b)
             end)
  /\ (forall k, dict_get k (_container_labels p') =
                match dict_get k (reverse (_container_labels b)) with
                | Some v => Some v
                | None => dict_get k (_container_labels p)
                end)
  /\ (forall k, dict_get k (_label_case p') =
                match dict_get k (reverse (_label_case b)) with
                | Some v => Some v
                | None => dict_get k (_label_case p)
                end)
  /\ (forall k, dict_get k (_head p') =
                match dict_get k (_head p) with
                | Some v => Some v
                | None => dict_get k (_head b)
                end)
  /\ _ingredients p' = _ingredients p
  /\ _commands p' = _commands p ++ (rebuilt <$> _commands b).
Proof.
  unfold apply_protocol.
  intros ([] & p0 & Hinfo & Hr)%bind_ok.
  apply bind_ok in Hr as ([] & p1 & Hcont & Hr).
  apply bind_ok in Hr as (labels & p1' & Hlab & Hr).
  unfold gets in Hlab. injection Hlab as <- <-.
  apply bind_ok in Hr as ([] & p2 & Hlabels & Hr).
  apply bind_ok in Hr as ([] & p3 & Hcase & Hr).
  apply bind_ok in Hr as ([] & p4 & Hinst & Hcmd).
  assert (operational p0 = operational p) as H0.
  { unfold set_info_from, set_info, info in Hinfo. simpl in Hinfo.
    unfold bind, assign_some, modify, ret, lift_res in Hinfo.
    destruct (parse_version (version b)); [|by destruct (_name b),
      (_description b), (_author b)].
    destruct (_name b), (_description b), (_author b); simpl in Hinfo;
      by injection Hinfo as <-. }
  apply apply_containers_ok in Hcont as [L1 F1].
  apply apply_labels_ok in Hlabels as (L2 & F2 & _).
  destruct (apply_label_case_ok (_label_case b) p2) as (p3' & Hc' & L3 & F3 & _).
  rewrite Hc' in Hcase. injection Hcase as ->.
  apply apply_instruments_ok in Hinst as [L4 F4].
  apply apply_commands_ok in Hcmd as [L5 F5].
  unfold operational, but_containers, but_labels, but_label_case, but_head,
    but_commands in *.
  injection H0 as ? ? ? ? ? ? ?. injection F1 as ? ? ? ? ?.
  injection F2 as ? ? ? ? ?. injection F3 as ? ? ? ? ?.
  injection F4 as ? ? ? ? ?. injection F5 as ? ? ? ? ?.
  repeat split.
  - intros k. replace (_containers p') with (_containers p1) by congruence.
    rewrite L1. by replace (_containers p0) with (_containers p) by congruence.
  - intros k.
    replace (_container_labels p') with (_container_labels p2) by congruence.
    rewrite L2.
    by replace (_container_labels p1) with (_container_labels p) by congruence.
  - intros k. replace (_label_case p') with (_label_case p3) by congruence.
    rewrite L3. by replace (_label_case p2) with (_label_case p) by congruence.
  - intros k. replace (_head p') with (_head p4) by congruence.
    rewrite L4. by replace (_head p3) with (_head p) by congruence.
  - congruence.
  - rewrite L5. by replace (_commands p4) with (_commands p) by congruence.
Qed.

Lemma set_info_from_operational (i : Info hash_t) p :
  operational (set_info_from hash_data i p).2 = operational p.
Proof.
  unfold set_info_from, set_info. simpl.
  unfold bind, assign_some, modify, ret, lift_res.
  destruct (parse_version (i_version i)), (i_name i), (i_description i),
    (i_author i); done.
Qed.

Lemma apply_containers_wf items p p' :
  apply_containers items p = (Ok tt, p') ->
  dict_wf (_containers p) -> dict_wf (_containers p').
Proof.
  revert p. induction items as [|[k v] items IH]; intros p.
  - by intros [= <-].
  - rewrite apply_containers_cons.
    destruct (dict_get k (_containers p)) as [n|] eqn:Hg.
    + destruct (decide (n = v)); [apply IH | done].
    + destruct (ch_add_container k v (_context_handler p)) as [[[]|e] c']; [|done].
      intros Hr Hwf. apply (IH _ Hr). simpl.
      clear -Hg Hwf. unfold dict_wf in *.
      induction (_containers p) as [|[k0 v0] d IHd]; simpl.
      * apply NoDup_singleton.
      * simpl in Hg. destruct (decide (k = k0)) as [|Hne]; [done|].
        apply NoDup_cons in Hwf as [Hnin Hnd]. simpl. apply NoDup_cons.
        split; [|by apply IHd].
        intros Hin. apply list_elem_of_fmap in Hin as [[k1 v1] [Hk Hin]].
        simpl in Hk. subst k1.
        assert (dict_get k0 (dict_set k v d) = dict_get k0 d) as Hsame
            by (apply dict_get_set_ne; congruence).
        apply Hnin. apply list_elem_of_fmap.
        destruct (dict_get k0 d) as [w|] eqn:Hd.
        -- clear -Hd. induction d as [|[k2 v2] d IHd]; [done|]. simpl in Hd.
           destruct (decide (k0 = k2)) as [->|].
           ++ exists (k2, v2). split; [done | by apply elem_of_cons; left].
           ++ destruct (IHd Hd) as (x & Hx & Hxin).
              exists x. split; [done | by apply elem_of_cons; right].
        -- exfalso. rewrite <- content_lookup in Hsame.
           unfold content in Hsame.
           apply not_elem_of_list_to_map in Hsame. apply Hsame.
           apply list_elem_of_fmap. by exists (k0, v1).
Qed.

Lemma dict_wf_get {K V : Type} `{EqDecision K} (d : dict K V) k v :
  dict_wf d -> (k, v) ∈ d -> dict_get k d = Some v.
Proof.
  unfold dict_wf. induction d as [|[k0 v0] d IH]; simpl.
  - by intros _ Hin%elem_of_nil.
  - intros [Hnin Hnd]%NoDup_cons [Heq|Hin]%elem_of_cons.
    + injection Heq as -> ->. by rewrite decide_True.
    + destruct (decide (k = k0)) as [->|]; [|by apply IH].
      exfalso. apply Hnin. apply list_elem_of_fmap. by exists (k0, v).
Qed.

Lemma dict_wf_filter {K V : Type} `{EqDecision K} (d : list (K * V)) k v :
  dict_wf d -> dict_get k d = Some v ->
  filter (fun kv => kv.1 = k) d = [(k, v)].
Proof.
  unfold dict_wf. induction d as [|[k0 v0] d IH]; [done|].
  intros Hwf Hg. simpl in Hwf, Hg. apply NoDup_cons in Hwf as [Hnin Hnd].
  destruct (decide (k = k0)) as [<-|Hne].
  - injection Hg as ->. rewrite filter_cons_True by done. f_equal.
    clear IH Hnd. induction d as [|[k1 v1] d IHd]; [done|].
    rewrite filter_cons_False.
    + apply IHd. intros Hin. apply Hnin. simpl. by apply elem_of_cons; right.
    + simpl. intros ->. apply Hnin. simpl. by apply elem_of_cons; left.
  - rewrite filter_cons_False by (simpl; congruence). by apply IH.
Qed.

Lemma apply_protocol_phases b p p' :
  apply_protocol hash_data strftime_now b p = (Ok tt, p') ->
  exists p0 p1 p2 p3 p4,
    set_info_from hash_data (info hash_data strftime_now b) p = (Ok tt, p0)
    /\ apply_containers (_containers b) p0 = (Ok tt, p1)
    /\ apply_labels (dict_invert (_container_labels p1)) (_container_labels b) p1
       = (Ok tt, p2)
    /\ apply_label_case (_label_case b) p2 = (Ok tt, p3)
    /\ apply_instruments (_head b) p3 = (Ok tt, p4)
    /\ apply_commands (_commands b) p4 = (Ok tt, p').
Proof.
  unfold apply_protocol.
  intros ([] & p0 & Hinfo & Hr)%bind_ok.
  apply bind_ok in Hr as ([] & p1 & Hcont & Hr).
  apply bind_ok in Hr as (labels & p1' & Hlab & Hr).
  unfold gets in Hlab. injection Hlab as <- <-.
  apply bind_ok in Hr as ([] & p2 & Hlabels & Hr).
  apply bind_ok in Hr as ([] & p3 & Hcase & Hr).
  apply bind_ok in Hr as ([] & p4 & Hinst & Hcmd).
  by exists p0, p1, p2, p3, p4.
Qed.

Lemma apply_protocol_containers_wf b p p' :
  apply_protocol hash_data strftime_now b p = (Ok tt, p') ->
  dict_wf (_containers p) -> dict_wf (_containers p').
Proof.
  intros (p0 & p1 & p2 & p3 & p4 & H0 & H1 & H2 & H3 & H4 & H5)%apply_protocol_phases.
  pose proof (set_info_from_operational (info hash_data strftime_now b) p) as F0.
  rewrite H0 in F0. simpl in F0.
  pose proof (apply_containers_wf _ _ _ H1) as Hwf.
  apply apply_labels_ok in H2 as (_ & F2 & _).
  destruct (apply_label_case_ok (_label_case b) p2) as (p3' & Hc' & _ & F3 & _).
  rewrite Hc' in H3. injection H3 as ->.
  apply apply_instruments_ok in H4 as [_ F4].
  apply apply_commands_ok in H5 as [_ F5].
  unfold operational, but_labels, but_label_case, but_head, but_commands in *.
  injection F0 as ? ? ? ? ? ? ?. injection F2 as ? ? ? ? ?.
  injection F3 as ? ? ? ? ?. injection F4 as ? ? ? ? ?.
  injection F5 as ? ? ? ? ?.
  intros Hp. replace (_containers p') with (_containers p1) by congruence.
  apply Hwf. by replace (_containers p0) with (_containers p) by congruence.
Qed.

Lemma set_info_from_without slot b :
  set_info_from (ctx:=ctx) (H:=H) hash_data
    (info hash_data strftime_now (without_container slot b))
  = set_info_from hash_data (info hash_data strftime_now b).
Proof. done. Qed.

Lemma apply_protocol_duplicate b p slot name :
  dict_get slot (_containers p) = Some name ->
  dict_get slot (_containers b) = Some name ->
  dict_wf (_containers b) ->
  apply_protocol hash_data strftime_now b p
  = apply_protocol hash_data strftime_now (without_container slot b) p.
Proof.
  intros Hp Hb Hwf. unfold apply_protocol.
  rewrite set_info_from_without.
  pose proof (set_info_from_operational (info hash_data strftime_now b) p) as F0.
  unfold bind at 1 7.
  destruct (set_info_from hash_data (info hash_data strftime_now b) p)
    as [[[]|e] p0]; [|done].
  simpl in F0. unfold operational in F0. injection F0 as ? ? ? ? ? ? ?.
  unfold bind at 1 6.
  change (_containers (without_container slot b))
    with (dict_del slot (_containers b)).
  rewrite (apply_containers_duplicate (_containers b) p0 slot name); [done|..].
  - congruence.
  - intros v Hin. apply (dict_wf_get _ _ _ Hwf) in Hin. congruence.
Qed.

Lemma add_ok a b c :
  add hash_data strftime_now a (OProtocol b) = Ok c ->
  exists ca,
    apply_protocol hash_data strftime_now a new_protocol = (Ok tt, ca)
    /\ apply_protocol hash_data strftime_now b ca = (Ok tt, c).
Proof.
  unfold add, bind.
  destruct (apply_protocol hash_data strftime_now a new_protocol)
    as [[[]|e] ca]; [|done].
  destruct (apply_protocol hash_data strftime_now b ca) as [[[]|e] c'] eqn:Hb;
    [|done].
  intros [= <-]. by exists ca.
Qed.

Lemma content_rebuilt_all (l : list Command) :
  Forall dict_wf l -> content <$> (rebuilt <$> l) = content <$> l.
Proof.
  induction 1 as [|c l Hc Hl IH]; [done|].
  rewrite !fmap_cons. by rewrite content_rebuilt, IH.
Qed.

(** What [A + B] holds when it returns. *)
Lemma add_ok_content a b c :
  add hash_data strftime_now a (OProtocol b) = Ok c ->
  (forall k, dict_get k (_containers c) =
             match dict_get k (_containers a) with
             | Some v => Some v
             | None => dict_get k (_containers b)
             end)
  /\ (forall k, dict_get k (_container_labels c) =
                match dict_get k (reverse (_container_labels b)) with
                | Some v => Some v
                | None => dict_get k (reverse (_container_labels a))
                end)
  /\ (forall k, dict_get k (_label_case c) =
                match dict_get k (reverse (_label_case b)) with
                | Some v => Some v
                | None => dict_get k (reverse (_label_case a))
                end)
  /\ (forall k, dict_get k (_head c) =
                match dict_get k (_head a) with
                | Some v => Some v
                | None => dict_get k (_head b)
                end)
  /\ _ingredients c = []
  /\ _commands c = (rebuilt <$> _commands a) ++ (rebuilt <$> _commands b).
Proof.
  intros (ca & Ha & Hb)%add_ok.
  apply apply_protocol_ok in Ha as (A1 & A2 & A3 & A4 & A5 & A6).
  apply apply_protocol_ok in Hb as (B1 & B2 & B3 & B4 & B5 & B6).
  simpl in *. repeat split.
  - intros k. by rewrite B1, A1.
  - intros k. rewrite B2, A2. by destruct (dict_get k (reverse (_container_labels a))).
  - intros k. rewrite B3, A3. by destruct (dict_get k (reverse (_label_case a))).
  - intros k. by rewrite B4, A4.
  - congruence.
  - by rewrite B6, A6.
Qed.

(** C8, as the code has it: on protocols that share no slot, label,
    capitalization or axis, [A + B] and [B + A] (when both return) hold the
    same containers, instruments, labels and capitalizations and no
    ingredients; the command log of each is the left operand's commands
    followed by the right operand's.  They are hash-equal when one of the
    two has no commands. *)
Theorem merge_commutes_up_to_command_order a b c1 c2 :
  add hash_data strftime_now a (OProtocol b) = Ok c1 ->
  add hash_data strftime_now b (OProtocol a) = Ok c2 ->
  dict_disjoint (_containers a) (_containers b) ->
  dict_disjoint (_container_labels a) (_container_labels b) ->
  dict_disjoint (_label_case a) (_label_case b) ->
  dict_disjoint (_head a) (_head b) ->
  Forall dict_wf (_commands a) ->
  Forall dict_wf (_commands b) ->
  s_containers (structure c1) = s_containers (structure c2)
  /\ s_head (structure c1) = s_head (structure c2)
  /\ s_container_labels (structure c1) = s_container_labels (structure c2)
  /\ s_label_case (structure c1) = s_label_case (structure c2)
  /\ s_ingredients (structure c1) = s_ingredients (structure c2)
  /\ s_commands (structure c1)
     = (content <$> _commands a) ++ (content <$> _commands b)
  /\ s_commands (structure c2)
     = (content <$> _commands b) ++ (content <$> _commands a)
  /\ (_commands a = [] \/ _commands b = [] ->
      hash hash_data c1 = hash hash_data c2
      /\ eq_protocol hash_data c1 c2 = true).
Proof.
  intros (A1 & A2 & A3 & A4 & A5 & A6)%add_ok_content
         (B1 & B2 & B3 & B4 & B5 & B6)%add_ok_content Dc Dl Dk Dh Wa Wb.
  assert (s_containers (structure c1) = s_containers (structure c2)) as E1.
  { apply map_eq. intros k. simpl. rewrite !content_lookup, A1, B1.
    destruct (Dc k) as [-> | ->]; by destruct (dict_get k _). }
  assert (s_head (structure c1) = s_head (structure c2)) as E2.
  { apply map_eq. intros k. simpl. rewrite !content_lookup, A4, B4.
    destruct (Dh k) as [-> | ->]; by destruct (dict_get k _). }
  assert (s_container_labels (structure c1) = s_container_labels (structure c2))
    as E3.
  { apply map_eq. intros k. simpl. rewrite !content_lookup, A2, B2.
    destruct (Dl k) as [Hn | Hn]; apply dict_get_reverse_None in Hn;
      rewrite Hn; clear Hn; by destruct (dict_get k (reverse _)). }
  assert (s_label_case (structure c1) = s_label_case (structure c2)) as E4.
  { apply map_eq. intros k. simpl. rewrite !content_lookup, A3, B3.
    destruct (Dk k) as [Hn | Hn]; apply dict_get_reverse_None in Hn;
      rewrite Hn; clear Hn; by destruct (dict_get k (reverse _)). }
  assert (s_ingredients (structure c1) = s_ingredients (structure c2)) as E5.
  { simpl. by rewrite A5, B5. }
  assert (s_commands (structure c1)
          = (content <$> _commands a) ++ (content <$> _commands b)) as E6.
  { simpl. by rewrite A6, fmap_app, !content_rebuilt_all. }
  assert (s_commands (structure c2)
          = (content <$> _commands b) ++ (content <$> _commands a)) as E7.
  { simpl. by rewrite B6, fmap_app, !content_rebuilt_all. }
  repeat (split; [assumption|]).
  intros Hempty.
  assert (structure c1 = structure c2) as Hs.
  { assert (s_commands (structure c1) = s_commands (structure c2)) as E8.
    { rewrite E6, E7. destruct Hempty as [-> | ->]; simpl;
        by rewrite ?app_nil_r. }
    destruct (structure c1), (structure c2). simpl in *. congruence. }
  unfold eq_protocol, hash. rewrite Hs. split; [done|].
  by apply bool_decide_true.
Qed.

End Merge.

(** ** Two declarations of one slot *)

Section MergeSameSlot.
Context {ctx H hash_t : Type} `{EqDecision hash_t}.
Context `{!ContextHandler ctx} `{!ProtocolHandler H ctx}.
Variable hash_data : Structure -> hash_t.
Variable strftime_now : string.
#[local] Abbreviation Protocol := (Protocol ctx H hash_t).
Implicit Types (p b : Protocol).

(** Containers the receiver holds already, with the same types, are all
    skipped. *)
Lemma apply_containers_present items p :
  (forall k v, (k, v) ∈ items -> dict_get k (_containers p) = Some v) ->
  apply_containers items p = (Ok tt, p).
Proof.
  induction items as [|[k v] items IH]; intros Hall; [done|].
  rewrite apply_containers_cons.
  rewrite (Hall k v) by (by apply elem_of_cons; left).
  rewrite decide_True by done. apply IH.
  intros k' v' Hin. apply Hall. by apply elem_of_cons; right.
Qed.

(** A merge of declarations the receiver holds already changes nothing but
    the metadata. *)
Lemma apply_protocol_present b p :
  (forall k v, (k, v) ∈ _containers b -> dict_get k (_containers p) = Some v) ->
  _container_labels b = [] -> _label_case b = [] -> _head b = [] ->
  _commands b = [] -> _version b <> [] ->
  exists p', apply_protocol hash_data strftime_now b p = (Ok tt, p')
             /\ operational p' = operational p.
Proof.
  intros Hall Hl Hc Hh Hm Hv. unfold apply_protocol.
  destruct (set_info_from_info hash_data strftime_now b p Hv) as (p0 & H0 & F0).
  rewrite (bind_ok_l _ _ _ _ _ H0).
  rewrite Hl, Hc, Hh, Hm.
  rewrite (bind_ok_l _ _ p0 tt p0).
  - exists p0. done.
  - apply apply_containers_present. intros k v Hin.
    unfold operational in F0. injection F0 as ? ? ? ? ? ? ?.
    replace (_containers p0) with (_containers p) by congruence.
    by apply Hall.
Qed.

(** C2: merging when both protocols declare the same slot.  With different
    container types [apply_protocol] raises [ContainerConflict], and so does
    [A + B] once [A] itself has been taken over, the context raising nothing
    else when it is given a container.  With the same type the operand's
    declaration is skipped: the merge, in place or by [+], goes exactly as it
    would without it (same outcome, same resulting document), so it returns
    whenever the merge of the rest does; a merge that returns, in place or
    by [+], holds that container, once; and when the operand declares
    nothing but containers the receiver holds with the same types, the
    merge returns and the declarations and commands are as they were. *)
Theorem merge_same_slot (a b : Protocol) slot n1 n2 :
  dict_get slot (_containers a) = Some n1 ->
  dict_get slot (_containers b) = Some n2 ->
  (n1 <> n2 ->
   _version b <> [] ->
   only_container_conflict ctx ->
   (exists a', apply_protocol hash_data strftime_now b a
               = (Raise ContainerConflict, a'))
   /\ (forall c, apply_protocol hash_data strftime_now a new_protocol = (Ok tt, c) ->
                 add hash_data strftime_now a (OProtocol b) = Raise ContainerConflict))
  /\ (n1 = n2 ->
      dict_wf (_containers b) ->
      apply_protocol hash_data strftime_now b a
      = apply_protocol hash_data strftime_now (without_container slot b) a
      /\ add hash_data strftime_now a (OProtocol b)
         = add hash_data strftime_now a (OProtocol (without_container slot b))
      /\ (forall a',
            apply_protocol hash_data strftime_now b a = (Ok tt, a') ->
            dict_get slot (_containers a') = Some n1
            /\ (dict_wf (_containers a) ->
                filter (fun kv => kv.1 = slot) (_containers a') = [(slot, n1)]))
      /\ (forall a',
            apply_protocol hash_data strftime_now (without_container slot b) a
            = (Ok tt, a') ->
            apply_protocol hash_data strftime_now b a = (Ok tt, a'))
      /\ (forall c,
            add hash_data strftime_now a (OProtocol (without_container slot b))
            = Ok c ->
            add hash_data strftime_now a (OProtocol b) = Ok c)
      /\ (forall c,
            add hash_data strftime_now a (OProtocol b) = Ok c ->
            dict_get slot (_containers c) = Some n1
            /\ filter (fun kv => kv.1 = slot) (_containers c) = [(slot, n1)])
      /\ ((forall k v, (k, v) ∈ _containers b ->
                       dict_get k (_containers a) = Some v) ->
          _container_labels b = [] -> _label_case b = [] -> _head b = [] ->
          _commands b = [] -> _version b <> [] ->
          (exists a', apply_protocol hash_data strftime_now b a = (Ok tt, a')
                      /\ operational a' = operational a)
          /\ (forall ca,
                apply_protocol hash_data strftime_now a new_protocol = (Ok tt, ca) ->
                exists c, add hash_data strftime_now a (OProtocol b) = Ok c
                          /\ operational c = operational ca))).
Proof.
  intros Ha Hb. split.
  - intros Hne Hv Hch.
    assert (forall p, dict_get slot (_containers p) = Some n1 ->
                      exists p', apply_protocol hash_data strftime_now b p
                                 = (Raise ContainerConflict, p')) as Hconf.
    { intros p Hp. unfold apply_protocol.
      destruct (set_info_from_info hash_data strftime_now b p Hv) as (p0 & H0 & F0).
      rewrite (bind_ok_l _ _ _ _ _ H0).
      unfold operational in F0. injection F0 as ? ? ? ? ? ? ?.
      destruct (apply_containers_conflict (_containers b) p0 slot n1 n2)
        as [p' Hp']; [done | congruence | done | done |].
      exists p'. by apply bind_raise_l. }
    split; [by apply Hconf|].
    intros c Hc. unfold add. unfold bind. rewrite Hc.
    apply apply_protocol_ok in Hc as (L1 & _).
    destruct (Hconf c) as [c' ->]; [|done].
    rewrite L1. simpl. exact Ha.
  - intros <- Hwf.
    assert (apply_protocol hash_data strftime_now b a
            = apply_protocol hash_data strftime_now (without_container slot b) a)
      as Hsame by (by apply (apply_protocol_duplicate _ _ b a slot n1)).
    assert (add hash_data strftime_now a (OProtocol b)
            = add hash_data strftime_now a (OProtocol (without_container slot b)))
      as Hadd.
    { unfold add, bind.
      destruct (apply_protocol hash_data strftime_now a new_protocol)
        as [[[]|e] c] eqn:Hc; [|done].
      apply apply_protocol_ok in Hc as (L1 & _).
      rewrite (apply_protocol_duplicate _ _ b c slot n1); [done| |done|done].
      rewrite L1. simpl. exact Ha. }
    split; [exact Hsame|]. split; [exact Hadd|].
    split.
    { intros a' Hok.
      assert (dict_get slot (_containers a') = Some n1) as Hg.
      { apply apply_protocol_ok in Hok as (L1 & _). by rewrite L1, Ha. }
      split; [done|]. intros Hwfa. apply dict_wf_filter; [|done].
      by apply (apply_protocol_containers_wf hash_data strftime_now b a a'). }
    split; [intros a' Hok; by rewrite Hsame|].
    split; [intros c Hok; by rewrite Hadd|].
    split.
    { intros c Hok.
      assert (dict_get slot (_containers c) = Some n1) as Hg.
      { apply add_ok_content in Hok as (L1 & _). by rewrite L1, Ha. }
      split; [done|]. apply dict_wf_filter; [|done].
      apply add_ok in Hok as (ca & Hca & Hcb).
      apply (apply_protocol_containers_wf hash_data strftime_now b ca c Hcb).
      apply (apply_protocol_containers_wf hash_data strftime_now a new_protocol ca Hca).
      apply NoDup_nil_2. }
    intros Hall Hl Hc Hh Hm Hv. split.
    { by apply apply_protocol_present. }
    intros ca Hca. unfold add, bind. rewrite Hca.
    destruct (apply_protocol_present b ca) as (c & Hcb & Hop); try done.
    { intros k v Hin. apply apply_protocol_ok in Hca as (L1 & _).
      rewrite L1. simpl. by apply Hall. }
    rewrite Hcb. by exists c.
Qed.

End MergeSameSlot.

(** ** [A + B] on objects held by reference *)

Section MergeFrame.
Context {ctx H hash_t : Type} `{EqDecision hash_t}.
Context `{!ContextHandler ctx} `{!ProtocolHandler H ctx}.
Variable hash_data : Structure -> hash_t.
Variable strftime_now : string.
#[local] Abbreviation Protocol := (Protocol ctx H hash_t).
Implicit Types (st : gmap nat Protocol).




End MergeFrame.

(** ** Running *)

Lemma for_each_inv {S A} (I : S -> Prop) (l : list A) (body : A -> M S unit) s :
  (forall a s0, I s0 -> I (body a s0).2) -> I s -> I (for_each l body s).2.
Proof.
  intros Hbody. revert s. induction l as [|a l IH]; intros s Hs; [done|].
  cbn [for_each]. unfold bind.
  specialize (Hbody a s Hs). destruct (body a s) as [[[]|e] s1]; [|done].
  by apply IH.
Qed.

Section Running.
Context {ctx H hash_t : Type}.
Context `{!ContextHandler ctx} `{!ProtocolHandler H ctx}.
#[local] Abbreviation Protocol := (Protocol ctx H hash_t).
Implicit Types (p : Protocol).

Lemma in_context_static {A} (m : M ctx A) p : static (in_context m p).2 = static p.
Proof. unfold in_context, zoom. by destruct (m (_context_handler p)). Qed.

Lemma on_handler_static {A} h (m : M (H * ctx) A) p :
  static (on_handler h m p).2 = static p.
Proof.
  unfold on_handler. destruct (handler_objs p !! h) as [o|]; [|done].
  destruct (m (o, _context_handler p)) as [r [o' c']]. unfold static. simpl.
  by rewrite length_insert.
Qed.

Lemma call_handler_static h command kw p :
  static (call_handler h command kw p).2 = static p.
Proof.
  unfold call_handler, bind, gets.
  destruct (handler_objs p !! h) as [o|]; [|done].
  destruct (h_method o command); [|done]. apply on_handler_static.
Qed.

Lemma bind_static {A B} (m : M Protocol A) (k : A -> M Protocol B) p :
  static (m p).2 = static p ->
  (forall a p0, static (k a p0).2 = static p0) ->
  static (bind m k p).2 = static p.
Proof.
  intros Hm Hk. unfold bind. destruct (m p) as [[a|e] p1]; [|done].
  simpl in Hm. by rewrite Hk.
Qed.

(** Running a command changes the context and the handlers' states only. *)
Lemma _run_static index p : static (_run index p).2 = static p.
Proof.
  unfold _run. unfold bind at 1, gets.
  destruct (_commands p !! index) as [kw|]; [|done].
  destruct (dict_get "command" kw) as [cv|]; [|done].
  unfold bind at 1, lift_res. destruct (command_name cv) as [command|]; [|done].
  apply bind_static.
  - unfold _run_in_context_handler.
    destruct (ch_method command); [apply in_context_static | done].
  - intros _ p0. unfold bind at 1, gets.
    apply (for_each_inv (fun q => static q = static p0)); [|done].
    intros h q Hq. rewrite <- Hq. apply bind_static.
    + apply on_handler_static.
    + intros _ q1. apply bind_static; [apply call_handler_static|].
      intros _ q2. apply on_handler_static.
Qed.

Lemma static_commands p (q : Protocol) :
  static p = static q -> _commands p = _commands q.
Proof. unfold static. by intros [= ]. Qed.

Lemma validate_state msg p : (validate msg p).2 = p.
Proof.
  unfold validate, bind, gets.
  destruct (_partial_proxy p) as [px|]; [|done]. by destruct (negb _).
Qed.


(** [next] of a generator suspended at counter [i], on a log of [n]
    commands. *)
Lemma run_next_suspended i p :
  run_next (GenSuspended i) p =
  if (i <? length (_commands p))%nat then
    match _run i p with
    | (Ok _, p') =>
        (Ok (Some ((i + 1)%nat, length (_commands p))), GenSuspended (i + 1), p')
    | (Raise e, p') => (Raise e, GenDone, p')
    end
  else (Ok None, GenDone, p).
Proof.
  unfold run_next, run_resume, bind, gets.
  destruct (i <? length (_commands p))%nat; [|done].
  pose proof (_run_static i p) as Hs.
  destruct (_run i p) as [[[]|e] p']; [|done].
  simpl in Hs. by rewrite (static_commands _ _ Hs).
Qed.

(** Draining a generator suspended at [i] runs the remaining commands in
    order and yields one pair after each. *)
Lemma drain_suspended fuel i p :
  let n := length (_commands p) in
  (i <= n)%nat -> (n - i < fuel)%nat ->
  exists ys,
    drain fuel (GenSuspended i) p
    = Some (ys, (run_in_order i (n - i) p).1, (run_in_order i (n - i) p).2)
    /\ ys = (fun j => (j, n)) <$> seq (S i) (length ys)
    /\ (length ys <= n - i)%nat
    /\ ((run_in_order i (n - i) p).1 = Ok tt -> length ys = (n - i)%nat).
Proof.
  cbv zeta. revert i p.
  induction fuel as [|fuel IH]; intros i p Hi Hf; [lia|].
  cbn [drain]. rewrite run_next_suspended.
  destruct (i <? length (_commands p))%nat eqn:Hlt.
  - apply Nat.ltb_lt in Hlt.
    replace (length (_commands p) - i)%nat
      with (S (length (_commands p) - S i)) by lia.
    unfold run_in_order. cbn [seq for_each]. unfold bind.
    pose proof (_run_static i p) as Hs.
    destruct (_run i p) as [[[]|e] p'].
    + simpl in Hs. apply static_commands in Hs.
      destruct (IH (S i) p') as (ys & Hd & Hys & Hle & Hok);
        [rewrite Hs; lia | rewrite Hs; lia |].
      rewrite Hs in *. replace (i + 1)%nat with (S i) by lia.
      unfold run_in_order in Hd. rewrite Hd.
      exists ((S i, length (_commands p)) :: ys).
      split; [done|].
      split; [cbn [length seq]; rewrite fmap_cons; by f_equal|].
      cbn [length]. split; [lia|].
      intros Hr. rewrite (Hok Hr). lia.
    + exists []. simpl. split; [done|]. split; [done|]. split; [lia|done].
  - apply Nat.ltb_ge in Hlt.
    replace (length (_commands p) - i)%nat with 0%nat by lia.
    exists []. by simpl.
Qed.

Lemma initialize_context_state p : (initialize_context p).2 = p.
Proof.
  unfold initialize_context.
  by destruct ((for_each (_containers p) _ ;;; for_each (_head p) _) ch_new)
    as [[[]|e] ch].
Qed.

Lemma run_start_eq p :
  run_start p =
  match (validate "Can't run an incomplete PartialProtocol." p).1 with
  | Ok _ =>
      match (initialize_context p).1 with
      | Ok ch => (Ok (0%nat, length (_commands p)), set_context_handler ch p)
      | Raise e => (Raise e, p)
      end
  | Raise e => (Raise e, p)
  end.
Proof.
  unfold run_start.
  pose proof (validate_state "Can't run an incomplete PartialProtocol." p) as Hv.
  destruct (validate _ p) as [[[]|e] p0] eqn:Hval; simpl in Hv; subst p0.
  - rewrite (bind_ok_l _ _ _ _ _ Hval).
    pose proof (initialize_context_state p) as Hi.
    destruct (initialize_context p) as [[ch|e] p1] eqn:Hinit; simpl in Hi; subst p1.
    + by rewrite (bind_ok_l _ _ _ _ _ Hinit).
    + by rewrite (bind_raise_l _ _ _ _ _ Hinit).
  - by rewrite (bind_raise_l _ _ _ _ _ Hval).
Qed.

Lemma run_start_cases p :
  (exists ch, run_start p = (Ok (0%nat, length (_commands p)), set_context_handler ch p)
              /\ (initialize_context p).1 = Ok ch)
  \/ (exists e, run_start p = (Raise e, p)).
Proof.
  rewrite run_start_eq.
  destruct (validate _ p).1 as [[]|e]; [|right; by exists e].
  destruct (initialize_context p).1 as [ch|e]; [left; by exists ch|].
  right; by exists e.
Qed.

(** Starting a run does not look at the context the protocol holds. *)
Lemma run_start_context c p :
  run_start (set_context_handler c p) =
  match run_start p with
  | (Ok y, p0) => (Ok y, p0)
  | (Raise e, _) => (Raise e, set_context_handler c p)
  end.
Proof.
  rewrite !run_start_eq.
  assert ((validate "Can't run an incomplete PartialProtocol."
             (set_context_handler c p)).1
          = (validate "Can't run an incomplete PartialProtocol." p).1) as ->.
  { unfold validate, bind, gets. simpl.
    destruct (_partial_proxy p) as [px|]; [|done]. by destruct (negb _). }
  assert ((initialize_context (set_context_handler c p)).1
          = (initialize_context p).1) as ->.
  { unfold initialize_context. simpl.
    by destruct ((for_each (_containers p) _ ;;; for_each (_head p) _) ch_new)
      as [[[]|e] ch]. }
  destruct (validate _ p).1 as [[]|e]; [|done].
  by destruct (initialize_context p).1.
Qed.

Lemma drain_created fuel p :
  drain (S fuel) GenCreated p =
  match run_start p with
  | (Ok y, p0) =>
      match drain fuel (GenSuspended 0) p0 with
      | Some (ys, r, p') => Some (y :: ys, r, p')
      | None => None
      end
  | (Raise e, p0) => Some ([], Raise e, p0)
  end.
Proof. cbn [drain run_next]. by destruct (run_start p) as [[y|e] p0]. Qed.

(** Draining a new generator: [n + 2] resumptions are enough. *)
Lemma drain_created_enough p :
  let n := length (_commands p) in
  exists ys,
    drain (n + 2) GenCreated p
    = Some (ys, ((run_start ;;; run_in_order 0 n) p).1,
                ((run_start ;;; run_in_order 0 n) p).2)
    /\ ys = (fun j => (j, n)) <$> seq 0 (length ys)
    /\ (length ys <= n + 1)%nat
    /\ (((run_start ;;; run_in_order 0 n) p).1 = Ok tt ->
        length ys = (n + 1)%nat).
Proof.
  cbv zeta.
  replace (length (_commands p) + 2)%nat with (S (length (_commands p) + 1))
    by lia.
  rewrite drain_created. unfold bind.
  destruct (run_start_cases p) as [(ch & -> & _) | (e & ->)].
  - destruct (drain_suspended (length (_commands p) + 1) 0
                (set_context_handler ch p)) as (ys & Hd & Hys & Hle & Hok);
      [simpl; lia | simpl; lia |].
    simpl in Hd, Hys, Hle, Hok. rewrite Nat.sub_0_r in *. rewrite Hd.
    exists ((0%nat, length (_commands p)) :: ys).
    split; [done|].
    split; [cbn [length seq]; rewrite fmap_cons; by f_equal|].
    cbn [length]. split; [lia|]. intros Hr. rewrite (Hok Hr). lia.
  - exists []. simpl. split; [done|]. split; [done|]. split; [lia|done].
Qed.



(** [run_all] never runs out of resumptions. *)
Lemma drain_terminates p :
  exists ys,
    drain (length (_commands p) + 2) GenCreated p
    = Some (ys, ((run_start ;;; run_in_order 0 (length (_commands p))) p).1,
                ((run_start ;;; run_in_order 0 (length (_commands p))) p).2).
Proof.
  destruct (drain_created_enough p) as (ys & Hd & _).
  by exists ys.
Qed.

Lemma run_all_eq p :
  run_all p = (run_start ;;; run_in_order 0 (length (_commands p))) p.
Proof.
  unfold run_all. destruct (drain_terminates p) as [ys ->].
  by destruct ((run_start ;;; run_in_order 0 (length (_commands p))) p).
Qed.

(** What [_handler_runthrough] does put back: the list of attached
    handlers, on every exit path.  The logger is not put back but switched
    on, whatever it was. *)
Lemma _handler_runthrough_exit handler (w : World ctx H hash_t) :
  let w' := (_handler_runthrough handler w).2 in
  _handlers (w_protocol w') = _handlers (w_protocol w)
  /\ logger_disabled w' = false.
Proof.
  cbv zeta. unfold _handler_runthrough.
  unfold bind at 1, modify at 1. unfold bind at 1, gets at 1.
  unfold bind at 1. unfold in_protocol at 1, zoom, modify at 1. simpl.
  unfold try_finally, bind, modify, in_protocol, zoom. simpl.
  match goal with
  | |- _ /\ logger_disabled (let (_, _) := ?X in _).2 = _ => by destruct X
  end.
Qed.

(** [_virtual_run] never returns: it raises what the run raised, or
    [NameError] at its last statement. *)
Lemma _virtual_run_never_returns (w : World ctx H hash_t) :
  exists e, (_virtual_run w).1 = Raise e.
Proof.
  unfold _virtual_run.
  repeat (unfold bind at 1;
          match goal with
          | |- context [let (_, _) := ?m ?s in _] => destruct (m s) as [[?|?] ?]
          | |- exists e, (match ?m ?s with _ => _ end).1 = _ =>
              destruct (m s) as [[?|?] ?]
          end; simpl; [|by eexists]).
  by eexists.
Qed.

End Running.

(** * The model at work: witnesses and counterexamples *)

Module Cases.
Import Example.

#[local] Abbreviation Protocol := (Protocol Deck Recorder Structure).
#[local] Abbreviation World := (World Deck Recorder Structure).

Lemma dict_disjointb_spec {K V : Type} `{EqDecision K} (d e : dict K V) :
  dict_disjointb d e = true -> dict_disjoint d e.
Proof.
  unfold dict_disjointb, dict_disjoint. intros Hall k.
  destruct (dict_get k d) as [v|] eqn:Hd; [|by left]. right.
  rewrite forallb_forall in Hall.
  assert (exists v', In (k, v') d) as [v' Hin].
  { clear -Hd. induction d as [|[k0 v0] d IH]; [done|]. simpl in Hd.
    destruct (decide (k = k0)) as [->|].
    - exists v0. by left.
    - destruct (IH Hd) as [v' Hv']. exists v'. by right. }
  specialize (Hall _ Hin). simpl in Hall.
  apply negb_true_iff in Hall. by apply dict_in_false in Hall.
Qed.

Lemma dict_wfb_spec {K V : Type} `{EqDecision K} (d : dict K V) :
  dict_wfb d = true -> dict_wf d.
Proof. unfold dict_wfb, dict_wf. apply bool_decide_eq_true_1. Qed.

(** The deck raises nothing but [ContainerConflict] when given a
    container. *)
Lemma deck_only_container_conflict : only_container_conflict Deck.
Proof.
  intros slot name c e c'. simpl. unfold deck_add_container.
  destruct (dict_get slot (d_containers c)) as [n|]; [|done].
  destruct (decide (n = name)); [done|]. by intros [= <- _].
Qed.

(** C1 at work: slot A1 holds a microplate; declaring a tip rack there under
    the new label "Tips" raises [ContainerConflict], and the label stays. *)
Lemma add_container_keeps_label_witness :
  exists p',
    add_container (PosStr "A1") "tiprack.p200" (Some "Tips") declared
    = (Raise ContainerConflict, p')
    /\ dict_get (lower "Tips") (_container_labels p') = Some (0, 0)
    /\ _containers p' = _containers declared
    /\ p' <> declared.
Proof.
  apply (add_container_keeps_label_on_failure declared (PosStr "A1") (0, 0)
           "tiprack.p200" "Tips" ContainerConflict (_context_handler declared));
    [reflexivity | discriminate | reflexivity | reflexivity].
Defined.

(** The same for [set_info]: the name is set although the version is
    refused. *)
Lemma set_info_keeps_name_on_failure :
  let r := set_info structural_hash (Some "Renamed") None None None None
             (Some "1.x") declared in
  r.1 = Raise (ValueError "invalid literal for int()")
  /\ _name r.2 = Some "Renamed"
  /\ _name declared = None.
Proof. vm_compute. done. Qed.

(** C2 at work: [other_type] and [declared] disagree on slot A1,
    [same_type] and [declared] agree on it, and [plate_again] declares
    nothing but the microplate [declared] has in A1. *)
Lemma merge_same_slot_witness :
  ((exists a', apply_protocol structural_hash clock other_type declared
               = (Raise ContainerConflict, a'))
   /\ add structural_hash clock declared (OProtocol other_type)
      = Raise ContainerConflict)
  /\ (apply_protocol structural_hash clock same_type declared
      = apply_protocol structural_hash clock
          (without_container (0, 0) same_type) declared
      /\ (apply_protocol structural_hash clock same_type declared).1 = Ok tt
      /\ filter (fun kv => kv.1 = (0, 0))
           (_containers (apply_protocol structural_hash clock same_type declared).2)
         = [((0, 0), "microplate.96")]
      /\ add structural_hash clock declared (OProtocol same_type)
         = Ok (merged declared same_type)
      /\ filter (fun kv => kv.1 = (0, 0)) (_containers (merged declared same_type))
         = [((0, 0), "microplate.96")]
      /\ dict_get (2, 0) (_containers (merged declared same_type))
         = Some "point.trash")
  /\ (exists c, add structural_hash clock declared (OProtocol plate_again) = Ok c
                /\ _containers c = _containers declared
                /\ _commands c = _commands declared).
Proof.
  split; [|split].
  - destruct (merge_same_slot structural_hash clock declared other_type (0, 0)
                "microplate.96" "tiprack.p200") as [Hconf _];
      [reflexivity | reflexivity |].
    destruct Hconf as [Hraise Hadd];
      [discriminate | discriminate | apply deck_only_container_conflict |].
    split; [exact Hraise|].
    apply (Hadd (apply_protocol structural_hash clock declared new_protocol).2).
    vm_compute. reflexivity.
  - destruct (merge_same_slot structural_hash clock declared same_type (0, 0)
                "microplate.96" "microplate.96") as [_ Hsame];
      [reflexivity | reflexivity |].
    destruct Hsame as (Heq & _ & Hone & _ & _ & Hadd & _);
      [reflexivity | apply dict_wfb_spec; vm_compute; reflexivity |].
    split; [exact Heq|].
    assert ((apply_protocol structural_hash clock same_type declared).1 = Ok tt)
      as Hok by (vm_compute; reflexivity).
    split; [exact Hok|].
    split.
    { apply (Hone (apply_protocol structural_hash clock same_type declared).2).
      + rewrite <- Hok. by destruct (apply_protocol _ _ _ _).
      + apply dict_wfb_spec. vm_compute. reflexivity. }
    assert (add structural_hash clock declared (OProtocol same_type)
            = Ok (merged declared same_type)) as Hc by (vm_compute; reflexivity).
    split; [exact Hc|].
    split; [exact (proj2 (Hadd _ Hc))|].
    vm_compute. reflexivity.
  - destruct (merge_same_slot structural_hash clock declared plate_again (0, 0)
                "microplate.96" "microplate.96") as [_ Hsame];
      [reflexivity | reflexivity |].
    destruct Hsame as (_ & _ & _ & _ & _ & _ & Hnoop);
      [reflexivity | apply dict_wfb_spec; vm_compute; reflexivity |].
    destruct Hnoop as [_ Hadd]; try (vm_compute; reflexivity).
    { intros k v Hin. apply list_elem_of_singleton in Hin. by injection Hin as -> ->. }
    { discriminate. }
    destruct (Hadd (apply_protocol structural_hash clock declared new_protocol).2)
      as (c & Hc & Hop); [vm_compute; reflexivity|].
    exists c. split; [exact Hc|].
    unfold operational in Hop. injection Hop as ? ? ? ? ? ? ?.
    split.
    + etransitivity; [eassumption|]. vm_compute. reflexivity.
    + etransitivity; [eassumption|]. vm_compute. reflexivity.
Defined.


(** C8 refuted: [left_hand] and [right_hand] share no slot, label or axis;
    both merges return; the two documents are not hash-equal, because the
    command logs come out in different orders. *)
Lemma merge_order_shows_in_hash :
  dict_disjoint (_containers left_hand) (_containers right_hand)
  /\ dict_disjoint (_container_labels left_hand) (_container_labels right_hand)
  /\ dict_disjoint (_label_case left_hand) (_label_case right_hand)
  /\ dict_disjoint (_head left_hand) (_head right_hand)
  /\ add structural_hash clock left_hand (OProtocol right_hand)
     = Ok (merged left_hand right_hand)
  /\ add structural_hash clock right_hand (OProtocol left_hand)
     = Ok (merged right_hand left_hand)
  /\ _commands (merged left_hand right_hand)
     = _commands left_hand ++ _commands right_hand
  /\ _commands (merged right_hand left_hand)
     = _commands right_hand ++ _commands left_hand
  /\ eq_protocol structural_hash
       (merged left_hand right_hand) (merged right_hand left_hand) = false
  /\ hash structural_hash (merged left_hand right_hand)
     <> hash structural_hash (merged right_hand left_hand).
Proof.
  split; [apply dict_disjointb_spec; vm_compute; reflexivity|].
  split; [apply dict_disjointb_spec; vm_compute; reflexivity|].
  split; [apply dict_disjointb_spec; vm_compute; reflexivity|].
  split; [apply dict_disjointb_spec; vm_compute; reflexivity|].
  split; [vm_compute; reflexivity|].
  split; [vm_compute; reflexivity|].
  split; [vm_compute; reflexivity|].
  split; [vm_compute; reflexivity|].
  split; [vm_compute; reflexivity|].
  intros Heq.
  apply (f_equal (fun s => (s_commands s !! 0%nat) ≫= (fun c => c !! "volume")))
    in Heq.
  vm_compute in Heq. discriminate.
Qed.

Lemma all_wfb_spec (l : list Command) :
  forallb dict_wfb l = true -> Forall dict_wf l.
Proof.
  intros Hall. apply Forall_forall. intros c Hin.
  apply dict_wfb_spec. rewrite forallb_forall in Hall.
  apply Hall. by apply list_elem_of_In.
Qed.

(** C8 at work: with commands on one side only, the two merges are
    hash-equal. *)
Lemma merge_commutes_witness :
  hash structural_hash (merged left_hand right_hand_declarations)
  = hash structural_hash (merged right_hand_declarations left_hand)
  /\ eq_protocol structural_hash
       (merged left_hand right_hand_declarations)
       (merged right_hand_declarations left_hand) = true.
Proof.
  apply (merge_commutes_up_to_command_order structural_hash clock
           left_hand right_hand_declarations).
  - vm_compute. reflexivity.
  - vm_compute. reflexivity.
  - apply dict_disjointb_spec. vm_compute. reflexivity.
  - apply dict_disjointb_spec. vm_compute. reflexivity.
  - apply dict_disjointb_spec. vm_compute. reflexivity.
  - apply dict_disjointb_spec. vm_compute. reflexivity.
  - apply all_wfb_spec. vm_compute. reflexivity.
  - apply all_wfb_spec. vm_compute. reflexivity.
  - right. vm_compute. reflexivity.
Defined.

(** C6 at work.  A virtual run of the document with a motor attached fails
    for want of a trash container: afterwards the new, simulated motor is the
    attached handler and the protocol's motor, not the one that was.  With a
    trash container the run goes through and ends in [NameError]; the motor
    is put back, the list of handlers is not.  And a run-through started
    with logging disabled leaves it enabled. *)
Theorem virtual_run_does_not_restore :
  let w := {| w_protocol := with_motor; logger_disabled := false |} in
  let r := _virtual_run w in
  let w2 := {| w_protocol := with_motor_and_trash; logger_disabled := false |} in
  let r2 := _virtual_run w2 in
  let w3 := {| w_protocol := transferred; logger_disabled := true |} in
  let r3 := run_requirements w3 in
  (r.1 = Raise ContainerMissing
   /\ _handlers (w_protocol w) = [0%nat]
   /\ _handlers (w_protocol r.2) = [1%nat]
   /\ _motor_handler (w_protocol w) = Some 0%nat
   /\ _motor_handler (w_protocol r.2) = Some 1%nat)
  /\ (r2.1 = Raise (NameError "logger")
      /\ _handlers (w_protocol w2) = [0%nat]
      /\ _handlers (w_protocol r2.2) = [1%nat]
      /\ _motor_handler (w_protocol r2.2) = Some 0%nat)
  /\ (_handlers (w_protocol r3.2) = _handlers (w_protocol w3)
      /\ logger_disabled w3 = true
      /\ logger_disabled r3.2 = false).
Proof.
  vm_compute.
  split; [|split]; repeat (split; [reflexivity|]); reflexivity.
Qed.

(** The general half of it: a run-through puts the list of handlers back on
    every exit path, and leaves the logger enabled whatever it was. *)
Lemma handler_runthrough_exit_example handler (w : World) :
  _handlers (w_protocol (_handler_runthrough handler w).2)
  = _handlers (w_protocol w)
  /\ logger_disabled (_handler_runthrough handler w).2 = false.
Proof. apply _handler_runthrough_exit. Qed.

(** C9 at work: the deck is told the top, blow-out and drop-tip offsets of
    the axis and never the bottom. *)
Lemma calibrate_instrument_example :
  d_instrument_calibration
    (_context_handler
       (exec (calibrate_instrument "A" (VNum (PyInt 1)) (VNum (PyInt 2))
                (VNum (PyInt 3)) (VNum (PyInt 4))) declared))
  = [("A", [("top", VNum (PyInt 1)); ("blowout", VNum (PyInt 2));
            ("droptip", VNum (PyInt 3))])].
Proof. reflexivity. Qed.

(** C5 at work: the transferred document, with a recording handler attached,
    runs its one command between the pairs (0, 1) and (1, 1), and the
    handler sees the calls in order. *)
Lemma run_example :
  let p := exec (attach_handler (AClass (UserHandler "recorder"))) transferred in
  match drain 3 GenCreated p with
  | Some (ys, r, p') =>
      ys = [(0, 1); (1, 1)]%nat /\ r = Ok tt
      /\ (r_calls <$> handler_objs p')
         = [["setup"; "before_each"; "transfer"; "after_each"]]
  | None => False
  end.
Proof. vm_compute. split; [reflexivity|]. split; reflexivity. Qed.

(** C4 at work: the declared document has version 0.0.0 and no hash on
    record; a minor bump makes it 0.0.1, and a second bump, even a major
    one, returns 0.0.1 again and changes nothing. *)
Lemma bump_version_twice_witness :
  exists p',
    bump_version structural_hash "minor" declared = (Ok "0.0.1", p')
    /\ _version declared = [0; 0; 0]
    /\ _version p' = [0; 0; 1]
    /\ bump_version structural_hash "major" p' = (Ok "0.0.1", p').
Proof.
  destruct (bump_version_idempotent structural_hash declared "minor" "major")
    as (_ & _ & _ & Hbump).
  destruct (Hbump 0 0 0 [0; 0; 1]) as (H1 & H2 & _ & _ & _ & H3).
  - vm_compute. discriminate.
  - reflexivity.
  - left. split; reflexivity.
  - eexists. split; [exact H1|]. split; [reflexivity|]. split; [exact H2|].
    exact H3.
Defined.








End Cases.

(** * Further properties of the code *)

(** ** The exception classes *)

(** X1: the family test the model uses for [except ProtocolException] is
    subclassing in the hierarchy the module declares; every class but
    [PartialProtocolException] is in that family; subclassing is
    antisymmetric; every class is found under its own name, and the two names
    [MissingContainer] and [MissingCommand] that protocol.py asks the module
    for are not defined in it. *)
Theorem exception_taxonomy :
  (forall e, is_ProtocolException e
             = match class_of e with
               | Some c => exceptions.issubclass c exceptions.ProtocolException
               | None => false
               end)
  /\ (forall e, is_ProtocolConflict e
                = match class_of e with
                  | Some c => exceptions.issubclass c exceptions.ProtocolConflict
                  | None => false
                  end)
  /\ (forall c, exceptions.issubclass c exceptions.ProtocolException
                = negb (bool_decide (c = exceptions.PartialProtocolException)))
  /\ (forall c d, exceptions.issubclass c d = true ->
                  exceptions.issubclass d c = true -> c = d)
  /\ (forall c d e, exceptions.issubclass c d = true ->
                    exceptions.issubclass d e = true ->
                    exceptions.issubclass c e = true)
  /\ (forall c, exceptions.lookup (exceptions.name c) = Some c)
  /\ exceptions.lookup "MissingContainer" = None
  /\ exceptions.lookup "MissingCommand" = None.
Proof.
  split; [intros []; reflexivity|].
  split; [intros []; reflexivity|].
  split; [intros []; reflexivity|].
  split; [intros [] []; vm_compute; congruence|].
  split; [intros [] [] []; vm_compute; congruence|].
  split; [intros []; reflexivity|].
  split; reflexivity.
Qed.

Section Slots.
Context {ctx H hash_t : Type}.
Context `{!ContextHandler ctx} `{!ProtocolHandler H ctx}.
#[local] Abbreviation Protocol := (Protocol ctx H hash_t).
Implicit Types (p : Protocol).


End Slots.

(** ** Versions and releases *)

Section Releases.
Context {ctx H hash_t : Type} `{EqDecision hash_t}.
Context `{!ContextHandler ctx} `{!ProtocolHandler H ctx}.
Variable hash_data : Structure -> hash_t.
#[local] Abbreviation Protocol := (Protocol ctx H hash_t).
#[local] Abbreviation World := (World ctx H hash_t).
Implicit Types (p q : Protocol) (w : World).

(** X3: the version string of a protocol, given to [set_info], gives back the
    version it was written from; the call records the hash of the document
    as it is, so the bump that follows is a no-op whatever its impact. *)
Theorem set_info_version_round_trip p q :
  _version q <> [] ->
  exists p',
    set_info hash_data None None None None None (Some (version q)) p = (Ok tt, p')
    /\ _version p' = _version q
    /\ version p' = version q
    /\ _version_hash p' = Some (hash hash_data p')
    /\ hash hash_data p' = hash hash_data p
    /\ (forall impact, bump_version hash_data impact p' = (Ok (version q), p')).
Proof.
  intros Hq.
  pose proof (parse_version_version q Hq) as Hparse.
  eexists. split.
  { unfold set_info, assign_some, bind, ret, lift_res, modify.
    rewrite Hparse. reflexivity. }
  split; [reflexivity|]. split; [reflexivity|]. split; [reflexivity|].
  split; [reflexivity|].
  intros impact. unfold bump_version. rewrite decide_True by reflexivity.
  reflexivity.
Qed.

(** X4: what a bump does to the version.  When the document has changed
    since the hash was last recorded, a minor bump adds one to the last
    number, a feature bump adds one to the middle number and resets the last,
    a major bump adds one to the first and resets the others, the hash is
    recorded, and any other impact is a [ValueError] that changes nothing.
    When the document has not changed, every impact string is accepted, valid
    or not. *)
Theorem bump_version_impacts p major feature minor :
  _version p = [major; feature; minor] ->
  (_version_hash p <> Some (hash hash_data p) ->
   let bumped v := set_version_hash (Some (hash hash_data p)) (set_version v p) in
   bump_version hash_data "minor" p
   = (Ok (version (bumped [major; feature; minor + 1])),
      bumped [major; feature; minor + 1])
   /\ bump_version hash_data "feature" p
      = (Ok (version (bumped [major; feature + 1; 0])),
         bumped [major; feature + 1; 0])
   /\ bump_version hash_data "major" p
      = (Ok (version (bumped [major + 1; 0; 0])), bumped [major + 1; 0; 0])
   /\ (forall impact, impact ∉ ["minor"; "feature"; "major"] ->
         bump_version hash_data impact p
         = (Raise (ValueError "Impact must be one of: minor, feature, major."), p))
   /\ (forall v, hash hash_data (bumped v) = hash hash_data p))
  /\ (_version_hash p = Some (hash hash_data p) ->
      forall impact, bump_version hash_data impact p = (Ok (version p), p)).
Proof.
  intros Hv. split.
  - intros Hstale. cbv zeta. unfold bump_version.
    destruct (decide (Some (hash hash_data p) = _version_hash p)) as [Heq|_];
      [congruence|].
    rewrite Hv.
    split; [reflexivity|]. split; [reflexivity|]. split; [reflexivity|].
    split; [|reflexivity].
    intros impact Hnot.
    rewrite !decide_False; [reflexivity| | |];
      intros ->; apply Hnot; set_solver.
  - intros Hfresh impact. unfold bump_version.
    destruct (decide (Some (hash hash_data p) = _version_hash p)) as [_|Hne];
      [reflexivity|congruence].
Qed.

(** X5: an invalid partial protocol can be neither run nor exported: the
    first resumption of [run()], [run_all()] and [export] raise
    [PartialProtocolException] with the problems joined by semicolons, before
    anything is changed; and that exception is outside the
    [ProtocolException] family. *)
Theorem invalid_partial_blocks_run_and_export p px formatter validate_run logger :
  _partial_proxy p = Some px ->
  is_valid px = false ->
  let told msg :=
    PartialProtocolException
      (msg +:+ " Problems: " +:+ join_with "; " (problems px)) in
  let w := {| w_protocol := p; logger_disabled := logger |} in
  run_next GenCreated p
  = (Raise (told "Can't run an incomplete PartialProtocol."), GenDone, p)
  /\ run_all p = (Raise (told "Can't run an incomplete PartialProtocol."), p)
  /\ export hash_data formatter validate_run w
     = (Raise (told "Can't export invalid PartialProtocol."), w)
  /\ (forall msg, is_ProtocolException (told msg) = false).
Proof.
  intros Hpx Hinv told w.
  assert (Hval : forall msg, validate msg p = (Raise (told msg), p)).
  { intros msg. unfold validate, bind, gets. rewrite Hpx, Hinv. reflexivity. }
  assert (Hstart : run_start p
                   = (Raise (told "Can't run an incomplete PartialProtocol."), p)).
  { rewrite run_start_eq, Hval. reflexivity. }
  split; [simpl; by rewrite Hstart|].
  split.
  { unfold run_all. rewrite Nat.add_comm. simpl drain.
    unfold run_next. rewrite Hstart. reflexivity. }
  split; [|reflexivity].
  unfold export, in_protocol, zoom, bind. simpl w_protocol.
  rewrite Hval. reflexivity.
Qed.

End Releases.

(** ** Handlers and runs *)

Section Attaching.
Context {ctx H hash_t : Type}.
Context `{!ContextHandler ctx} `{!ProtocolHandler H ctx}.
#[local] Abbreviation Protocol := (Protocol ctx H hash_t).
#[local] Abbreviation World := (World ctx H hash_t).
Implicit Types (p q : Protocol) (w : World).

Lemma static_document p q : static p = static q -> document p = document q.
Proof. unfold static, document. congruence. Qed.

Lemma attach_handler_class c p :
  attach_handler (AClass c) p =
  match h_setup (h_new c, _context_handler p) with
  | (Ok _, (o, ch)) =>
      (Ok (length (handler_objs p)),
       set_handlers (_handlers p ++ [length (handler_objs p)])
         (set_handler_objs (handler_objs p ++ [o]) (set_context_handler ch p)))
  | (Raise e, (o, ch)) =>
      (Raise e, set_handler_objs (handler_objs p ++ [o]) (set_context_handler ch p))
  end.
Proof.
  unfold attach_handler, bind, on_handler, modify, ret. simpl.
  rewrite lookup_app_r by lia. rewrite Nat.sub_diag. simpl.
  destruct (h_setup (h_new c, _context_handler p)) as [[[]|e] [o ch]]; simpl;
    rewrite insert_app_r_alt by lia; rewrite Nat.sub_diag; reflexivity.
Qed.

(** X6: attaching a handler class makes a new handler object and calls its
    [setup] on the current context before the handler goes on the list.  If
    [setup] returns, the handler is the last of [_handlers] and the call
    returns it; if [setup] raises, the list of attached handlers is as it
    was.  Nothing else of the document changes either way. *)
Theorem attach_handler_outcomes c p :
  let h := length (handler_objs p) in
  let r := attach_handler (AClass c) p in
  match h_setup (h_new c, _context_handler p) with
  | (Ok _, (o, ch)) =>
      r.1 = Ok h
      /\ _handlers r.2 = _handlers p ++ [h]
      /\ handler_objs r.2 = handler_objs p ++ [o]
      /\ _context_handler r.2 = ch
      /\ document r.2 = document (set_handlers (_handlers p ++ [h]) p)
  | (Raise e, (o, ch)) =>
      r.1 = Raise e
      /\ _handlers r.2 = _handlers p
      /\ handler_objs r.2 = handler_objs p ++ [o]
      /\ _context_handler r.2 = ch
      /\ document r.2 = document p
  end.
Proof.
  cbv zeta. rewrite attach_handler_class.
  destruct (h_setup (h_new c, _context_handler p)) as [[[]|e] [o ch]]; simpl;
    repeat split.
Qed.

(** X7: [attach_motor] puts the new motor handler on the list and makes it
    the motor handler before it connects (with a port) or simulates
    (without): when that call raises, the handler stays attached and stays
    the motor handler. *)
Theorem attach_motor_outcomes port p :
  let r := attach_motor port p in
  let link := match port with
              | Some port => h_connect port
              | None => h_simulate
              end in
  match attach_handler (AClass MotorControlHandler) p with
  | (Ok h, p1) =>
      r = (let (r2, p2) := on_handler h link (set_motor_handler (Some h) p1) in
           (match r2 with Ok _ => Ok h | Raise e => Raise e end, p2))
      /\ _motor_handler r.2 = Some h
      /\ _handlers r.2 = _handlers p ++ [h]
      /\ h = length (handler_objs p)
  | (Raise e, p1) =>
      r = (Raise e, p1)
      /\ _motor_handler r.2 = _motor_handler p
      /\ _handlers r.2 = _handlers p
  end.
Proof.
  cbv zeta.
  destruct (attach_handler (AClass MotorControlHandler) p) as [[h|e] p1] eqn:Ha.
  - assert (Hh : h = length (handler_objs p)
                 /\ _handlers p1 = _handlers p ++ [h]).
    { rewrite attach_handler_class in Ha.
      destruct (h_setup _) as [[[]|e] [o ch]]; simplify_eq; by split. }
    destruct Hh as [Hh Hhs].
    assert (Heq : attach_motor port p
                  = (let (r2, p2) :=
                       on_handler h
                         (match port with
                          | Some port => h_connect port
                          | None => h_simulate
                          end) (set_motor_handler (Some h) p1) in
                     (match r2 with Ok _ => Ok h | Raise e => Raise e end, p2))).
    { unfold attach_motor, bind. rewrite Ha. unfold modify, ret.
      destruct port as [port|];
        destruct (on_handler h _ _) as [[[]|e] p2]; reflexivity. }
    split; [exact Heq|].
    rewrite Heq.
    pose proof (on_handler_static h
                  (match port with
                   | Some port => h_connect port
                   | None => h_simulate
                   end) (set_motor_handler (Some h) p1)) as Hs.
    destruct (on_handler h _ _) as [r2 p2]. simpl in *.
    unfold static in Hs. simplify_eq. simpl in *.
    repeat split; congruence.
  - assert (Hhs : _handlers p1 = _handlers p /\ _motor_handler p1 = _motor_handler p).
    { rewrite attach_handler_class in Ha.
      destruct (h_setup _) as [[[]|e'] [o ch]]; simplify_eq; by split. }
    unfold attach_motor, bind. rewrite Ha. simpl. tauto.
Qed.

Lemma run_next_static g p : static (run_next g p).2 = static p.
Proof.
  destruct g as [|i|]; [| |reflexivity].
  - unfold run_next.
    destruct (run_start_cases p) as [(ch & -> & _)|(e & ->)]; reflexivity.
  - rewrite run_next_suspended.
    destruct (i <? length (_commands p))%nat; [|reflexivity].
    pose proof (_run_static i p) as Hs.
    destruct (_run i p) as [[[]|e] p']; exact Hs.
Qed.

Lemma drain_static fuel g p ys r p' :
  drain fuel g p = Some (ys, r, p') -> static p' = static p.
Proof.
  revert g p ys r p'. induction fuel as [|fuel IH]; [discriminate|].
  intros g p ys r p'. simpl.
  pose proof (run_next_static g p) as Hs.
  destruct (run_next g p) as [[[[y|]|e] g'] p1]; simpl in Hs.
  - destruct (drain fuel g' p1) as [[[ys1 r1] p2]|] eqn:Hd; [|discriminate].
    intros [= <- <- <-]. rewrite (IH _ _ _ _ _ Hd). exact Hs.
  - intros [= <- <- <-]. exact Hs.
  - intros [= <- <- <-]. exact Hs.
Qed.

Lemma run_all_static p : static (run_all p).2 = static p.
Proof.
  unfold run_all.
  destruct (drain _ GenCreated p) as [[[ys r] p']|] eqn:Hd; [|reflexivity].
  exact (drain_static _ _ _ _ _ _ Hd).
Qed.

(** X8: running a protocol never changes the document.  Whatever a
    resumption of [run()] does, and however a run ends, the fields of the
    protocol (declarations, labels, command log, metadata, version and its
    hash, the list of attached handlers, the motor handler) are as before,
    and no handler object is created; a run only acts on the context and on
    the handlers' own states. *)
Theorem run_leaves_document_unchanged p :
  (forall g, static (run_next g p).2 = static p)
  /\ (forall fuel g ys r p',
        drain fuel g p = Some (ys, r, p') ->
        static p' = static p /\ document p' = document p)
  /\ static (run_all p).2 = static p
  /\ document (run_all p).2 = document p.
Proof.
  split; [intros g; apply run_next_static|].
  split.
  { intros fuel g ys r p' Hd.
    pose proof (drain_static _ _ _ _ _ _ Hd) as Hs.
    split; [exact Hs|]. by apply static_document. }
  split; [apply run_all_static|].
  apply static_document, run_all_static.
Qed.

Lemma document_set_handlers hs p q :
  document p = document q ->
  document (set_handlers hs p) = document (set_handlers hs q).
Proof. unfold document. simpl. congruence. Qed.

Lemma attach_handler_document handler p :
  document (attach_handler handler p).2
  = document (set_handlers (_handlers (attach_handler handler p).2) p).
Proof.
  destruct handler as [c|h].
  - rewrite attach_handler_class.
    destruct (h_setup _) as [[[]|e] [o ch]]; reflexivity.
  - unfold attach_handler, bind, ret, modify.
    pose proof (on_handler_static h h_setup p) as Hs.
    apply static_document in Hs.
    destruct (on_handler h h_setup p) as [[[]|e] p1]; simpl in *.
    + by apply document_set_handlers.
    + rewrite Hs. unfold document in *. simpl. congruence.
Qed.

(** X9: a run-through on a virtualized handler leaves the document as it
    was on every exit: the list of attached handlers is the one from before
    the call (the handler that was run is not on it), and declarations,
    command log, metadata and version are untouched; the root logger is left
    enabled.  The same holds for [run_requirements]. *)
Theorem handler_runthrough_restores_document handler w :
  let w' := (_handler_runthrough handler w).2 in
  let w'' := (run_requirements w).2 in
  document (w_protocol w') = document (w_protocol w)
  /\ logger_disabled w' = false
  /\ document (w_protocol w'') = document (w_protocol w)
  /\ logger_disabled w'' = false.
Proof.
  assert (Hgen : forall handler w,
             document (w_protocol (_handler_runthrough handler w).2)
             = document (w_protocol w)
             /\ logger_disabled (_handler_runthrough handler w).2 = false).
  { clear. intros handler [p lg].
    unfold _handler_runthrough, bind, modify, gets, try_finally, in_protocol,
      zoom, ret. simpl.
    pose proof (attach_handler_document handler (set_handlers [] p)) as Ha.
    destruct (attach_handler handler (set_handlers [] p)) as [[h|e] p1]; simpl in *.
    - pose proof (run_all_static p1) as Hr.
      destruct (run_all p1) as [[[]|e] p2]; simpl in *;
        apply static_document in Hr; unfold document in *; simpl in *;
        (split; [congruence|reflexivity]).
    - unfold document in *; simpl in *; (split; [congruence|reflexivity]). }
  cbv zeta. destruct (Hgen handler w) as [H1 H2].
  split; [exact H1|]. split; [exact H2|].
  unfold run_requirements, bind, gets.
  destruct (Hgen (AClass RequirementsHandler) w) as [H3 H4].
  destruct (_handler_runthrough (AClass RequirementsHandler) w) as [[h|e] w1];
    simpl in *.
  - destruct (handler_objs (w_protocol w1) !! h); simpl; by split.
  - by split.
Qed.

End Attaching.

Section Exporting.
Context {ctx H hash_t : Type} `{EqDecision hash_t}.
Context `{!ContextHandler ctx} `{!ProtocolHandler H ctx}.
Variable hash_data : Structure -> hash_t.
#[local] Abbreviation Protocol := (Protocol ctx H hash_t).
#[local] Abbreviation World := (World ctx H hash_t).
Implicit Types (p q : Protocol) (w : World).


(** X10: [export] with [validate_run=True] never returns a document: every
    such call ends in an exception, whatever the protocol and the
    formatter. *)
Theorem export_validate_run_never_returns formatter w :
  exists e, (export hash_data formatter true w).1 = Raise e.
Proof.
  unfold export, bind, when, in_protocol, zoom.
  destruct (validate _ (w_protocol w)) as [[[]|e] p1]; [|by eexists].
  simpl.
  destruct (bump_version hash_data "minor" p1) as [[v|e] p2]; [|by eexists].
  simpl.
  destruct (_virtual_run_never_returns (set_w_protocol p2 (set_w_protocol p1 w)))
    as [e He].
  destruct (_virtual_run _) as [[[]|e'] w3]; simpl in He; [discriminate|].
  by eexists.
Qed.


End Exporting.

Section Calibrating.
Context {ctx H hash_t : Type}.
Context `{!ContextHandler ctx} `{!ProtocolHandler H ctx}.
#[local] Abbreviation Protocol := (Protocol ctx H hash_t).
Implicit Types (p q : Protocol).

Lemma calibrate_context position kw p :
  exists c, (calibrate position kw p).2 = set_context_handler c p.
Proof.
  assert (Hid : p = set_context_handler (_context_handler p) p) by by destruct p.
  unfold calibrate, bind, ret, lift_res, in_context, zoom.
  destruct (contains_char ":" position).
  - pose proof (_normalize_address_state position p) as Hs.
    destruct (_normalize_address position p) as [[a|e] p1]; simpl in Hs; subst p1.
    + simpl. destruct (ch_calibrate _ _ _) as [r c]. by eexists.
    + by eexists.
  - destruct (normalize_position (PosStr position)) as [q|e]; simpl.
    + destruct (ch_calibrate _ _ _) as [r c]. by eexists.
    + by eexists.
Qed.

(** X12: a calibration is not part of the document.  [calibrate] and
    [calibrate_instrument] change nothing of a protocol but its current
    context ([_calibration] stays as it was), and a run rebuilds the context
    from the containers and the instruments: a run that starts after a
    calibration starts in the state it would have started in without it. *)
Theorem calibration_is_not_kept position kw axis top blowout droptip bottom p :
  let p1 := (calibrate position kw p).2 in
  let p2 := (calibrate_instrument axis top blowout droptip bottom p).2 in
  static p1 = static p
  /\ static p2 = static p
  /\ handler_objs p1 = handler_objs p
  /\ handler_objs p2 = handler_objs p
  /\ (forall y q, run_start p = (Ok y, q) ->
                  run_start p1 = (Ok y, q) /\ run_start p2 = (Ok y, q))
  /\ (forall e, (run_start p).1 = Raise e ->
                (run_start p1).1 = Raise e /\ (run_start p2).1 = Raise e).
Proof.
  cbv zeta.
  destruct (calibrate_context position kw p) as [c1 ->].
  assert (H2 : exists c, (calibrate_instrument axis top blowout droptip bottom p).2
                         = set_context_handler c p).
  { unfold calibrate_instrument, in_context, zoom.
    destruct (ch_calibrate_instrument _ _ _) as [r c]. by eexists. }
  destruct H2 as [c2 ->].
  split; [reflexivity|]. split; [reflexivity|].
  split; [reflexivity|]. split; [reflexivity|].
  split.
  - intros y q Hs. rewrite !run_start_context, Hs. by split.
  - intros e Hs. rewrite !run_start_context.
    destruct (run_start p) as [[y|e'] q]; simpl in Hs; [discriminate|].
    by split.
Qed.

End Calibrating.

(** ** Commands *)

Lemma dict_set_fresh {K V : Type} `{EqDecision K} (d : dict K V) k v :
  dict_get k d = None -> dict_set k v d = d ++ [(k, v)].
Proof.
  induction d as [|[k' v'] d IH]; simpl; [reflexivity|].
  destruct (decide (k = k')); [discriminate|]. intros Hn. by rewrite IH.
Qed.

Lemma dict_get_not_key {K V : Type} `{EqDecision K} (d : dict K V) k :
  dict_get k d = None <-> k ∉ d.*1.
Proof.
  induction d as [|[k' v'] d IH]; simpl.
  - split; [intros _; apply not_elem_of_nil|reflexivity].
  - rewrite not_elem_of_cons. destruct (decide (k = k')) as [->|Hne].
    + split; [discriminate|intros [? _]; congruence].
    + rewrite IH. tauto.
Qed.

Lemma dict_update_fresh {K V : Type} `{EqDecision K} (d e : dict K V) :
  dict_wf (d ++ e) -> dict_update d e = d ++ e.
Proof.
  unfold dict_update, dict_wf. revert d.
  induction e as [|[k v] e IH]; intros d Hwf; simpl.
  - by rewrite app_nil_r.
  - rewrite dict_set_fresh.
    + rewrite IH; [by rewrite <- app_assoc|].
      by rewrite <- app_assoc.
    + apply dict_get_not_key. rewrite fmap_app in Hwf. simpl in Hwf.
      apply NoDup_app in Hwf as (_ & Hdis & _). intros Hin.
      apply (Hdis _ Hin). left.
Qed.

Lemma dict_del_fresh {K V : Type} `{EqDecision K} (d : dict K V) k :
  dict_get k d = None -> dict_del k d = d.
Proof.
  induction d as [|[k' v'] d IH]; simpl; [reflexivity|].
  destruct (decide (k = k')); [discriminate|]. intros Hn. by rewrite IH.
Qed.

Section Commands.
Context {ctx H hash_t : Type}.
Context `{!ContextHandler ctx} `{!ProtocolHandler H ctx}.
#[local] Abbreviation Protocol := (Protocol ctx H hash_t).
Implicit Types (p q : Protocol).

Lemma set_context_handler_id p : set_context_handler (_context_handler p) p = p.
Proof. by destruct p. Qed.

Lemma add_command_outcome command kw p :
  (exists c,
      add_command command kw p
      = (Ok tt, set_commands
                  (_commands p ++ [dict_update [("command", VStr command)] kw])
                  (set_context_handler c p)))
  \/ (exists e c, add_command command kw p = (Raise e, set_context_handler c p)).
Proof.
  unfold add_command, _run_in_context_handler, bind, modify.
  destruct (ch_method command) as [method|].
  - unfold in_context, zoom.
    destruct (method kw (_context_handler p)) as [[[]|e] c].
    + left. by exists c.
    + right. by exists e, c.
  - right. exists (AttributeError command), (_context_handler p).
    by rewrite set_context_handler_id.
Qed.

Lemma raises_unchanged {A} (m : M Protocol A) name k p :
  (m p).2 = p ->
  (forall a, appends_or_raises name (k a p) p) ->
  appends_or_raises name (bind m k p) p.
Proof.
  intros Hs Hk. unfold bind. destruct (m p) as [[a|e] p1]; simpl in Hs; subst p1.
  - apply Hk.
  - right. exists e, (_context_handler p). by rewrite set_context_handler_id.
Qed.

Lemma group_args_state arg_names item t p :
  (group_args arg_names item t p).2 = p.
Proof.
  revert item t. induction arg_names as [|a names IH]; intros item t; simpl.
  - reflexivity.
  - destruct item as [|v item]; [reflexivity|].
    unfold bind.
    assert (Hv : forall (m : M Protocol PyVal), (m p).2 = p ->
              (match m p with
               | (Ok a0, s') => group_args names item (dict_set a a0 t) s'
               | (Raise e, s') => (Raise e, s')
               end).2 = p).
    { intros m Hm. destruct (m p) as [[a0|e] p1]; simpl in Hm; subst p1;
        [apply IH|reflexivity]. }
    apply Hv. destruct (bool_decide _); [|reflexivity].
    unfold bind, ret. destruct v as [s|o]; simpl.
    + pose proof (_normalize_address_state s p) as Hs.
      destruct (_normalize_address s p) as [[x|e] p1]; exact Hs.
    + destruct (negb _); reflexivity.
Qed.

Lemma group_wells_state wells arg_names volume defaults transfers vols p :
  (group_wells wells arg_names volume defaults transfers vols p).2 = p.
Proof.
  revert defaults transfers vols.
  induction wells as [|item wells IH]; intros defaults transfers vols; simpl.
  - reflexivity.
  - unfold bind, lift_res.
    pose proof (group_args_state arg_names item [] p) as Ha.
    destruct (group_args arg_names item [] p) as [[[item' t]|e] p1];
      simpl in Ha; subst p1; [|reflexivity].
    destruct (match item' with [x] => _ | _ => _ end) as [[[options ul] ml]|e];
      [|reflexivity].
    destruct (_normalize_volume ul ml volume false) as [vol|e]; [|reflexivity].
    apply IH.
Qed.

Lemma _make_transfer_group_state wells arg_names defaults p :
  (_make_transfer_group wells arg_names defaults p).2 = p.
Proof.
  unfold _make_transfer_group, bind, lift_res, ret.
  destruct (_normalize_volume _ _ None true) as [volume|e]; [|reflexivity].
  pose proof (group_wells_state wells arg_names volume (o_more defaults) [] [] p)
    as Hg.
  destruct (group_wells _ _ _ _ _ _ p) as [[[transfers vols]|e] p1];
    simpl in Hg; subst p1; [|reflexivity].
  destruct (py_min vols); [|reflexivity].
  destruct (py_max vols); reflexivity.
Qed.

Lemma add_command_appends name kw p :
  dict_get "command" (dict_update [("command", VStr name)] kw) = Some (VStr name) ->
  appends_or_raises name (add_command name kw p) p.
Proof.
  intros Hk. destruct (add_command_outcome name kw p) as [[c ->]|(e & c & ->)].
  - left. by exists c, (dict_update [("command", VStr name)] kw).
  - right. by exists e, c.
Qed.

(** X13: every command method is all or nothing on the document.  A call of
    [transfer], [mix], [transfer_group], [distribute] or [consolidate] either
    returns, and then exactly one record has been appended to the command
    log, under the method's own name, or it raises, and then the log and
    every other field of the document are as before; only the context can
    differ. *)
Theorem command_methods_atomic p :
  (forall start end_ ul ml blowout touchtip tool,
      appends_or_raises "transfer"
        (transfer start end_ ul ml blowout touchtip tool p) p)
  /\ (forall start ml ul repetitions tool blowout touchtip,
        appends_or_raises "mix"
          (mix start ml ul repetitions tool blowout touchtip p) p)
  /\ (forall wells tool defaults,
        appends_or_raises "transfer_group" (transfer_group wells tool defaults p) p)
  /\ (forall start wells tool defaults,
        appends_or_raises "distribute" (distribute start wells tool defaults p) p)
  /\ (forall end_ wells tool defaults,
        appends_or_raises "consolidate" (consolidate end_ wells tool defaults p) p).
Proof.
  split; [|split; [|split; [|split]]].
  - intros. unfold transfer.
    apply raises_unchanged; [by destruct (_normalize_volume _ _ _ _)|intros volume].
    apply raises_unchanged; [apply get_tool_state|intros tool'].
    apply raises_unchanged; [apply _normalize_address_state|intros s].
    apply raises_unchanged; [apply _normalize_address_state|intros e].
    by apply add_command_appends.
  - intros. unfold mix.
    apply raises_unchanged; [by destruct (_normalize_volume _ _ _ _)|intros volume].
    apply raises_unchanged; [apply get_tool_state|intros tool'].
    apply raises_unchanged; [apply _normalize_address_state|intros s].
    by apply add_command_appends.
  - intros. unfold transfer_group.
    apply raises_unchanged; [apply _make_transfer_group_state|].
    intros [[transfers mn] mx].
    apply raises_unchanged; [apply get_tool_state|intros tool'].
    by apply add_command_appends.
  - intros. unfold distribute.
    apply raises_unchanged; [apply _make_transfer_group_state|].
    intros [[transfers mn] mx].
    apply raises_unchanged; [apply get_tool_state|intros tool'].
    apply raises_unchanged; [apply _normalize_address_state|intros s].
    by apply add_command_appends.
  - intros. unfold consolidate.
    apply raises_unchanged; [apply _make_transfer_group_state|].
    intros [[transfers mn] mx].
    apply raises_unchanged; [apply get_tool_state|intros tool'].
    apply raises_unchanged; [apply _normalize_address_state|intros s].
    by apply add_command_appends.
Qed.

(** X14: a command is replayed with the arguments it was validated with.
    When [add_command] returns, the record it appended holds the command name
    and, that key removed, exactly the keyword arguments of the call; so
    running that index calls the context method of that name with those
    arguments, and then the attached handlers. *)
Theorem add_command_replay command kw p p' :
  dict_wf kw ->
  dict_get "command" kw = None ->
  add_command command kw p = (Ok tt, p') ->
  exists record,
    _commands p' = _commands p ++ [record]
    /\ dict_get "command" record = Some (VStr command)
    /\ dict_del "command" record = kw
    /\ _run (length (_commands p)) p'
       = (_run_in_context_handler command kw ;;; run_on_handlers command kw) p'.
Proof.
  intros Hwf Hno Hadd.
  assert (Hrec : dict_update [("command", VStr command)] kw
                 = ("command", VStr command) :: kw).
  { apply (dict_update_fresh [("command", VStr command)] kw).
    unfold dict_wf. simpl. apply NoDup_cons. split; [|exact Hwf].
    by apply dict_get_not_key. }
  destruct (add_command_outcome command kw p) as [[c Hc]|(e & c & He)];
    [|congruence].
  rewrite Hc in Hadd. injection Hadd as <-. rewrite Hrec.
  exists (("command", VStr command) :: kw).
  split; [reflexivity|]. split; [reflexivity|].
  assert (Hdel : dict_del "command" (("command", VStr command) :: kw) = kw).
  { simpl. by apply dict_del_fresh. }
  split; [exact Hdel|].
  unfold _run, bind at 1, gets at 1. cbn [_commands set_commands].
  rewrite list_lookup_middle by reflexivity.
  change (dict_get "command" (("command", VStr command) :: kw))
    with (Some (VStr command)).
  cbv iota beta. rewrite Hdel. reflexivity.
Qed.

End Commands.

(** ** Addresses and labels *)

Lemma split_on_length sep s : length (split_on sep s) = S (count_char sep s).
Proof.
  induction s as [|c s IH]; simpl; [reflexivity|].
  destruct (Ascii.eqb c sep); simpl; [by rewrite IH|].
  destruct (split_on sep s) as [|w ws]; simpl in *; [discriminate|exact IH].
Qed.

Lemma contains_char_count c s :
  contains_char c s = false <-> count_char c s = 0%nat.
Proof.
  induction s as [|c' s IH]; simpl; [done|].
  destruct (Ascii.eqb c' c); simpl; [split; discriminate|exact IH].
Qed.

Lemma contains_char_app c s t :
  contains_char c (s +:+ t) = contains_char c s || contains_char c t.
Proof.
  induction s as [|c' s IH]; simpl; [reflexivity|].
  by rewrite IH, orb_assoc.
Qed.

Lemma first_label_app cases (a b : dict string position) pos :
  (forall l, (l, pos) ∉ a) ->
  first_label cases (a ++ b) pos = first_label cases b pos.
Proof.
  induction a as [|[l q] a IH]; intros Hno; simpl; [reflexivity|].
  destruct (decide (q = pos)) as [->|Hne].
  - exfalso. apply (Hno l). left.
  - apply IH. intros l' Hin. apply (Hno l'). by right.
Qed.

Lemma first_label_total cases (items : dict string position) pos :
  (forall l q, (l, q) ∈ items -> dict_in l cases = true) ->
  exists o, first_label cases items pos = Ok o.
Proof.
  induction items as [|[l q] items IH]; intros Hall; simpl; [by eexists|].
  destruct (decide (q = pos)) as [->|Hne].
  - assert (Hin : dict_in l cases = true) by (apply (Hall l pos); left).
    unfold dict_in in Hin. destruct (dict_get l cases); [by eexists|discriminate].
  - apply IH. intros l' q' Hin. apply (Hall l' q'). by right.
Qed.

Lemma dict_in_elem {K V : Type} `{EqDecision K} (d : dict K V) k v :
  (k, v) ∈ d -> dict_in k d = true.
Proof.
  unfold dict_in. induction d as [|[k' v'] d IH]; simpl.
  - intros Hin. by apply elem_of_nil in Hin.
  - intros Hin. destruct (decide (k = k')); [reflexivity|].
    apply elem_of_cons in Hin as [Heq|Hin]; [congruence|]. by apply IH.
Qed.

Lemma dict_in_set {K V : Type} `{EqDecision K} (d : dict K V) k v k' :
  dict_in k' (dict_set k v d) = bool_decide (k' = k) || dict_in k' d.
Proof.
  unfold dict_in. destruct (decide (k' = k)) as [->|Hne].
  - rewrite bool_decide_true by reflexivity.
    induction d as [|[k0 v0] d IH]; simpl.
    + by rewrite decide_True.
    + destruct (decide (k = k0)) as [->|Hne0]; simpl.
      * by rewrite decide_True.
      * rewrite decide_False by done. exact IH.
  - rewrite bool_decide_false by done. simpl.
    induction d as [|[k0 v0] d IH]; simpl.
    + by rewrite decide_False.
    + destruct (decide (k = k0)) as [->|Hne0]; simpl.
      * by rewrite !decide_False by done.
      * destruct (decide (k' = k0)); [reflexivity|exact IH].
Qed.

Lemma dict_in_merged {V : Type} (db dp d' : dict string V) l :
  dict_get l d' = match dict_get l (reverse db) with
                  | Some v => Some v
                  | None => dict_get l dp
                  end ->
  dict_in l d' = dict_in l db || dict_in l dp.
Proof.
  unfold dict_in. intros ->.
  destruct (dict_get_reverse_None db l) as [R1 R2].
  destruct (dict_get l (reverse db)) as [x|] eqn:E1;
    destruct (dict_get l db) as [y|] eqn:E2; simpl; try reflexivity.
  - discriminate (R2 eq_refl).
  - discriminate (R1 eq_refl).
Qed.

Section Labels.
Context {ctx H hash_t : Type} `{EqDecision hash_t}.
Context `{!ContextHandler ctx} `{!ProtocolHandler H ctx}.
Variable hash_data : Structure -> hash_t.
Variable strftime_now : string.
#[local] Abbreviation Protocol := (Protocol ctx H hash_t).
Implicit Types (p q b : Protocol).

(** X15: an address needs exactly one colon: with none, or with more than
    one, [_normalize_address] raises [ValueError] before it looks at the
    container or the well, and changes nothing. *)
Theorem _normalize_address_colons addr p :
  count_char ":" addr <> 1%nat ->
  exists msg, _normalize_address addr p = (Raise (ValueError msg), p).
Proof.
  intros Hcount. unfold _normalize_address.
  destruct (contains_char ":" addr) eqn:Hc; simpl; [|by eexists].
  pose proof (split_on_length ":" addr) as Hlen.
  destruct (split_on ":" addr) as [|container [|well [|x l]]]; simpl in Hlen.
  - by eexists.
  - injection Hlen as Hlen. symmetry in Hlen.
    apply contains_char_count in Hlen. congruence.
  - injection Hlen as Hlen. congruence.
  - by eexists.
Qed.

Lemma add_container_labelled p slot name label :
  label <> "" ->
  add_container slot name (Some label) p =
  match normalize_position slot with
  | Raise e => (Raise e, p)
  | Ok s =>
      if dict_in (lower label) (_container_labels p)
      then (Raise ContainerConflict, p)
      else
        let p1 :=
          set_container_labels
            (dict_set (lower label) s (_container_labels p))
            (if dict_in (lower label) (_label_case p) then p
             else set_label_case
                    (dict_set (lower label) label (_label_case p)) p) in
        match ch_add_container s name (_context_handler p) with
        | (Ok _, c) =>
            (Ok tt, set_containers (dict_set s name (_containers p))
                      (set_context_handler c p1))
        | (Raise e, c) => (Raise e, set_context_handler c p1)
        end
  end.
Proof.
  intros Hne. unfold add_container, bind, lift_res.
  destruct (normalize_position slot) as [s|e]; [|reflexivity]. simpl.
  destruct label as [|a label]; [done|].
  unfold gets, modify, in_context, zoom, raise. cbn beta iota.
  destruct (dict_in (lower (String a label)) (_container_labels p));
    [reflexivity|].
  destruct (dict_in (lower (String a label)) (_label_case p)); cbn;
    destruct (ch_add_container s name (_context_handler p)) as [[[]|e] c];
    reflexivity.
Qed.

Lemma add_container_labels slot name label p :
  let p' := (add_container slot name label p).2 in
  (_container_labels p' = _container_labels p /\ _label_case p' = _label_case p)
  \/ (exists l s,
        label = Some l /\ l <> "" /\ normalize_position slot = Ok s
        /\ dict_in (lower l) (_container_labels p) = false
        /\ _container_labels p' = dict_set (lower l) s (_container_labels p)
        /\ _label_case p'
           = if dict_in (lower l) (_label_case p) then _label_case p
             else dict_set (lower l) l (_label_case p)).
Proof.
  cbv zeta. destruct label as [l|].
  - destruct (decide (l = "")) as [->|Hne].
    + left. unfold add_container, bind, lift_res, ret, in_context, zoom, modify.
      destruct (normalize_position slot) as [s|e]; [|by split]. simpl.
      destruct (ch_add_container s name (_context_handler p)) as [[[]|e] c];
        by split.
    + rewrite (add_container_labelled p slot name l Hne).
      destruct (normalize_position slot) as [s|e] eqn:Hs; [|by left].
      destruct (dict_in (lower l) (_container_labels p)) eqn:Hin; [by left|].
      right. exists l, s.
      destruct (dict_in (lower l) (_label_case p));
        destruct (ch_add_container s name (_context_handler p)) as [[[]|e] c];
        by repeat split.
  - left. unfold add_container, bind, lift_res, ret, in_context, zoom, modify.
    destruct (normalize_position slot) as [s|e]; [|by split]. simpl.
    destruct (ch_add_container s name (_context_handler p)) as [[[]|e] c];
      by split.
Qed.

(** X16: a container can be addressed by its label, in any capitalization,
    as soon as it has been added.  After [add_container(slot, name, label)]
    has returned, an address made of any spelling of the label that differs
    from it in case only, a colon and a well resolves to the slot the
    container was put in, provided the spelling is not itself read as a
    coordinate. *)
Theorem label_addressing p slot name label spelled well w msg p' :
  add_container slot name (Some label) p = (Ok tt, p') ->
  label <> "" ->
  lower spelled = lower label ->
  contains_char ":" spelled = false ->
  contains_char ":" well = false ->
  normalize_position (PosStr spelled) = Raise (ValueError msg) ->
  normalize_position (PosStr well) = Ok w ->
  exists s,
    normalize_position slot = Ok s
    /\ dict_get (lower label) (_container_labels p') = Some s
    /\ _normalize_address (spelled +:+ ":" +:+ well) p' = (Ok (s, w), p').
Proof.
  intros Hadd Hne Hlow Hc1 Hc2 Hn1 Hn2.
  rewrite (add_container_labelled p slot name label Hne) in Hadd.
  destruct (normalize_position slot) as [s|e]; [|discriminate].
  destruct (dict_in (lower label) (_container_labels p)); [discriminate|].
  cbv zeta in Hadd.
  destruct (ch_add_container s name (_context_handler p)) as [[[]|e] c];
    [|discriminate].
  injection Hadd as <-.
  assert (Hget : dict_get (lower label)
                   (dict_set (lower label) s (_container_labels p)) = Some s)
    by apply dict_get_set_eq.
  exists s. split; [reflexivity|]. split; [exact Hget|].
  unfold _normalize_address.
  rewrite contains_char_app. simpl contains_char. rewrite orb_true_r. simpl negb.
  cbv iota.
  change (":" +:+ well) with (String ":" well).
  rewrite (split_on_app ":" spelled well Hc1), (split_on_no_sep ":" well Hc2).
  unfold bind, lift_res, gets, ret. rewrite Hn2, Hn1. cbn beta iota.
  rewrite Hlow. simpl. rewrite Hget. reflexivity.
Qed.

Lemma labels_consistent_add_container slot name label p :
  labels_consistent p -> labels_consistent (add_container slot name label p).2.
Proof.
  intros Hcons.
  destruct (add_container_labels slot name label p)
    as [[Hl Hc]|(l & s & _ & _ & _ & Hfresh & Hl & Hc)];
    intros k; rewrite Hl, Hc; [apply Hcons|].
  rewrite dict_in_set. destruct (dict_in (lower l) (_label_case p)) eqn:Hcase.
  - rewrite <- Hcons in Hcase. congruence.
  - rewrite dict_in_set. by rewrite Hcons.
Qed.

(** X17: every label of a protocol has its capitalization on record, and
    stays so.  The property holds of a new protocol and is kept by
    [add_container] (whether it returns or raises), by [add_instrument], by
    every command method and by a merge that returns; and where it holds
    [get_container_label] never fails with [KeyError]. *)
Theorem labels_stay_consistent p :
  labels_consistent p ->
  labels_consistent (new_protocol (ctx:=ctx) (H:=H) (hash_t:=hash_t))
  /\ (forall slot name label,
        labels_consistent (add_container slot name label p).2)
  /\ (forall axis name, labels_consistent (add_instrument axis name p).2)
  /\ (forall name r, appends_or_raises name r p -> labels_consistent r.2)
  /\ (forall b p',
        labels_consistent b ->
        apply_protocol hash_data strftime_now b p = (Ok tt, p') ->
        labels_consistent p')
  /\ (forall pos, exists o, get_container_label pos p = (Ok o, p)).
Proof.
  intros Hcons.
  split; [intros l; reflexivity|].
  split; [intros; by apply labels_consistent_add_container|].
  split.
  { intros axis name l. unfold add_instrument, bind, modify, in_context, zoom.
    simpl. destruct (ch_add_instrument _ _ _) as [[[]|e] c]; apply Hcons. }
  split.
  { intros name r [(c & record & -> & _)|(e & c & ->)] l; apply Hcons. }
  split.
  { intros b p' Hb Hmerge l.
    destruct (apply_protocol_ok hash_data strftime_now b p p' Hmerge)
      as (_ & Hl & Hc & _).
    rewrite (dict_in_merged _ _ _ l (Hl l)), (dict_in_merged _ _ _ l (Hc l)).
    by rewrite Hb, Hcons. }
  intros pos. unfold get_container_label.
  destruct (first_label_total (_label_case p) (_container_labels p) pos) as [o Ho].
  { intros l q Hin. rewrite <- Hcons. by apply (dict_in_elem _ l q). }
  exists o. by rewrite Ho.
Qed.

(** X18: a label comes back as it was written.  After
    [add_container(slot, name, label)] has returned on a protocol whose
    labels all have their capitalization on record and none of which stood for
    that slot, [get_container_label] of the slot is the label with the
    capitalization given. *)
Theorem label_round_trip p slot name label s p' :
  labels_consistent p ->
  label <> "" ->
  normalize_position slot = Ok s ->
  (forall l, (l, s) ∉ _container_labels p) ->
  add_container slot name (Some label) p = (Ok tt, p') ->
  get_container_label s p' = (Ok (Some label), p').
Proof.
  intros Hcons Hne Hs Hfree Hadd.
  rewrite (add_container_labelled p slot name label Hne), Hs in Hadd.
  destruct (dict_in (lower label) (_container_labels p)) eqn:Hin; [discriminate|].
  assert (Hcase : dict_in (lower label) (_label_case p) = false)
    by (by rewrite <- Hcons).
  rewrite Hcase in Hadd. cbv zeta in Hadd.
  destruct (ch_add_container s name (_context_handler p)) as [[[]|e] c];
    [|discriminate].
  injection Hadd as <-.
  unfold get_container_label. f_equal.
  cbn [_container_labels _label_case set_containers set_context_handler
       set_container_labels set_label_case].
  rewrite (dict_set_fresh (_container_labels p)) by (by apply dict_in_false).
  rewrite (first_label_app _ _ _ _ Hfree). simpl.
  rewrite decide_True by reflexivity.
  by rewrite dict_get_set_eq.
Qed.

End Labels.

Section Humanizing.
Context {ctx H hash_t : Type}.
Context `{!ContextHandler ctx} `{!ProtocolHandler H ctx}.
Variable humanize_position : position -> Res string.
#[local] Abbreviation Protocol := (Protocol ctx H hash_t).
Implicit Types (p : Protocol).

Lemma first_label_none cases (items : dict string position) pos :
  (forall l, (l, pos) ∉ items) -> first_label cases items pos = Ok None.
Proof.
  intros Hno. rewrite <- (app_nil_r items). by rewrite first_label_app.
Qed.

(** X19: what [humanize_address] writes for the container.  It never changes
    the protocol.  For a slot that has a label it writes the label in its
    recorded capitalization; for a slot without a label, given as a pair or
    as a coordinate string, it writes the pair as Python prints it, as in
    [(0, 0):B1], not the name of the slot; for a string that is neither a
    coordinate nor a label it raises [ContainerMissing]. *)
Theorem humanize_address_outcomes p start end_ :
  let r := humanize_address humanize_position (start, end_) p in
  r.2 = p
  /\ (forall pos w l,
        normalize_position start = Ok pos ->
        humanize_position end_ = Ok w ->
        get_container_label pos p = (Ok (Some l), p) ->
        r.1 = Ok (l +:+ ":" +:+ w))
  /\ (forall pos w,
        normalize_position start = Ok pos ->
        humanize_position end_ = Ok w ->
        (forall l, (l, pos) ∉ _container_labels p) ->
        r.1 = Ok (str_position pos +:+ ":" +:+ w))
  /\ (forall s msg,
        start = PosStr s ->
        normalize_position start = Raise (ValueError msg) ->
        dict_in (lower s) (_container_labels p) = false ->
        r.1 = Raise ContainerMissing).
Proof.
  cbv zeta. unfold humanize_address, get_container_label, bind, ret, gets,
    lift_res, raise.
  split.
  { destruct (normalize_position start) as [pos|e].
    - destruct (first_label _ _ pos) as [[l|]|e]; try reflexivity;
        by destruct (humanize_position end_).
    - destruct e; try reflexivity.
      destruct start as [s|q]; [|reflexivity].
      destruct (negb _); [reflexivity|].
      by destruct (humanize_position end_). }
  split.
  { intros pos w l -> Hw [= Hl]. rewrite Hl. simpl. by rewrite Hw. }
  split.
  { intros pos w -> Hw Hno. rewrite (first_label_none _ _ _ Hno). simpl.
    by rewrite Hw. }
  intros s msg -> -> Hin. by rewrite Hin.
Qed.

End Humanizing.

(** ** Group commands *)

Section Groups.
Context {ctx H hash_t : Type}.
Context `{!ContextHandler ctx} `{!ProtocolHandler H ctx}.
#[local] Abbreviation Protocol := (Protocol ctx H hash_t).
Implicit Types (p : Protocol).

Lemma group_args_short arg_names item t p :
  (length item < length arg_names)%nat ->
  exists e, group_args arg_names item t p = (Raise e, p).
Proof.
  revert item t. induction arg_names as [|a names IH]; intros item t Hlen;
    simpl in *; [lia|].
  destruct item as [|v item]; [by eexists|].
  simpl in Hlen. unfold bind.
  pose proof (group_args_state (a :: names) (v :: item) t p) as Hst.
  simpl in Hst. unfold bind in Hst.
  destruct (if bool_decide (a ∈ ["start"; "end"]) then _ else _) as [r p1] eqn:Hv.
  destruct r as [v'|e].
  - destruct (IH item (dict_set a v' t) ltac:(lia)) as [e He].
    assert (p1 = p) as ->.
    { destruct (bool_decide _).
      - unfold bind, ret in Hv. destruct v as [s|o]; simpl in Hv.
        + pose proof (_normalize_address_state s p) as Hs.
          destruct (_normalize_address s p) as [[x|e'] p2]; simpl in Hs;
            by simplify_eq.
        + destruct (negb _); discriminate.
      - unfold ret in Hv. by simplify_eq. }
    by exists e.
  - simpl in Hst. subst p1. by exists e.
Qed.

Lemma group_wells_short wells arg_names volume defaults transfers vols p :
  (exists w, w ∈ wells /\ (length w < length arg_names)%nat) ->
  exists e,
    group_wells wells arg_names volume defaults transfers vols p = (Raise e, p).
Proof.
  revert defaults transfers vols.
  induction wells as [|item wells IH]; intros defaults transfers vols
    (w & Hin & Hlen).
  - by apply elem_of_nil in Hin.
  - pose proof (group_wells_state (item :: wells) arg_names volume defaults
                  transfers vols p) as Hst.
    destruct (group_wells (item :: wells) arg_names volume defaults transfers
                vols p) as [[tv|e] p1] eqn:Hg; simpl in Hst; subst p1;
      [|by exists e].
    exfalso. simpl in Hg. unfold bind, lift_res in Hg.
    apply elem_of_cons in Hin as [->|Hin].
    + destruct (group_args_short arg_names item [] p Hlen) as [e He].
      rewrite He in Hg. discriminate.
    + pose proof (group_args_state arg_names item [] p) as Ha.
      destruct (group_args arg_names item [] p) as [[[item' t]|e] p1];
        [|discriminate].
      simpl in Ha. subst p1.
      destruct (match item' with [x] => _ | _ => _ end) as [[[options ul] ml]|e];
        [|discriminate].
      destruct (_normalize_volume ul ml volume false) as [vol|e]; [|discriminate].
      destruct (IH (dict_del "touchtip" (dict_del "blowout" defaults))
                  (transfers ++
                   [dict_update (dict_set "volume" (of_opt VNum vol) t) options])
                  (vols ++ [vol]) (ex_intro _ w (conj Hin Hlen))) as [e He].
      rewrite He in Hg. discriminate.
Qed.

Lemma _make_transfer_group_raises wells arg_names defaults p :
  wells = [] \/ (exists w, w ∈ wells /\ (length w < length arg_names)%nat) ->
  exists e, _make_transfer_group wells arg_names defaults p = (Raise e, p)
            /\ (wells = [] -> exists msg, e = ValueError msg).
Proof.
  intros Hw. unfold _make_transfer_group, bind, lift_res.
  destruct (_normalize_volume (o_ul defaults) (o_ml defaults) None true)
    as [volume|e] eqn:Hvol.
  - destruct Hw as [->|Hshort].
    + simpl. eexists. split; [reflexivity|]. intros _. by eexists.
    + destruct (group_wells_short wells arg_names volume (o_more defaults) [] []
                  p Hshort) as [e He].
      rewrite He. exists e. split; [reflexivity|].
      intros ->. destruct Hshort as (w & Hin & _). by apply elem_of_nil in Hin.
  - exists e. split; [reflexivity|]. intros _.
    revert Hvol. unfold _normalize_volume.
    repeat (match goal with |- context [if ?b then _ else _] => destruct b end);
      intros [= <-]; by eexists.
Qed.

(** X20: a group command needs wells, and every well needs its addresses.
    [transfer_group], [distribute] and [consolidate] called without wells
    raise [ValueError]; called with a well that has fewer elements than the
    command takes addresses from (two for [transfer_group], one for the
    others) they raise; in both cases the protocol is left as it was. *)
Theorem group_commands_need_wells p tool defaults :
  (exists msg, transfer_group [] tool defaults p = (Raise (ValueError msg), p))
  /\ (forall start,
        exists msg, distribute start [] tool defaults p
                    = (Raise (ValueError msg), p))
  /\ (forall end_,
        exists msg, consolidate end_ [] tool defaults p
                    = (Raise (ValueError msg), p))
  /\ (forall wells w, w ∈ wells -> (length w < 2)%nat ->
        exists e, transfer_group wells tool defaults p = (Raise e, p))
  /\ (forall start wells, [] ∈ wells ->
        exists e, distribute start wells tool defaults p = (Raise e, p))
  /\ (forall end_ wells, [] ∈ wells ->
        exists e, consolidate end_ wells tool defaults p = (Raise e, p)).
Proof.
  assert (Hempty : forall names,
            exists msg, _make_transfer_group [] names defaults p
                        = (Raise (ValueError msg), p)).
  { intros names.
    destruct (_make_transfer_group_raises [] names defaults p (or_introl eq_refl))
      as (e & He & Hmsg).
    destruct (Hmsg eq_refl) as [msg ->]. by exists msg. }
  assert (Hshort : forall names wells w,
            w ∈ wells -> (length w < length names)%nat ->
            exists e, _make_transfer_group wells names defaults p = (Raise e, p)).
  { intros names wells w Hin Hlen.
    destruct (_make_transfer_group_raises wells names defaults p
                (or_intror (ex_intro _ w (conj Hin Hlen)))) as (e & He & _).
    by exists e. }
  split.
  { destruct (Hempty ["start"; "end"]) as [msg Hm]. exists msg.
    unfold transfer_group, bind. by rewrite Hm. }
  split.
  { intros start. destruct (Hempty ["end"]) as [msg Hm]. exists msg.
    unfold distribute, bind. by rewrite Hm. }
  split.
  { intros end_. destruct (Hempty ["start"]) as [msg Hm]. exists msg.
    unfold consolidate, bind. by rewrite Hm. }
  split.
  { intros wells w Hin Hlen.
    destruct (Hshort ["start"; "end"] wells w Hin Hlen) as [e He]. exists e.
    unfold transfer_group, bind. by rewrite He. }
  split.
  { intros start wells Hin.
    destruct (Hshort ["end"] wells [] Hin ltac:(simpl; lia)) as [e He]. exists e.
    unfold distribute, bind. by rewrite He. }
  intros end_ wells Hin.
  destruct (Hshort ["start"] wells [] Hin ltac:(simpl; lia)) as [e He]. exists e.
  unfold consolidate, bind. by rewrite He.
Qed.

Lemma dict_set_keys {K V : Type} `{EqDecision K} (d : dict K V) k v :
  (dict_set k v d).*1 = if dict_in k d then d.*1 else d.*1 ++ [k].
Proof.
  unfold dict_in. induction d as [|[k' v'] d IH]; simpl; [reflexivity|].
  destruct (decide (k = k')) as [->|Hne]; simpl; [reflexivity|].
  change (list_fmap (K * V)%type K fst) with (fmap (M:=list) (@fst K V)).
  rewrite IH. by destruct (dict_get k d).
Qed.

Lemma dict_set_wf {K V : Type} `{EqDecision K} (d : dict K V) k v :
  dict_wf d -> dict_wf (dict_set k v d).
Proof.
  unfold dict_wf. intros Hwf. rewrite dict_set_keys.
  destruct (dict_in k d) eqn:Hin; [exact Hwf|].
  apply NoDup_app. split; [exact Hwf|]. split; [|apply NoDup_singleton].
  intros x Hx Hk. apply list_elem_of_singleton in Hk as ->.
  apply dict_in_false in Hin. by apply dict_get_not_key in Hin.
Qed.

Lemma dict_update_wf {K V : Type} `{EqDecision K} (d e : dict K V) :
  dict_wf d -> dict_wf (dict_update d e).
Proof.
  unfold dict_update. revert d. induction e as [|[k v] e IH]; intros d Hwf;
    simpl; [exact Hwf|].
  apply IH. by apply dict_set_wf.
Qed.

Lemma group_args_rest arg_names item t p rest t' p' :
  group_args arg_names item t p = (Ok (rest, t'), p') ->
  rest = drop (length arg_names) item.
Proof.
  revert item t p. induction arg_names as [|a names IH]; intros item t p; simpl.
  - unfold ret. intros [= <- _ _]. by rewrite drop_0.
  - destruct item as [|v item]; [discriminate|]. unfold bind.
    destruct (if bool_decide (a ∈ ["start"; "end"]) then _ else _)
      as [[v'|e] p1]; [|discriminate].
    intros Hg. simpl. exact (IH _ _ _ Hg).
Qed.

Lemma group_wells_acc wells arg_names volume defaults transfers vols p :
  group_wells wells arg_names volume defaults transfers vols p
  = match group_wells wells arg_names volume defaults [] [] p with
    | (Ok (ts, vs), p') => (Ok (transfers ++ ts, vols ++ vs), p')
    | (Raise e, p') => (Raise e, p')
    end.
Proof.
  revert defaults transfers vols p.
  induction wells as [|item wells IH]; intros defaults transfers vols p; simpl.
  - unfold ret. by rewrite !app_nil_r.
  - unfold bind, lift_res.
    destruct (group_args arg_names item [] p) as [[[item' t]|e] p1];
      [|reflexivity].
    destruct (match item' with [x] => _ | _ => _ end) as [[[options ul] ml]|e];
      [|reflexivity].
    destruct (_normalize_volume ul ml volume false) as [vol|e]; [|reflexivity].
    rewrite (IH _ (transfers ++ [_]) (vols ++ [_])), (IH _ [_] [_]).
    destruct (group_wells wells arg_names volume _ [] [] p1) as [[[ts vs]|e] p2];
      [|reflexivity].
    simpl. by rewrite <- !app_assoc.
Qed.

(** The options a well starts from, given what is left of the call's
    keywords. *)
Lemma well_options_lookup (defaults : kwargs) k :
  let options :=
    dict_update
      [("blowout", dict_pop_value "blowout" (VBool true) defaults);
       ("touchtip",
        dict_pop_value "touchtip" (VBool true) (dict_del "blowout" defaults))]
      (dict_del "touchtip" (dict_del "blowout" defaults)) in
  dict_wf options
  /\ dict_get "blowout" options
     = Some (dict_pop_value "blowout" (VBool true) defaults)
  /\ dict_get "touchtip" options
     = Some (dict_pop_value "touchtip" (VBool true) defaults)
  /\ (k <> "blowout" -> k <> "touchtip" ->
      dict_get k defaults = None -> dict_get k options = None).
Proof.
  cbv zeta. split.
  { apply dict_update_wf. unfold dict_wf. simpl.
    apply NoDup_cons. split; [|apply NoDup_singleton].
    intros Hin. apply list_elem_of_singleton in Hin. discriminate. }
  assert (Hb : dict_get "blowout"
                 (reverse (dict_del "touchtip" (dict_del "blowout" defaults)))
               = None).
  { apply dict_get_reverse_None.
    rewrite dict_get_del_ne by done. apply dict_get_del_eq. }
  assert (Ht : dict_get "touchtip"
                 (reverse (dict_del "touchtip" (dict_del "blowout" defaults)))
               = None).
  { apply dict_get_reverse_None. apply dict_get_del_eq. }
  split; [by rewrite dict_update_lookup, Hb|].
  split.
  { rewrite dict_update_lookup, Ht. simpl.
    unfold dict_pop_value. by rewrite dict_get_del_ne by done. }
  intros Hk1 Hk2 Hk. rewrite dict_update_lookup.
  assert (Hr : dict_get k
                 (reverse (dict_del "touchtip" (dict_del "blowout" defaults)))
               = None).
  { apply dict_get_reverse_None. by rewrite !dict_get_del_ne by done. }
  rewrite Hr. simpl. by rewrite !decide_False by done.
Qed.

Lemma dict_pop_value_del {V : Type} k (default : V) (d : dict string V) :
  dict_pop_value k default (dict_del k d) = default.
Proof. unfold dict_pop_value. by rewrite dict_get_del_eq. Qed.

Lemma _normalize_volume_default volume v :
  _normalize_volume None None volume false = Ok v ->
  v = volume /\ given volume = true.
Proof.
  unfold _normalize_volume, given. simpl.
  destruct volume as [n|]; simpl; [|discriminate].
  destruct (num_is_0 n); [discriminate|].
  destruct (num_truthy n); [|discriminate]. intros [= <-]. by split.
Qed.

Lemma group_wells_transfers wells arg_names volume defaults p transfers vols p' :
  group_wells wells arg_names volume defaults [] [] p = (Ok (transfers, vols), p') ->
  length transfers = length wells
  /\ forall i item t,
       wells !! i = Some item -> transfers !! i = Some t ->
       (length item = length arg_names ->
        dict_get "blowout" t
        = Some (match i with
                | O => dict_pop_value "blowout" (VBool true) defaults
                | S _ => VBool true
                end)
        /\ dict_get "touchtip" t
           = Some (match i with
                   | O => dict_pop_value "touchtip" (VBool true) defaults
                   | S _ => VBool true
                   end)
        /\ (dict_get "volume" defaults = None ->
            given volume = true
            /\ dict_get "volume" t = Some (of_opt VNum volume)))
       /\ (forall o,
             length item = S (length arg_names) ->
             item !! length arg_names = Some (WOpts o) ->
             dict_get "volume" defaults = None ->
             dict_get "volume" (o_more o) = None ->
             exists v,
               _normalize_volume (o_ul o) (o_ml o) volume false = Ok v
               /\ dict_get "volume" t = Some (of_opt VNum v)).
Proof.
  revert defaults transfers vols p.
  induction wells as [|item wells IH]; intros defaults transfers vols p.
  - simpl. unfold ret. intros [= <- <- <-]. split; [reflexivity|].
    intros i item t Hi. by rewrite lookup_nil in Hi.
  - simpl. unfold bind, lift_res.
    destruct (group_args arg_names item [] p) as [[[rest targs]|e] p1] eqn:Ha;
      [|discriminate].
    apply group_args_rest in Ha.
    set (d2 := dict_del "touchtip" (dict_del "blowout" defaults)).
    set (options0 :=
           dict_update
             [("blowout", dict_pop_value "blowout" (VBool true) defaults);
              ("touchtip",
               dict_pop_value "touchtip" (VBool true)
                 (dict_del "blowout" defaults))] d2).
    destruct (match rest with [x] => _ | _ => _ end)
      as [[[options ul] ml]|e] eqn:Ho; [|discriminate].
    destruct (_normalize_volume ul ml volume false) as [vol|e] eqn:Hvol;
      [|discriminate].
    rewrite group_wells_acc.
    destruct (group_wells wells arg_names volume d2 [] [] p1)
      as [[[ts vs]|e] p2] eqn:Hrest; [|discriminate].
    intros [= <- <- <-].
    destruct (IH _ _ _ _ Hrest) as [Hlen Hall].
    split; [simpl; by rewrite Hlen|].
    intros [|i] item' t Hi Ht; simpl in Hi, Ht.
    + injection Hi as <-. injection Ht as <-.
      destruct (well_options_lookup defaults "volume")
        as (Hwf & Hb & Htt & Hother).
      fold d2 in Hwf, Hb, Htt, Hother. fold options0 in Hwf, Hb, Htt, Hother.
      split.
      * intros Hplain.
        assert (rest = []) as ->.
        { rewrite Ha. apply drop_ge. lia. }
        injection Ho as <- <- <-.
        apply _normalize_volume_default in Hvol as [-> Hgiven].
        rewrite !dict_update_lookup, !(dict_get_reverse _ _ Hwf), Hb, Htt.
        split; [reflexivity|]. split; [reflexivity|].
        intros Hnv. split; [exact Hgiven|].
        rewrite (Hother ltac:(done) ltac:(done) Hnv).
        apply dict_get_set_eq.
      * intros o Hlen1 Hlast Hnv Hno.
        assert (rest = [WOpts o]) as ->.
        { rewrite Ha.
          rewrite (drop_S _ _ _ Hlast). f_equal. apply drop_ge. lia. }
        simpl in Ho. injection Ho as <- <- <-.
        exists vol. split; [exact Hvol|].
        rewrite dict_update_lookup.
        assert (Hr : dict_get "volume"
                       (reverse (dict_update options0 (o_more o))) = None).
        { apply dict_get_reverse_None. rewrite dict_update_lookup.
          assert (Hr2 : dict_get "volume" (reverse (o_more o)) = None)
            by by apply dict_get_reverse_None.
          rewrite Hr2. exact (Hother ltac:(done) ltac:(done) Hnv). }
        rewrite Hr. apply dict_get_set_eq.
    + destruct (Hall i item' t Hi Ht) as [Hplain Hown].
      assert (Hd2b : dict_pop_value "blowout" (VBool true) d2 = VBool true).
      { unfold dict_pop_value, d2.
        rewrite dict_get_del_ne by done. by rewrite dict_get_del_eq. }
      assert (Hd2t : dict_pop_value "touchtip" (VBool true) d2 = VBool true)
        by apply dict_pop_value_del.
      assert (Hd2v : dict_get "volume" defaults = None ->
                     dict_get "volume" d2 = None).
      { intros Hnv. unfold d2. by rewrite !dict_get_del_ne by done. }
      split.
      * intros Hlen'. destruct (Hplain Hlen') as (Hb & Htt & Hv).
        split; [by destruct i; rewrite Hb, ?Hd2b|].
        split; [by destruct i; rewrite Htt, ?Hd2t|].
        intros Hnv. apply Hv, Hd2v, Hnv.
      * intros o Hlen1 Hlast Hnv Hno. apply (Hown o Hlen1 Hlast); [|exact Hno].
        apply Hd2v, Hnv.
Qed.

Lemma _make_transfer_group_ok wells arg_names defaults p transfers mn mx p' :
  _make_transfer_group wells arg_names defaults p = (Ok (transfers, mn, mx), p') ->
  exists volume vols,
    _normalize_volume (o_ul defaults) (o_ml defaults) None true = Ok volume
    /\ group_wells wells arg_names volume (o_more defaults) [] [] p
       = (Ok (transfers, vols), p).
Proof.
  unfold _make_transfer_group, bind, lift_res, ret.
  destruct (_normalize_volume _ _ None true) as [volume|e]; [|discriminate].
  pose proof (group_wells_state wells arg_names volume (o_more defaults) [] [] p)
    as Hst.
  destruct (group_wells _ _ _ _ _ _ p) as [[[ts vs]|e] p1] eqn:Hw;
    [|discriminate].
  simpl in Hst. subst p1.
  destruct (py_min vs); [|discriminate]. destruct (py_max vs); [|discriminate].
  intros [= <- _ _ _]. exists volume, vs. by split.
Qed.

(** X21: the [blowout] and [touchtip] keywords of a group command reach the
    first well only.  In the transfers [_make_transfer_group] returns there
    is one transfer for each well, in order; for a well that consists of its
    addresses alone, the first transfer has the [blowout] and [touchtip] given
    with the call ([True] where none was given), and every later transfer has
    [True] for both, whatever was given with the call. *)
Theorem group_defaults_reach_first_well_only wells arg_names defaults p
    transfers mn mx p' :
  _make_transfer_group wells arg_names defaults p = (Ok (transfers, mn, mx), p') ->
  length transfers = length wells
  /\ forall i item t,
       wells !! i = Some item -> transfers !! i = Some t ->
       length item = length arg_names ->
       dict_get "blowout" t
       = Some (match i with
               | O => dict_pop_value "blowout" (VBool true) (o_more defaults)
               | S _ => VBool true
               end)
       /\ dict_get "touchtip" t
          = Some (match i with
                  | O => dict_pop_value "touchtip" (VBool true) (o_more defaults)
                  | S _ => VBool true
                  end).
Proof.
  intros Hg. destruct (_make_transfer_group_ok _ _ _ _ _ _ _ _ Hg)
    as (volume & vols & _ & Hw).
  destruct (group_wells_transfers _ _ _ _ _ _ _ _ Hw) as [Hlen Hall].
  split; [exact Hlen|].
  intros i item t Hi Ht Hplain.
  destruct (Hall i item t Hi Ht) as [Hp _].
  destruct (Hp Hplain) as (Hb & Htt & _). by split.
Qed.

(** X22: the volume of each transfer of a group.  When the call gives no
    [volume] keyword of its own: a well that consists of its addresses alone
    gets the volume given with the call ([ul], or [ml] times 1000), which
    must then have been given and not be zero; a well that ends in an options
    dictionary (without a [volume] key) gets the volume
    [_normalize_volume] makes of the well's own [ul] and [ml] with the call's
    volume as the default. *)
Theorem group_volumes wells arg_names defaults p transfers mn mx p' :
  _make_transfer_group wells arg_names defaults p = (Ok (transfers, mn, mx), p') ->
  dict_get "volume" (o_more defaults) = None ->
  exists volume,
    _normalize_volume (o_ul defaults) (o_ml defaults) None true = Ok volume
    /\ forall i item t,
         wells !! i = Some item -> transfers !! i = Some t ->
         (length item = length arg_names ->
          given volume = true
          /\ dict_get "volume" t = Some (of_opt VNum volume))
         /\ (forall o,
               length item = S (length arg_names) ->
               item !! length arg_names = Some (WOpts o) ->
               dict_get "volume" (o_more o) = None ->
               exists v,
                 _normalize_volume (o_ul o) (o_ml o) volume false = Ok v
                 /\ dict_get "volume" t = Some (of_opt VNum v)).
Proof.
  intros Hg Hnv. destruct (_make_transfer_group_ok _ _ _ _ _ _ _ _ Hg)
    as (volume & vols & Hvol & Hw).
  exists volume. split; [exact Hvol|].
  destruct (group_wells_transfers _ _ _ _ _ _ _ _ Hw) as [_ Hall].
  intros i item t Hi Ht. destruct (Hall i item t Hi Ht) as [Hp Hown].
  split.
  - intros Hplain. destruct (Hp Hplain) as (_ & _ & Hv). by apply Hv.
  - intros o Hlen Hlast Hno. by apply (Hown o Hlen Hlast).
Qed.

End Groups.

(** ** The volumes a group hands to the tool search *)

Lemma _normalize_volume_some ul ml default v :
  _normalize_volume ul ml default false = Ok v -> exists n, v = Some n.
Proof.
  unfold _normalize_volume.
  destruct ul as [u|], ml as [m|], default as [d|]; cbv zeta beta iota;
    repeat (match goal with
            | |- context [num_is_0 ?n] => destruct (num_is_0 n) eqn:?
            | |- context [num_truthy ?n] => destruct (num_truthy n) eqn:?
            | |- context [num_eqb ?a ?b] => destruct (num_eqb a b) eqn:?
            end; simpl);
    intros Hv; try discriminate; injection Hv as <-; by eexists.
Qed.

Lemma py_scan_elem better cur l r :
  py_scan better cur l = Ok r -> r = cur \/ r ∈ l.
Proof.
  revert cur. induction l as [|item l IH]; intros cur; simpl.
  - intros [= <-]. by left.
  - destruct (better item cur) as [b|e]; [|discriminate].
    intros Hs. destruct (IH _ Hs) as [->|Hin].
    + destruct b; [right; left|by left].
    + right. by right.
Qed.

Lemma py_scan_min cur zs r :
  py_scan py_lt (Some (PyInt cur)) ((fun z => Some (PyInt z)) <$> zs) = Ok r ->
  exists a, r = Some (PyInt a) /\ a <= cur /\ forall z, z ∈ zs -> a <= z.
Proof.
  revert cur. induction zs as [|z zs IH]; intros cur; simpl.
  - intros [= <-]. exists cur. split; [reflexivity|]. split; [lia|].
    intros z Hin. by apply elem_of_nil in Hin.
  - destruct (Z.ltb_spec z cur) as [Hlt|Hge]; intros Hs;
      destruct (IH _ Hs) as (a & -> & Ha & Hall); exists a;
      (split; [reflexivity|]); (split; [lia|]);
      intros z' Hin; apply elem_of_cons in Hin as [->|Hin];
      try lia; by apply Hall.
Qed.

Lemma py_scan_max cur zs r :
  py_scan (fun item cur => py_lt cur item) (Some (PyInt cur))
    ((fun z => Some (PyInt z)) <$> zs) = Ok r ->
  exists b, r = Some (PyInt b) /\ cur <= b /\ forall z, z ∈ zs -> z <= b.
Proof.
  revert cur. induction zs as [|z zs IH]; intros cur; simpl.
  - intros [= <-]. exists cur. split; [reflexivity|]. split; [lia|].
    intros z Hin. by apply elem_of_nil in Hin.
  - destruct (Z.ltb_spec cur z) as [Hlt|Hge]; intros Hs;
      destruct (IH _ Hs) as (b & -> & Hb & Hall); exists b;
      (split; [reflexivity|]); (split; [lia|]);
      intros z' Hin; apply elem_of_cons in Hin as [->|Hin];
      try lia; by apply Hall.
Qed.

Section GroupBounds.
Context {ctx H hash_t : Type}.
Context `{!ContextHandler ctx} `{!ProtocolHandler H ctx}.
#[local] Abbreviation Protocol := (Protocol ctx H hash_t).
Implicit Types (p : Protocol).

Lemma group_wells_vols wells arg_names volume defaults p transfers vols p' :
  group_wells wells arg_names volume defaults [] [] p = (Ok (transfers, vols), p') ->
  length vols = length wells /\ forall v, v ∈ vols -> exists n, v = Some n.
Proof.
  revert defaults transfers vols p.
  induction wells as [|item wells IH]; intros defaults transfers vols p.
  - simpl. unfold ret. intros [= <- <- <-]. split; [reflexivity|].
    intros v Hin. by apply elem_of_nil in Hin.
  - simpl. unfold bind, lift_res.
    destruct (group_args arg_names item [] p) as [[[rest targs]|e] p1];
      [|discriminate].
    destruct (match rest with [x] => _ | _ => _ end)
      as [[[options ul] ml]|e]; [|discriminate].
    destruct (_normalize_volume ul ml volume false) as [vol|e] eqn:Hvol;
      [|discriminate].
    rewrite group_wells_acc.
    destruct (group_wells wells arg_names volume _ [] [] p1)
      as [[[ts vs]|e] p2] eqn:Hrest; [|discriminate].
    intros [= <- <- <-].
    destruct (IH _ _ _ _ Hrest) as [Hlen Hall].
    split; [simpl; by rewrite Hlen|].
    intros v Hin. apply elem_of_cons in Hin as [->|Hin].
    + by apply (_normalize_volume_some _ _ _ _ Hvol).
    + by apply Hall.
Qed.

(** X23: the two volumes a group command searches its tool with.  When
    [_make_transfer_group] returns, the list of volumes it has built has one
    volume for each well, each of them a number; the minimum and the maximum
    it returns are both volumes of that list; and when all volumes are
    integers, every volume lies between the two. *)
Theorem group_volume_bounds wells arg_names defaults p transfers mn mx p' :
  _make_transfer_group wells arg_names defaults p = (Ok (transfers, mn, mx), p') ->
  exists volume vols,
    group_wells wells arg_names volume (o_more defaults) [] [] p
    = (Ok (transfers, vols), p)
    /\ length vols = length wells
    /\ wells <> []
    /\ (forall v, v ∈ vols -> exists n, v = Some n)
    /\ mn ∈ vols /\ mx ∈ vols
    /\ (forall zs,
          vols = (fun z => Some (PyInt z)) <$> zs ->
          exists a b,
            mn = Some (PyInt a) /\ mx = Some (PyInt b)
            /\ forall z, z ∈ zs -> a <= z <= b).
Proof.
  unfold _make_transfer_group, bind, lift_res, ret.
  destruct (_normalize_volume _ _ None true) as [volume|e]; [|discriminate].
  pose proof (group_wells_state wells arg_names volume (o_more defaults) [] [] p)
    as Hst.
  destruct (group_wells _ _ _ _ _ _ p) as [[[ts vs]|e] p1] eqn:Hw;
    [|discriminate].
  simpl in Hst. subst p1.
  destruct (py_min vs) as [a|e] eqn:Hmin; [|discriminate].
  destruct (py_max vs) as [b|e] eqn:Hmax; [|discriminate].
  intros [= <- <- <- <-].
  destruct (group_wells_vols _ _ _ _ _ _ _ _ Hw) as [Hlen Hall].
  exists volume, vs. split; [exact Hw|]. split; [exact Hlen|].
  destruct vs as [|v0 vs]; [discriminate|].
  split; [intros ->; discriminate|].
  split; [exact Hall|].
  simpl in Hmin, Hmax.
  split.
  { destruct (py_scan_elem _ _ _ _ Hmin) as [->|Hin]; [left|by right]. }
  split.
  { destruct (py_scan_elem _ _ _ _ Hmax) as [->|Hin]; [left|by right]. }
  intros [|z0 zs] Hzs; [discriminate|].
  simpl in Hzs. injection Hzs as -> ->.
  destruct (py_scan_min _ _ _ Hmin) as (lo & -> & Hlo & Hlos).
  destruct (py_scan_max _ _ _ Hmax) as (hi & -> & Hhi & His).
  exists lo, hi. split; [reflexivity|]. split; [reflexivity|].
  intros z Hin. apply elem_of_cons in Hin as [->|Hin]; [lia|].
  split; [by apply Hlos|by apply His].
Qed.

End GroupBounds.

(** ** Merging and metadata *)

(** What the loops of a merge leave alone: any reading of a protocol that
    does not depend on the fields the declarations and commands write. *)
Section Kept.
Context {ctx H hash_t : Type}.
Context `{!ContextHandler ctx} `{!ProtocolHandler H ctx}.
#[local] Abbreviation Protocol := (Protocol ctx H hash_t).
Implicit Types (p q b : Protocol).
Context {T : Type} (f : Protocol -> T).
Hypothesis f_containers : forall v p, f (set_containers v p) = f p.
Hypothesis f_labels : forall v p, f (set_container_labels v p) = f p.
Hypothesis f_label_case : forall v p, f (set_label_case v p) = f p.
Hypothesis f_head : forall v p, f (set_head v p) = f p.
Hypothesis f_commands : forall v p, f (set_commands v p) = f p.
Hypothesis f_context : forall v p, f (set_context_handler v p) = f p.

Lemma kept_bind {A B} (m : M Protocol A) (k : A -> M Protocol B) p :
  f (m p).2 = f p ->
  (forall a q, f (k a q).2 = f q) ->
  f (bind m k p).2 = f p.
Proof.
  intros Hm Hk. unfold bind. destruct (m p) as [[a|e] p1]; simpl in *.
  - by rewrite Hk.
  - exact Hm.
Qed.

Lemma kept_for_each {A} (l : list A) (body : A -> M Protocol unit) p :
  (forall a q, f (body a q).2 = f q) ->
  f (for_each l body p).2 = f p.
Proof.
  intros Hbody.
  apply (for_each_inv (fun s => f s = f p)); [|reflexivity].
  intros a s Hs. by rewrite Hbody.
Qed.

Lemma kept_add_container slot name label p :
  f (add_container slot name label p).2 = f p.
Proof.
  unfold add_container.
  apply kept_bind; [by destruct (normalize_position slot)|]. intros s q.
  apply kept_bind.
  { destruct label as [[|a l]|]; try reflexivity.
    apply kept_bind; [reflexivity|]. intros labels q1.
    destruct (dict_in _ labels); [reflexivity|].
    apply kept_bind.
    - unfold modify. simpl. destruct (dict_in _ (_label_case q1));
        [reflexivity|apply f_label_case].
    - intros _ q2. apply f_labels. }
  intros _ q1. apply kept_bind.
  - unfold in_context, zoom. destruct (ch_add_container _ _ _) as [r c].
    apply f_context.
  - intros _ q2. unfold modify. simpl. apply f_containers.
Qed.

Lemma kept_add_instrument axis name p :
  f (add_instrument axis name p).2 = f p.
Proof.
  unfold add_instrument. apply kept_bind; [apply f_head|].
  intros _ q. unfold in_context, zoom.
  destruct (ch_add_instrument _ _ _) as [r c]. apply f_context.
Qed.

Lemma kept_add_command command kw p :
  f (add_command command kw p).2 = f p.
Proof.
  destruct (add_command_outcome command kw p) as [[c ->]|(e & c & ->)]; simpl.
  - by rewrite f_commands, f_context.
  - apply f_context.
Qed.

Lemma kept_merge_loops b p :
  f ((apply_containers (_containers b) ;;;
      labels <- gets (fun p => dict_invert (_container_labels p)) ;;
      apply_labels labels (_container_labels b) ;;;
      apply_label_case (_label_case b) ;;;
      apply_instruments (_head b) ;;;
      apply_commands (_commands b)) p).2
  = f p.
Proof.
  apply kept_bind.
  { apply kept_for_each. intros [slot name] q. apply kept_bind;
      [reflexivity|]. intros cs q'.
    destruct (dict_get slot cs) as [n|]; [by destruct (decide (n = name))|].
    apply kept_add_container. }
  intros _ q. apply kept_bind; [reflexivity|]. intros labels q1.
  apply kept_bind.
  { apply kept_for_each. intros [label slot] q'. apply kept_bind.
    - destruct (dict_get slot labels) as [l|]; [|reflexivity].
      by destruct (decide (l = label)).
    - intros _ q''. apply f_labels. }
  intros _ q2. apply kept_bind.
  { apply kept_for_each. intros [label case] q'. apply f_label_case. }
  intros _ q3. apply kept_bind.
  { apply kept_for_each. intros [axis name] q'.
    apply kept_bind; [reflexivity|]. intros hd q''.
    apply kept_bind.
    - destruct (dict_get axis hd) as [n|]; [|reflexivity].
      by destruct (decide (n = name)).
    - intros _ q5. apply kept_add_instrument. }
  intros _ q4. apply kept_for_each. intros command q'.
  destruct (dict_get "command" command) as [cv|]; [|reflexivity].
  apply kept_bind; [by destruct (command_name cv)|].
  intros name q''. apply kept_add_command.
Qed.

End Kept.

Section MergeMetadata.
Context {ctx H hash_t : Type} `{EqDecision hash_t}.
Context `{!ContextHandler ctx} `{!ProtocolHandler H ctx}.
Variable hash_data : Structure -> hash_t.
Variable strftime_now : string.
#[local] Abbreviation Protocol := (Protocol ctx H hash_t).
Implicit Types (p q b : Protocol).

Lemma apply_protocol_after_info b p p0 :
  set_info_from hash_data (info hash_data strftime_now b) p = (Ok tt, p0) ->
  (apply_protocol hash_data strftime_now b p).2
  = ((apply_containers (_containers b) ;;;
      labels <- gets (fun p => dict_invert (_container_labels p)) ;;
      apply_labels labels (_container_labels b) ;;;
      apply_label_case (_label_case b) ;;;
      apply_instruments (_head b) ;;;
      apply_commands (_commands b)) p0).2.
Proof. intros Hset. unfold apply_protocol. unfold bind at 1. by rewrite Hset. Qed.

(** X24: what a merge does to the metadata of its receiver.  Whether
    [apply_protocol(b)] returns or raises, the receiver then has the version
    of [b], the creation and update dates of [b] (the time of the call where
    [b] has none or an empty one), the name, description and author of [b]
    where [b] has them and its own where not; and the hash recorded with the
    version is the hash the receiver had before the merge, not the hash of
    the merged document. *)
Theorem apply_protocol_metadata b p :
  _version b <> [] ->
  let p' := (apply_protocol hash_data strftime_now b p).2 in
  _version p' = _version b
  /\ _version_hash p' = Some (hash hash_data p)
  /\ _created p' = Some (str_or (_created b) strftime_now)
  /\ _updated p' = Some (str_or (_updated b) strftime_now)
  /\ _name p' = (match _name b with Some n => Some n | None => _name p end)
  /\ _description p'
     = (match _description b with Some d => Some d | None => _description p end)
  /\ _author p' = (match _author b with Some a => Some a | None => _author p end).
Proof.
  intros Hv. cbv zeta.
  pose proof (parse_version_version b Hv) as Hparse.
  assert (Hinfo : exists p0,
             set_info_from hash_data (info hash_data strftime_now b) p = (Ok tt, p0)
             /\ metadata p0
                = (match _name b with Some n => Some n | None => _name p end,
                   match _description b with
                   | Some d => Some d
                   | None => _description p
                   end,
                   Some (str_or (_created b) strftime_now),
                   Some (str_or (_updated b) strftime_now),
                   match _author b with Some a => Some a | None => _author p end,
                   _version b, Some (hash hash_data p))).
  { unfold set_info_from, set_info, info, assign_some, bind, ret, lift_res, modify.
    simpl. rewrite Hparse.
    destruct (_name b), (_description b), (_author b); eexists;
      (split; [reflexivity|reflexivity]). }
  destruct Hinfo as (p0 & Hset & Hmeta).
  rewrite (apply_protocol_after_info b p p0 Hset).
  pose proof (kept_merge_loops metadata ltac:(done) ltac:(done) ltac:(done)
                ltac:(done) ltac:(done) ltac:(done) b p0) as Hloops.
  rewrite Hmeta in Hloops. unfold metadata in Hloops.
  injection Hloops; intros. repeat split; assumption.
Qed.

(** X25: a merge never touches handlers or calibration.  Whether
    [apply_protocol(b)] returns or raises, the receiver keeps its list of
    attached handlers, its handler objects, its motor handler, its partial
    proxy and its calibration; nothing of these is taken from [b].  So a
    protocol made by [+] has no handler attached, no motor handler, no partial
    proxy and no calibration, whatever its operands had. *)
Theorem merge_leaves_handlers_alone b p :
  let p' := (apply_protocol hash_data strftime_now b p).2 in
  attachments p' = attachments p
  /\ (forall a c,
        add hash_data strftime_now a (OProtocol b) = Ok c ->
        attachments c = ([], [], None, None, [])).
Proof.
  assert (Hkeep : forall b p,
             attachments (apply_protocol hash_data strftime_now b p).2
             = attachments p).
  { clear. intros b p. unfold apply_protocol. apply kept_bind; try done.
    - unfold set_info_from, set_info, info, assign_some, bind, ret, modify,
        lift_res. simpl.
      destruct (_name b), (_description b), (_author b);
        by destruct (parse_version (version b)).
    - intros _ q.
      apply (kept_merge_loops attachments ltac:(done) ltac:(done) ltac:(done)
               ltac:(done) ltac:(done) ltac:(done) b q). }
  cbv zeta. split; [apply Hkeep|].
  intros a c Hadd. unfold add, bind in Hadd.
  pose proof (Hkeep a new_protocol) as Ha.
  destruct (apply_protocol hash_data strftime_now a new_protocol)
    as [[[]|e] ca]; [|discriminate].
  pose proof (Hkeep b ca) as Hb.
  destruct (apply_protocol hash_data strftime_now b ca) as [[[]|e] cb];
    [|discriminate].
  injection Hadd as <-. simpl in *. by rewrite Hb, Ha.
Qed.

End MergeMetadata.

(** ** A merge that raises *)




Section MergeStops.
Context {ctx H hash_t : Type} `{EqDecision hash_t}.
Context `{!ContextHandler ctx} `{!ProtocolHandler H ctx}.
Variable hash_data : Structure -> hash_t.
Variable strftime_now : string.
#[local] Abbreviation Protocol := (Protocol ctx H hash_t).
Implicit Types (p q b : Protocol) (st : gmap nat Protocol).











End MergeStops.

(** ** Merging instruments and labels *)

Lemma dict_get_elem {K V : Type} `{EqDecision K} (d : dict K V) k v :
  dict_get k d = Some v -> (k, v) ∈ d.
Proof.
  induction d as [|[k' v'] d IH]; simpl; [discriminate|].
  destruct (decide (k = k')) as [->|Hne].
  - intros [= ->]. left.
  - intros Hg. right. by apply IH.
Qed.

Section MergeConflicts.
Context {ctx H hash_t : Type} `{EqDecision hash_t}.
Context `{!ContextHandler ctx} `{!ProtocolHandler H ctx}.
Variable hash_data : Structure -> hash_t.
Variable strftime_now : string.
#[local] Abbreviation Protocol := (Protocol ctx H hash_t).
Implicit Types (p q b : Protocol).

Lemma apply_instruments_agree items p p' :
  apply_instruments items p = (Ok tt, p') ->
  forall axis n1 n2,
    dict_get axis (_head p) = Some n1 -> (axis, n2) ∈ items -> n1 = n2.
Proof.
  revert p. induction items as [|[ax nm] items IH]; intros p Hok axis n1 n2 Hg Hin.
  - by apply elem_of_nil in Hin.
  - rewrite apply_instruments_cons in Hok. cbv zeta in Hok.
    assert (Hhead : forall n, dict_get ax (_head p) = Some n -> n = nm).
    { intros n Hn. rewrite Hn in Hok.
      destruct (decide (n = nm)); [done|discriminate]. }
    assert (Hgo : exists c,
               apply_instruments items
                 (set_context_handler c
                    (set_head (dict_set ax nm (_head p)) p)) = (Ok tt, p')).
    { destruct (dict_get ax (_head p)) as [n|].
      - destruct (decide (n = nm)); [|discriminate].
        destruct (ch_add_instrument ax nm (_context_handler p)) as [[[]|e0] c];
          [by exists c|discriminate].
      - destruct (ch_add_instrument ax nm (_context_handler p)) as [[[]|e0] c];
          [by exists c|discriminate]. }
    destruct Hgo as [c Hgo].
    apply elem_of_cons in Hin as [[= -> ->]|Hin].
    + by apply Hhead.
    + destruct (decide (ax = axis)) as [->|Hne].
      * rewrite (Hhead n1 Hg). apply (IH _ Hgo axis nm n2); [|exact Hin].
        simpl. apply dict_get_set_eq.
      * apply (IH _ Hgo axis n1 n2); [|exact Hin].
        simpl. by rewrite dict_get_set_ne.
Qed.

Lemma apply_instruments_conflict items p axis n1 n2 :
  (forall ax nm c, (ch_add_instrument ax nm c).1 = Ok tt) ->
  dict_get axis (_head p) = Some n1 ->
  dict_get axis items = Some n2 ->
  n1 <> n2 ->
  (apply_instruments items p).1 = Raise InstrumentConflict.
Proof.
  intros Hctx. revert p.
  induction items as [|[ax nm] items IH]; intros p Hg Hi Hne; [discriminate|].
  rewrite apply_instruments_cons. cbv zeta. simpl in Hi.
  pose proof (Hctx ax nm (_context_handler p)) as Hc.
  destruct (ch_add_instrument ax nm (_context_handler p)) as [[[]|e] c];
    [|discriminate].
  destruct (decide (axis = ax)) as [->|Hax].
  - injection Hi as ->. rewrite Hg. by rewrite decide_False.
  - assert (Hnext : (apply_instruments items
                       (set_context_handler c
                          (set_head (dict_set ax nm (_head p)) p))).1
                    = Raise InstrumentConflict).
    { apply IH; [|exact Hi|exact Hne]. simpl. by rewrite dict_get_set_ne. }
    destruct (dict_get ax (_head p)) as [n|]; [|exact Hnext].
    destruct (decide (n = nm)); [exact Hnext|reflexivity].
Qed.

Lemma apply_protocol_before_instruments b p p' :
  apply_protocol hash_data strftime_now b p = (Ok tt, p') ->
  exists p3 p4,
    _head p3 = _head p
    /\ _container_labels p3 = _container_labels p'
    /\ apply_instruments (_head b) p3 = (Ok tt, p4).
Proof.
  intros Hok.
  destruct (apply_protocol_phases hash_data strftime_now b p p' Hok)
    as (p0 & p1 & p2 & p3 & p4 & H0 & H1 & H2 & H3 & H4 & H5).
  pose proof (set_info_from_operational hash_data
                (info hash_data strftime_now b) p) as Hop.
  rewrite H0 in Hop. simpl in Hop.
  destruct (apply_containers_ok _ _ _ H1) as [_ Hb1].
  destruct (apply_labels_ok _ _ _ _ H2) as (_ & Hb2 & _).
  destruct (apply_label_case_ok (_label_case b) p2) as (p3' & H3' & _ & Hb3 & _).
  rewrite H3 in H3'. injection H3' as <-.
  destruct (apply_instruments_ok _ _ _ H4) as [_ Hb4].
  destruct (apply_commands_ok _ _ _ H5) as [_ Hb5].
  exists p3, p4.
  unfold operational, but_containers, but_labels, but_label_case, but_head,
    but_commands in *.
  split; [congruence|]. split; [congruence|exact H4].
Qed.

(** X26: two protocols that put different instruments on one axis do not
    merge.  If the receiver has an instrument on an axis and the operand has
    another one there, [apply_protocol] never returns, and neither does [+]
    for any left operand with that instrument on that axis; the instruments
    loop itself raises [InstrumentConflict] when the context does not object to
    the instruments before it. *)
Theorem merge_same_axis b p axis n1 n2 :
  dict_get axis (_head p) = Some n1 ->
  dict_get axis (_head b) = Some n2 ->
  n1 <> n2 ->
  (exists e, (apply_protocol hash_data strftime_now b p).1 = Raise e)
  /\ (forall a, dict_get axis (_head a) = Some n1 ->
                exists e, add hash_data strftime_now a (OProtocol b) = Raise e)
  /\ ((forall ax nm c, (ch_add_instrument ax nm c).1 = Ok tt) ->
      (apply_instruments (_head b) p).1 = Raise InstrumentConflict).
Proof.
  intros Hp Hb Hne.
  assert (Hnever : forall q, dict_get axis (_head q) = Some n1 ->
             exists e, (apply_protocol hash_data strftime_now b q).1 = Raise e).
  { intros q Hq.
    destruct (apply_protocol hash_data strftime_now b q) as [[[]|e] q'] eqn:Hok;
      [|by exists e].
    exfalso.
    destruct (apply_protocol_before_instruments b q q' Hok)
      as (p3 & p4 & Hh & _ & Hi).
    apply Hne. apply (apply_instruments_agree _ _ _ Hi axis n1 n2).
    - by rewrite Hh.
    - by apply dict_get_elem. }
  split; [by apply Hnever|]. split.
  - intros a Ha. unfold add, bind.
    destruct (apply_protocol hash_data strftime_now a new_protocol)
      as [[[]|e] ca] eqn:Hca; [|by exists e].
    destruct (apply_protocol_ok hash_data strftime_now a new_protocol ca Hca)
      as (_ & _ & _ & Hhead & _).
    assert (Hq : dict_get axis (_head ca) = Some n1).
    { rewrite Hhead. simpl. exact Ha. }
    destruct (Hnever ca Hq) as [e He].
    destruct (apply_protocol hash_data strftime_now b ca) as [[[]|e'] cb];
      simpl in He; [discriminate|]. by exists e'.
  - intros Hctx. by apply (apply_instruments_conflict _ p axis n1 n2).
Qed.

Lemma apply_labels_checked labels items p p' :
  apply_labels labels items p = (Ok tt, p') ->
  forall label slot l,
    (label, slot) ∈ items -> dict_get slot labels = Some l -> l = label.
Proof.
  revert p. induction items as [|[lb sl] items IH]; intros p Hok label slot l Hin Hg.
  - by apply elem_of_nil in Hin.
  - unfold apply_labels in Hok. simpl in Hok.
    apply bind_ok in Hok as ([] & p1 & Hbody & Hrest).
    apply elem_of_cons in Hin as [[= -> ->]|Hin].
    + apply bind_ok in Hbody as ([] & p2 & Hcheck & _).
      rewrite Hg in Hcheck.
      destruct (decide (l = lb)); [done|discriminate].
    + exact (IH _ Hrest label slot l Hin Hg).
Qed.

(** X27: how labels merge.  When [apply_protocol(b)] returns, every label of
    [b] stands in the receiver for the slot it stands for in [b], also when
    the receiver used that label for another slot before (the label is
    re-pointed, nothing is raised); the receiver's other labels are as they
    were; and the merge has only returned because no slot with a label in
    [b] was known to the receiver under a different label. *)
Theorem merge_labels b p p' :
  apply_protocol hash_data strftime_now b p = (Ok tt, p') ->
  dict_wf (_container_labels b) ->
  (forall l s, dict_get l (_container_labels b) = Some s ->
               dict_get l (_container_labels p') = Some s)
  /\ (forall l, dict_get l (_container_labels b) = None ->
                dict_get l (_container_labels p') = dict_get l (_container_labels p))
  /\ (forall l s l',
        dict_get l (_container_labels b) = Some s ->
        dict_get s (dict_invert (_container_labels p)) = Some l' ->
        l' = l).
Proof.
  intros Hok Hwf.
  destruct (apply_protocol_ok hash_data strftime_now b p p' Hok)
    as (_ & Hl & _).
  split.
  { intros l s Hb. by rewrite Hl, (dict_get_reverse _ _ Hwf), Hb. }
  split.
  { intros l Hb. by rewrite Hl, (dict_get_reverse _ _ Hwf), Hb. }
  intros l s l' Hb Hinv.
  destruct (apply_protocol_phases hash_data strftime_now b p p' Hok)
    as (p0 & p1 & p2 & _ & _ & H0 & H1 & H2 & _).
  pose proof (set_info_from_operational hash_data
                (info hash_data strftime_now b) p) as Hop.
  rewrite H0 in Hop. simpl in Hop.
  destruct (apply_containers_ok _ _ _ H1) as [_ Hb1].
  assert (Hsame : _container_labels p1 = _container_labels p).
  { unfold operational, but_containers in *. congruence. }
  rewrite Hsame in H2.
  apply (apply_labels_checked _ _ _ _ H2 l s l'); [|exact Hinv].
  by apply dict_get_elem.
Qed.

End MergeConflicts.

(** ** Volumes and single steps *)

(** X28: which volume [_normalize_volume] returns.  A volume counts as given
    when it is present and not zero.  When the call returns, the result is
    [ul] if that is given; else [ml] times 1000 if that is given; else the
    default if that is given; else nothing, which happens under
    [skip_raise] only.  The integer zero is never accepted, but a float zero
    counts as not given and lets the next of the three decide. *)
Theorem _normalize_volume_priority ul ml default skip v :
  _normalize_volume ul ml default skip = Ok v ->
  (given ul = true -> v = ul)
  /\ (given ul = false -> given ml = true -> v = option_map num_mul1000 ml)
  /\ (given ul = false -> given ml = false -> given default = true -> v = default)
  /\ (given ul = false -> given ml = false -> given default = false ->
      skip = true /\ v = None)
  /\ (skip = false -> v <> None)
  /\ ul <> Some (PyInt 0) /\ ml <> Some (PyInt 0) /\ default <> Some (PyInt 0).
Proof.
  unfold _normalize_volume, given.
  destruct ul as [u|], ml as [m|], default as [d|]; cbv zeta beta iota;
    repeat (match goal with
            | |- context [num_is_0 ?n] => destruct (num_is_0 n) eqn:?
            | |- context [num_truthy ?n] => destruct (num_truthy n) eqn:?
            | |- context [num_eqb ?a ?b] => destruct (num_eqb a b) eqn:?
            | |- context [negb ?b] => destruct b eqn:?
            end; simpl);
    intros Hv; try discriminate; injection Hv as <-;
    repeat split; intros; try discriminate; try reflexivity; try congruence;
    intros Heq; injection Heq as ->; simpl in *; discriminate.
Qed.

Section Steps.
Context {ctx H hash_t : Type}.
Context `{!ContextHandler ctx} `{!ProtocolHandler H ctx}.
#[local] Abbreviation Protocol := (Protocol ctx H hash_t).
Implicit Types (p : Protocol).

Lemma _run_at index p record :
  _commands p !! index = Some record ->
  _run index p
  = match dict_get "command" record with
    | Some cv =>
        command <- lift_res (command_name cv) ;;
        _run_in_context_handler command (dict_del "command" record) ;;;
        run_on_handlers command (dict_del "command" record)
    | None => raise (KeyError "command")
    end p.
Proof.
  intros Hrec. unfold _run. unfold bind at 1, gets at 1. by rewrite Hrec.
Qed.

(** X29: [_run] asks the context first.  An index past the end of the log
    raises [IndexError], a record without a [command] entry raises
    [KeyError], a command the context has no method for raises
    [AttributeError], and a command the context method rejects raises what the
    method raised; in all four cases no handler has been called: the handler
    objects and the document are as they were. *)
Theorem _run_context_first index p :
  (length (_commands p) <= index ->
   _run index p = (Raise (IndexError "list index out of range"), p))%nat
  /\ (forall record,
        _commands p !! index = Some record ->
        (dict_get "command" record = None ->
         _run index p = (Raise (KeyError "command"), p))
        /\ (forall name,
              dict_get "command" record = Some (VStr name) ->
              (ch_method name = None ->
               _run index p = (Raise (AttributeError name), p))
              /\ (forall method e c,
                    ch_method name = Some method ->
                    method (dict_del "command" record) (_context_handler p)
                    = (Raise e, c) ->
                    _run index p = (Raise e, set_context_handler c p)))).
Proof.
  split.
  { intros Hlen. unfold _run. unfold bind at 1, gets at 1.
    destruct (_commands p !! index) as [record|] eqn:Hrec; [|reflexivity].
    apply lookup_lt_Some in Hrec.
    destruct (Nat.lt_irrefl _ (Nat.lt_le_trans _ _ _ Hrec Hlen)). }
  intros record Hrec. rewrite !(_run_at index p record Hrec).
  split; [by intros ->|].
  intros name ->. unfold bind, lift_res, command_name, _run_in_context_handler.
  split; [by intros ->|].
  intros method e c -> Hm. unfold in_context, zoom. by rewrite Hm.
Qed.

End Steps.

(** ** The properties at work on the deck *)

Module Instances.
Import Example Fixture.

#[local] Abbreviation Protocol := (Protocol Deck Recorder Structure).
#[local] Abbreviation World := (World Deck Recorder Structure).

Lemma set_info_version_round_trip_witness :
  exists p',
    set_info structural_hash None None None None None
      (Some (version transferred)) declared = (Ok tt, p')
    /\ _version p' = _version transferred
    /\ version p' = version transferred
    /\ _version_hash p' = Some (hash structural_hash p')
    /\ hash structural_hash p' = hash structural_hash declared
    /\ (forall impact,
          bump_version structural_hash impact p' = (Ok (version transferred), p')).
Proof.
  apply (set_info_version_round_trip structural_hash declared transferred).
  vm_compute. discriminate.
Defined.

Lemma bump_version_impacts_witness :
  bump_version structural_hash "feature" declared
  = (Ok "0.1.0",
     set_version_hash (Some (hash structural_hash declared))
       (set_version [0; 1; 0] declared)).
Proof.
  destruct (bump_version_impacts structural_hash declared 0 0 0 eq_refl)
    as [Hstale _].
  destruct Hstale as (_ & Hfeature & _); [vm_compute; discriminate|].
  exact Hfeature.
Defined.

Lemma invalid_partial_witness :
  run_all unfinished
  = (Raise (PartialProtocolException
              "Can't run an incomplete PartialProtocol. Problems: Container not found: C1:A1"),
     unfinished).
Proof.
  destruct (invalid_partial_blocks_run_and_export structural_hash unfinished
              {| is_valid := false; problems := ["Container not found: C1:A1"] |}
              version_line false false eq_refl eq_refl)
    as (_ & Hall & _).
  exact Hall.
Defined.


Lemma add_command_replay_witness :
  exists record,
    _commands transferred = _commands declared ++ [record]
    /\ dict_get "command" record = Some (VStr "transfer")
    /\ dict_del "command" record = transfer_kwargs
    /\ _run (length (_commands declared)) transferred
       = (_run_in_context_handler "transfer" transfer_kwargs ;;;
          run_on_handlers "transfer" transfer_kwargs) transferred.
Proof.
  apply (add_command_replay "transfer" transfer_kwargs declared transferred).
  - apply Cases.dict_wfb_spec. vm_compute. reflexivity.
  - reflexivity.
  - vm_compute. reflexivity.
Defined.

Lemma _normalize_address_colons_witness :
  exists msg,
    _normalize_address "A1" declared = (Raise (ValueError msg), declared).
Proof.
  apply (_normalize_address_colons "A1" declared). vm_compute. discriminate.
Defined.

Lemma label_addressing_witness :
  exists s,
    normalize_position (PosStr "C1") = Ok s
    /\ dict_get (lower "Tips") (_container_labels with_tips) = Some s
    /\ _normalize_address ("TIPS" +:+ ":" +:+ "A1") with_tips
       = (Ok (s, (0, 0)), with_tips).
Proof.
  apply (label_addressing declared (PosStr "C1") "tiprack.p200" "Tips" "TIPS"
           "A1" (0, 0) "invalid coordinate" with_tips);
    try reflexivity; try discriminate.
Defined.

Lemma declared_labels_consistent : labels_consistent declared.
Proof.
  assert (Hl : _container_labels declared
               = [("ingredients", (0, 0)); ("output", (1, 0))])
    by (vm_compute; reflexivity).
  assert (Hc : _label_case declared
               = [("ingredients", "Ingredients"); ("output", "Output")])
    by (vm_compute; reflexivity).
  intros l. unfold labels_consistent, dict_in. rewrite Hl, Hc. simpl.
  destruct (decide (l = "ingredients")); [reflexivity|].
  destruct (decide (l = "output")); reflexivity.
Qed.

Lemma labels_stay_consistent_witness :
  exists o, get_container_label (0, 0) with_tips = (Ok o, with_tips).
Proof.
  assert (Hcons : labels_consistent with_tips).
  { destruct (labels_stay_consistent structural_hash clock declared
                declared_labels_consistent) as (_ & Hadd & _).
    exact (Hadd (PosStr "C1") "tiprack.p200" (Some "Tips")). }
  destruct (labels_stay_consistent structural_hash clock with_tips Hcons)
    as (_ & _ & _ & _ & _ & Hget).
  exact (Hget (0, 0)).
Defined.

Lemma label_round_trip_witness :
  get_container_label (2, 0) with_tips = (Ok (Some "Tips"), with_tips).
Proof.
  apply (label_round_trip declared (PosStr "C1") "tiprack.p200" "Tips" (2, 0)
           with_tips declared_labels_consistent);
    try reflexivity; try discriminate.
  intros l Hin. vm_compute in Hin.
  repeat (apply elem_of_cons in Hin as [Hin|Hin]; [discriminate|]).
  by apply elem_of_nil in Hin.
Defined.

Lemma humanize_address_example :
  (humanize_address humanize_position (PosTuple (0, 0), (1, 0)) declared).1
  = Ok "Ingredients:B1"
  /\ (humanize_address humanize_position (PosTuple (2, 0), (1, 0)) declared).1
     = Ok "(2, 0):B1"
  /\ (humanize_address humanize_position (PosStr "C1", (1, 0)) declared).1
     = Ok "(2, 0):B1"
  /\ (humanize_address humanize_position (PosStr "ingredients", (1, 0))
        declared).1
     = Ok "Ingredients:B1"
  /\ (humanize_address humanize_position (PosStr "nothing", (1, 0)) declared).1
     = Raise ContainerMissing.
Proof. repeat split; vm_compute; reflexivity. Qed.

Lemma group_defaults_witness :
  dict_pop_value "blowout" (VBool true) (o_more no_blowout) = VBool false
  /\ exists t1 t2,
       (group_of two_wells no_blowout).1.1 = [t1; t2]
       /\ dict_get "blowout" t1 = Some (VBool false)
       /\ dict_get "blowout" t2 = Some (VBool true).
Proof.
  split; [reflexivity|].
  destruct (group_defaults_reach_first_well_only two_wells ["start"; "end"]
              no_blowout declared (group_of two_wells no_blowout).1.1
              (group_of two_wells no_blowout).1.2
              (group_of two_wells no_blowout).2 declared)
    as [_ Hall]; [vm_compute; reflexivity|].
  eexists _, _. split; [vm_compute; reflexivity|].
  split.
  - refine (proj1 (Hall 0%nat _ _ _ _ _)); reflexivity.
  - refine (proj1 (Hall 1%nat _ _ _ _ _)); reflexivity.
Defined.

Lemma group_volumes_witness :
  exists t1 t2 t3,
    (group_of three_wells (ul_ 10)).1.1 = [t1; t2; t3]
    /\ dict_get "volume" t1 = Some (VNum (PyInt 3))
    /\ dict_get "volume" t2 = Some (VNum (PyInt 10))
    /\ (group_of three_wells (ul_ 10)).1.2 = Some (PyInt 3)
    /\ (group_of three_wells (ul_ 10)).2 = Some (PyInt 10).
Proof.
  destruct (group_volumes three_wells ["start"; "end"] (ul_ 10) declared
              (group_of three_wells (ul_ 10)).1.1
              (group_of three_wells (ul_ 10)).1.2
              (group_of three_wells (ul_ 10)).2 declared)
    as (volume & Hvol & Hall); [vm_compute; reflexivity|reflexivity|].
  injection Hvol as <-.
  eexists _, _, _. split; [vm_compute; reflexivity|].
  split.
  { destruct (Hall 0%nat _ _ eq_refl eq_refl) as [_ Hown].
    destruct (Hown (ul_ 3) eq_refl eq_refl eq_refl) as (v & Hv & Ht).
    injection Hv as <-. exact Ht. }
  split.
  { destruct (Hall 1%nat _ _ eq_refl eq_refl) as [Hplain _].
    exact (proj2 (Hplain eq_refl)). }
  split; vm_compute; reflexivity.
Defined.

Lemma apply_protocol_metadata_witness :
  _version_hash (apply_protocol structural_hash clock right_hand left_hand).2
  = Some (hash structural_hash left_hand)
  /\ hash structural_hash
       (apply_protocol structural_hash clock right_hand left_hand).2
     <> hash structural_hash left_hand.
Proof.
  split.
  - destruct (apply_protocol_metadata structural_hash clock right_hand left_hand)
      as (_ & Hh & _); [vm_compute; discriminate|exact Hh].
  - intros Heq.
    apply (f_equal (fun s => length (s_commands s))) in Heq.
    vm_compute in Heq. discriminate.
Defined.

Lemma merge_same_axis_witness :
  (exists e, (apply_protocol structural_hash clock p200_on_a p10_on_a).1 = Raise e)
  /\ (apply_instruments (_head p200_on_a) p10_on_a).1 = Raise InstrumentConflict.
Proof.
  destruct (merge_same_axis structural_hash clock p200_on_a p10_on_a "A" "p10"
              "p200" eq_refl eq_refl ltac:(discriminate))
    as (Hmerge & _ & Hloop).
  split; [exact Hmerge|]. apply Hloop. reflexivity.
Defined.

Lemma merge_labels_witness :
  dict_get "plate" (_container_labels plate_in_a1) = Some (0, 0)
  /\ dict_get "plate"
       (_container_labels
          (exec (apply_protocol structural_hash clock plate_in_b1) plate_in_a1))
     = Some (1, 0).
Proof.
  split; [reflexivity|].
  destruct (merge_labels structural_hash clock plate_in_b1 plate_in_a1
              (exec (apply_protocol structural_hash clock plate_in_b1)
                 plate_in_a1)) as (Hb & _).
  - vm_compute. reflexivity.
  - apply Cases.dict_wfb_spec. vm_compute. reflexivity.
  - apply Hb. reflexivity.
Defined.

Lemma _normalize_volume_priority_witness :
  given (Some (PyFloat 0)) = false
  /\ _normalize_volume (Some (PyFloat 0)) None (Some (PyInt 5)) false
     = Ok (Some (PyInt 5))
  /\ Some (PyInt 5) = Some (PyInt 5).
Proof.
  assert (Hv : _normalize_volume (Some (PyFloat 0)) None (Some (PyInt 5)) false
               = Ok (Some (PyInt 5))) by (vm_compute; reflexivity).
  split; [vm_compute; reflexivity|]. split; [exact Hv|].
  destruct (_normalize_volume_priority _ _ _ _ _ Hv) as (_ & _ & Hd & _).
  apply Hd; vm_compute; reflexivity.
Defined.

Lemma group_volume_bounds_witness :
  (group_of three_wells (ul_ 10)).1.2 = Some (PyInt 3)
  /\ (group_of three_wells (ul_ 10)).2 = Some (PyInt 10)
  /\ exists vols,
       length vols = 3%nat
       /\ (group_of three_wells (ul_ 10)).1.2 ∈ vols
       /\ (group_of three_wells (ul_ 10)).2 ∈ vols.
Proof.
  split; [vm_compute; reflexivity|]. split; [vm_compute; reflexivity|].
  destruct (group_volume_bounds three_wells ["start"; "end"] (ul_ 10) declared
              (group_of three_wells (ul_ 10)).1.1
              (group_of three_wells (ul_ 10)).1.2
              (group_of three_wells (ul_ 10)).2 declared)
    as (volume & vols & _ & Hlen & _ & _ & Hmin & Hmax & _);
    [vm_compute; reflexivity|].
  exists vols. split; [exact Hlen|]. by split.
Defined.



End Instances.
